(** * Sdb: breakpoint sites, stop-point ids and the tracee they patch

    A shallow embedding of [src/breakpoint_site.cpp] and of the declarations of
    [libsdb/process.hpp], with the tracee (memory, debug registers, kernel
    calls that may fail) as explicit state. *)

From Stdlib Require Import ZArith Lia.
From stdpp Require Import base option list gmap strings.

#[local] Open Scope Z_scope.

(** ** Fixed-width integers

    The C++ types are kept as [Z] with the conversions written out. *)
Module Int.

Definition to_u64 (z : Z) : Z := z mod 2 ^ 64.
Definition to_i64 (z : Z) : Z := (z + 2 ^ 63) mod 2 ^ 64 - 2 ^ 63.
Definition to_u8 (z : Z) : Z := z mod 2 ^ 8.

Definition is_byte (b : Z) : Prop := 0 <= b < 256.
Definition is_u64 (w : Z) : Prop := 0 <= w < 2 ^ 64.

(** Little-endian assembly of a word from bytes, and back. *)
Fixpoint le_word (bs : list Z) : Z :=
  match bs with
  | [] => 0
  | b :: bs' => Z.lor b (Z.shiftl (le_word bs') 8)
  end.

Fixpoint le_bytes (n : nat) (w : Z) : list Z :=
  match n with
  | O => []
  | S n' => Z.land w 255 :: le_bytes n' (Z.shiftr w 8)
  end.

End Int.

(** ** Errors *)

(** Modelled from the spec: [sdb::error] ([libsdb/error.hpp]) is not among
    the sources. The spec has a single error kind carrying a message and an
    optional OS errno. *)
Record error := mk_error { what : string; os_errno : option Z }.

(** Modelled from the spec: [error::send_errno] is not among the sources; it
    raises the error of a failed OS call, errno preserved. Here it builds the
    error, which the caller throws. *)
Definition send_errno (prefix : string) (errno : Z) : error :=
  {| what := prefix; os_errno := Some errno |}.

(** Modelled from the spec: [error::send] is not among the sources; it raises
    a protocol or usage failure, which has a message and no errno. *)
Definition send (message : string) : error :=
  {| what := message; os_errno := None |}.

(** A call either returns or throws; the state it has reached by then is kept
    next to it (an exception does not roll anything back). *)
Inductive result (A : Type) : Type :=
| Returns (a : A)
| Throws (e : error).
Arguments Returns {A} a.
Arguments Throws {A} e.

(** ** The tracee as the kernel shows it through ptrace

    This part is the kernel's side of the calls, not code of the repository:
    memory by byte, the debug registers, and calls that can fail. *)

Inductive kernel_call : Type :=
| PTRACE_PEEKDATA (addr : Z)
| PTRACE_POKEDATA (addr data : Z)
| PTRACE_POKEUSER (dr : nat) (data : Z)
| PTRACE_CONT
| PTRACE_SINGLESTEP
| PTRACE_ATTACH (pid : Z)
| WAITPID
| PROCESS_VM_READV (addr : Z) (amount : nat).

(** Where the kernel has the tracee: in a ptrace stop, executing, or gone
    (exited or killed, and reaped). *)
Inductive kernel_status : Type := Traced_stop | Executing | Gone.

(** What an executing tracee does next, as waitpid will report it. *)
Inductive wait_event : Type :=
| Stops (sig : Z)
| Exits (code : Z)
| Killed (sig : Z) (core : bool).

(** [memory] maps a mapped address to its byte; [debug_regs] are DR0..DR7;
    [status] is where the kernel has the tracee and [events] what the tracee
    will do when it executes; [faults] is what the kernel will answer to the
    coming calls, one entry per call: [Some e] makes that call fail with errno
    [e], [None] (or no entry) lets it run; [calls] is the log of the calls made
    so far, latest first. *)
Record tracee := mk_tracee {
  memory : gmap Z Z;
  debug_regs : list Z;
  status : kernel_status;
  events : list wait_event;
  faults : list (option positive);
  calls : list kernel_call
}.

Definition ESRCH : Z := 3.
Definition EIO : Z := 5.
Definition ECHILD : Z := 10.
Definition EFAULT : Z := 14.

Definition next_fault (t : tracee) : option positive := mjoin (head (faults t)).

(** The errno with which the kernel refuses a ptrace request on the tracee,
    if it does: the fault that is due, or ESRCH when the tracee is not in a
    ptrace stop. *)
Definition refusal (t : tracee) : option Z :=
  match next_fault t with
  | Some e => Some (Z.pos e)
  | None =>
      match status t with
      | Traced_stop => None
      | Executing | Gone => Some ESRCH
      end
  end.

Definition entered (c : kernel_call) (t : tracee) : tracee :=
  {| memory := memory t; debug_regs := debug_regs t;
     status := status t; events := events t;
     faults := tail (faults t); calls := c :: calls t |}.

Definition set_memory (m : gmap Z Z) (t : tracee) : tracee :=
  {| memory := m; debug_regs := debug_regs t;
     status := status t; events := events t;
     faults := faults t; calls := calls t |}.

Definition set_debug_regs (d : list Z) (t : tracee) : tracee :=
  {| memory := memory t; debug_regs := d;
     status := status t; events := events t;
     faults := faults t; calls := calls t |}.

Definition set_status (k : kernel_status) (evs : list wait_event) (t : tracee) : tracee :=
  {| memory := memory t; debug_regs := debug_regs t;
     status := k; events := evs;
     faults := faults t; calls := calls t |}.

Fixpoint load_bytes (m : gmap Z Z) (a : Z) (n : nat) : option (list Z) :=
  match n with
  | O => Some []
  | S n' =>
      match m !! a, load_bytes m (a + 1) n' with
      | Some b, Some bs => Some (b :: bs)
      | _, _ => None
      end
  end.

Fixpoint store_bytes (m : gmap Z Z) (a : Z) (bs : list Z) : gmap Z Z :=
  match bs with
  | [] => m
  | b :: bs' => store_bytes (<[a := b]> m) (a + 1) bs'
  end.

(** What a ptrace call hands back to C: the return value and the value of
    [errno] after the call, the caller having set [errno] to 0 before. *)
Record ptrace_ret := mk_ret { ret : Z; errno : Z }.

(** ptrace(PTRACE_PEEKDATA, pid, addr, nullptr): the word at [addr], as a
    [long]. A failure returns -1 and sets errno. *)
Definition ptrace_peekdata (addr : Z) (t : tracee) : tracee * ptrace_ret :=
  let t' := entered (PTRACE_PEEKDATA addr) t in
  match refusal t with
  | Some e => (t', {| ret := -1; errno := e |})
  | None =>
      match load_bytes (memory t) addr 8 with
      | Some bs => (t', {| ret := Int.to_i64 (Int.le_word bs); errno := 0 |})
      | None => (t', {| ret := -1; errno := EIO |})
      end
  end.

(** ptrace(PTRACE_POKEDATA, pid, addr, data): stores the word [data] at
    [addr]. Returns 0, or -1 with errno set. *)
Definition ptrace_pokedata (addr data : Z) (t : tracee) : tracee * ptrace_ret :=
  let t' := entered (PTRACE_POKEDATA addr data) t in
  match refusal t with
  | Some e => (t', {| ret := -1; errno := e |})
  | None =>
      match load_bytes (memory t) addr 8 with
      | Some _ =>
          (set_memory (store_bytes (memory t) addr (Int.le_bytes 8 data)) t',
           {| ret := 0; errno := 0 |})
      | None => (t', {| ret := -1; errno := EIO |})
      end
  end.

(** ptrace(PTRACE_POKEUSER, pid, offset of DR[dr], data): the write of one
    debug register through the user area. *)
Definition ptrace_pokeuser (dr : nat) (data : Z) (t : tracee) : tracee * ptrace_ret :=
  let t' := entered (PTRACE_POKEUSER dr data) t in
  match refusal t with
  | Some e => (t', {| ret := -1; errno := e |})
  | None => (set_debug_regs (<[dr := data]> (debug_regs t)) t', {| ret := 0; errno := 0 |})
  end.

(** ** Debug-register allocator

    [process.cpp] is not among the sources; of the allocator only the
    declarations in [libsdb/process.hpp] are. *)

(** The modes of [sdb::stoppoint_mode], as [tools/sdb.cpp] names them. *)
Inductive stoppoint_mode : Type := execute | write | read_write.

Definition dr (i : nat) (t : tracee) : Z := default 0 (debug_regs t !! i).
Definition dr7 (t : tracee) : Z := dr 7 t.

(** Modelled from the spec: the layout of DR7 is a constant of the missing
    [process.cpp]; the spec puts the local-enable bit of slot 0..3 at bit 0, 2,
    4, 6. *)
Definition local_enable (control : Z) (slot : nat) : bool :=
  Z.testbit control (2 * Z.of_nat slot).

(** Modelled from the spec: the search of a free slot is in the missing
    [process.cpp]; the spec takes the lowest slot whose local-enable bit is
    clear. *)
Definition find_free_stoppoint_register (control : Z) : option nat :=
  List.find (fun slot => negb (local_enable control slot)) [0; 1; 2; 3]%nat.

(** Modelled from the spec: the encoding of the mode is in the missing
    [process.cpp]; the spec has 00 for execute, 01 for write, 11 for
    read/write. *)
Definition encode_hardware_stoppoint_mode (mode : stoppoint_mode) : Z :=
  match mode with
  | execute => 0
  | write => 1
  | read_write => 3
  end.

(** Modelled from the spec: the encoding of the length is in the missing
    [process.cpp]; the spec has size - 1 for the sizes 1, 2, 4, binary 10
    for 8, and no other size. *)
Definition encode_hardware_stoppoint_size (size : Z) : option Z :=
  if size =? 1 then Some 0
  else if size =? 2 then Some 1
  else if size =? 4 then Some 3
  else if size =? 8 then Some 2
  else None.

(** Modelled from the spec: the bits of a slot in DR7, a constant of the
    missing [process.cpp]: its two enable bits and, from bit 16, its two bits
    of mode and two of length. *)
Definition clear_mask (slot : nat) : Z :=
  Z.lor (Z.shiftl 3 (2 * Z.of_nat slot)) (Z.shiftl 15 (4 * Z.of_nat slot + 16)).

(** Modelled from the spec: [process::set_hardware_stoppoint] is declared in
    [libsdb/process.hpp], its body is not among the sources. The spec: choose
    the lowest free slot, write the address into its DR, update DR7
    (local-enable, mode, length), return the slot; fail when the four slots
    are taken; a failed allocation takes no slot. *)
Definition set_hardware_stoppoint (address : Z) (mode : stoppoint_mode) (size : Z)
    (t : tracee) : tracee * result Z :=
  let control := dr7 t in
  match find_free_stoppoint_register control with
  | None => (t, Throws (send "No remaining hardware debug registers"))
  | Some slot =>
      match encode_hardware_stoppoint_size size with
      | None => (t, Throws (send "Invalid stoppoint size"))
      | Some size_flag =>
          let '(t1, r1) := ptrace_pokeuser slot address t in
          if ret r1 <? 0 then
            (t1, Throws (send_errno "Could not write to user area" (errno r1)))
          else
            let enable_bit := Z.shiftl 1 (2 * Z.of_nat slot) in
            let mode_bits :=
              Z.shiftl (encode_hardware_stoppoint_mode mode) (4 * Z.of_nat slot + 16) in
            let size_bits := Z.shiftl size_flag (4 * Z.of_nat slot + 18) in
            let masked := Z.land control (Z.lnot (clear_mask slot)) in
            let control' := Z.lor masked (Z.lor enable_bit (Z.lor mode_bits size_bits)) in
            let '(t2, r2) := ptrace_pokeuser 7 control' t1 in
            if ret r2 <? 0 then
              (t2, Throws (send_errno "Could not write to user area" (errno r2)))
            else (t2, Returns (Z.of_nat slot))
      end
  end.

(** Modelled from the spec: [process::set_hardware_breakpoint] is declared in
    [libsdb/process.hpp], its body is not among the sources. The spec: an
    allocation with mode execute and length code 00. *)
Definition set_hardware_breakpoint (id address : Z) (t : tracee) : tracee * result Z :=
  set_hardware_stoppoint address execute 1 t.

(** Modelled from the spec: [process::set_watchpoint] is declared in
    [libsdb/process.hpp], its body is not among the sources. The spec: the
    same allocation with the encoded mode and length. *)
Definition set_watchpoint (id address : Z) (mode : stoppoint_mode) (size : Z)
    (t : tracee) : tracee * result Z :=
  set_hardware_stoppoint address mode size t.

(** Modelled from the spec: [process::clear_hardware_stoppoint] is declared in
    [libsdb/process.hpp], its body is not among the sources. The spec: zero
    the DR of the slot and clear its bits in DR7. An index that is no slot is
    refused. *)
Definition clear_hardware_stoppoint (index : Z) (t : tracee) : tracee * result unit :=
  if (0 <=? index) && (index <? 4) then
    let slot := Z.to_nat index in
    let '(t1, r1) := ptrace_pokeuser slot 0 t in
    if ret r1 <? 0 then
      (t1, Throws (send_errno "Could not write to user area" (errno r1)))
    else
      let masked := Z.land (dr7 t1) (Z.lnot (clear_mask slot)) in
      let '(t2, r2) := ptrace_pokeuser 7 masked t1 in
      if ret r2 <? 0 then
        (t2, Throws (send_errno "Could not write to user area" (errno r2)))
      else (t2, Returns tt)
  else (t, Throws (send "Invalid debug register index")).

(** ** Breakpoint sites ([src/breakpoint_site.cpp]) *)

(** The fields of [sdb::breakpoint_site]. The class declaration
    ([libsdb/breakpoint_site.hpp]) is not among the sources: [id_type] is a
    signed integer type, kept as [Z], and [saved_data_] is a [std::byte]. *)
Record breakpoint_site := mk_site {
  id_ : Z;
  address_ : Z;
  is_enabled_ : bool;
  saved_data_ : Z;
  is_hardware_ : bool;
  is_internal_ : bool;
  hardware_register_index_ : Z
}.

Definition with_saved_data (b : Z) (s : breakpoint_site) : breakpoint_site :=
  {| id_ := id_ s; address_ := address_ s; is_enabled_ := is_enabled_ s;
     saved_data_ := b; is_hardware_ := is_hardware_ s;
     is_internal_ := is_internal_ s;
     hardware_register_index_ := hardware_register_index_ s |}.

Definition with_is_enabled (e : bool) (s : breakpoint_site) : breakpoint_site :=
  {| id_ := id_ s; address_ := address_ s; is_enabled_ := e;
     saved_data_ := saved_data_ s; is_hardware_ := is_hardware_ s;
     is_internal_ := is_internal_ s;
     hardware_register_index_ := hardware_register_index_ s |}.

Definition with_hardware_register_index (i : Z) (s : breakpoint_site) : breakpoint_site :=
  {| id_ := id_ s; address_ := address_ s; is_enabled_ := is_enabled_ s;
     saved_data_ := saved_data_ s; is_hardware_ := is_hardware_ s;
     is_internal_ := is_internal_ s;
     hardware_register_index_ := i |}.

(** [get_next_id]: the function-local [static id], starting at 0, is the
    argument; the result is the new value of the static and the value returned
    ([++id]). *)
Definition get_next_id (id : Z) : Z * Z := (id + 1, id + 1).

(** The constructor. [hardware_register_index_] is not in the initialiser
    list; its default member initialiser is in the missing header and is taken
    to be the -1 that [disable] resets it to. *)
Definition new_breakpoint_site (static_id : Z) (address : Z)
    (is_hardware is_internal : bool) : Z * breakpoint_site :=
  let '(static_id', id) :=
    if is_internal then (static_id, -1) else get_next_id static_id in
  (static_id',
   {| id_ := id; address_ := address; is_enabled_ := false; saved_data_ := 0;
      is_hardware_ := is_hardware; is_internal_ := is_internal;
      hardware_register_index_ := -1 |}).

(** A method of a site acts on the site and on the tracee of its process. *)
Definition site_method : Type :=
  breakpoint_site -> tracee -> breakpoint_site * tracee * result unit.

Definition enable : site_method := fun s t =>
  if is_enabled_ s then (s, t, Returns tt)
  else if is_hardware_ s then
    match set_hardware_breakpoint (id_ s) (address_ s) t with
    | (t', Throws e) => (s, t', Throws e)
    | (t', Returns index) =>
        (with_is_enabled true (with_hardware_register_index index s), t', Returns tt)
    end
  else
    let '(t1, r1) := ptrace_peekdata (address_ s) t in
    if negb (errno r1 =? 0) then
      (s, t1, Throws (send_errno "Enabling breakpoint site failed" (errno r1)))
    else
      let data := Int.to_u64 (ret r1) in
      let s1 := with_saved_data (Int.to_u8 (Z.land data 255)) s in
      let int3 := 204 in
      let data_with_int3 := Z.lor (Z.land data (Int.to_u64 (Z.lnot 255))) int3 in
      let '(t2, r2) := ptrace_pokedata (address_ s) data_with_int3 t1 in
      if ret r2 <? 0 then
        (s1, t2, Throws (send_errno "Enabling breakpoing site failed" (errno r2)))
      else (with_is_enabled true s1, t2, Returns tt).

Definition disable : site_method := fun s t =>
  if negb (is_enabled_ s) then (s, t, Returns tt)
  else if is_hardware_ s then
    match clear_hardware_stoppoint (hardware_register_index_ s) t with
    | (t', Throws e) => (s, t', Throws e)
    | (t', Returns _) =>
        (with_is_enabled false (with_hardware_register_index (-1) s), t', Returns tt)
    end
  else
    let '(t1, r1) := ptrace_peekdata (address_ s) t in
    if negb (errno r1 =? 0) then
      (s, t1, Throws (send_errno "Disabling breakpoint site failed" (errno r1)))
    else
      let data := Int.to_u64 (ret r1) in
      let restored_data :=
        Z.lor (Z.land data (Int.to_u64 (Z.lnot 255))) (Int.to_u8 (saved_data_ s)) in
      let '(t2, r2) := ptrace_pokedata (address_ s) restored_data t1 in
      if ret r2 <? 0 then
        (s, t2, Throws (send_errno "Disabling breakpoint site failed" (errno r2)))
      else (with_is_enabled false s, t2, Returns tt).

(** One method after another, as two statements in a row: an exception thrown
    by the first leaves through the second. *)
Definition and_then (f g : site_method) : site_method := fun s t =>
  match f s t with
  | (s', t', Returns _) => g s' t'
  | (s', t', Throws e) => (s', t', Throws e)
  end.


(** ** Wait statuses

    The macros of <sys/wait.h> on an [int] status, and the status with which
    waitpid reports an event. *)
Definition to_signed_char (z : Z) : Z := (z + 2 ^ 7) mod 2 ^ 8 - 2 ^ 7.

Definition WTERMSIG (s : Z) : Z := Z.land s 127.
Definition WEXITSTATUS (s : Z) : Z := Z.shiftr (Z.land s 65280) 8.
Definition WSTOPSIG (s : Z) : Z := WEXITSTATUS s.
Definition WIFEXITED (s : Z) : bool := WTERMSIG s =? 0.
Definition WIFSIGNALED (s : Z) : bool :=
  0 <? Z.shiftr (to_signed_char (Z.land s 127 + 1)) 1.
Definition WIFSTOPPED (s : Z) : bool := Z.land s 255 =? 127.

Definition wait_status (ev : wait_event) : Z :=
  match ev with
  | Stops sig => Z.lor (Z.shiftl sig 8) 127
  | Exits code => Z.shiftl code 8
  | Killed sig core => Z.lor sig (if core then 128 else 0)
  end.


Record wait_ret := mk_wait_ret { wret : Z; werrno : Z; wstatus : Z }.

(** waitpid(pid, &status, 0). [None]: the call does not return (the tracee
    sits in a stop that was already reported, or runs for ever). *)
Definition waitpid (pid : Z) (t : tracee) : option (tracee * wait_ret) :=
  let t' := entered WAITPID t in
  match next_fault t with
  | Some e => Some (t', {| wret := -1; werrno := Z.pos e; wstatus := 0 |})
  | None =>
      match status t with
      | Gone => Some (t', {| wret := -1; werrno := ECHILD; wstatus := 0 |})
      | Traced_stop => None
      | Executing =>
          match events t with
          | [] => None
          | ev :: evs =>
              let k := match ev with Stops _ => Traced_stop | _ => Gone end in
              Some (set_status k evs t',
                    {| wret := pid; werrno := 0; wstatus := wait_status ev |})
          end
      end
  end.

(** ptrace(PTRACE_CONT, ...) and ptrace(PTRACE_SINGLESTEP, ...). *)
Definition ptrace_restart (c : kernel_call) (t : tracee) : tracee * ptrace_ret :=
  let t' := entered c t in
  match refusal t with
  | Some e => (t', {| ret := -1; errno := e |})
  | None => (set_status Executing (events t) t', {| ret := 0; errno := 0 |})
  end.





(** process_vm_readv of [amount] bytes at [addr]. *)
Definition process_vm_readv (addr : Z) (amount : nat) (t : tracee)
    : tracee * (Z + list Z) :=
  let t' := entered (PROCESS_VM_READV addr amount) t in
  match next_fault t with
  | Some e => (t', inl (Z.pos e))
  | None =>
      match status t, load_bytes (memory t) addr amount with
      | Gone, _ => (t', inl ESRCH)
      | _, Some bs => (t', inr bs)
      | _, None => (t', inl EFAULT)
      end
  end.

(** ** Watchpoints *)

(** Modelled from the spec: [sdb::watchpoint] ([watchpoint.cpp],
    [libsdb/watchpoint.hpp]) is not among the sources. The spec gives a
    watchpoint an id, an address, a mode, a size, the enabled flag, its
    hardware slot, and the previous and current data. *)
Record watchpoint := mk_watchpoint {
  wp_id_ : Z;
  wp_address_ : Z;
  wp_mode_ : stoppoint_mode;
  wp_size_ : Z;
  wp_is_enabled_ : bool;
  wp_hardware_register_index_ : Z;
  wp_data_ : list Z;
  wp_previous_data_ : list Z
}.

(** Modelled from the spec: the constructor of [sdb::watchpoint] is not among
    the sources; ids are allocated as for breakpoint sites, and a new
    watchpoint is disabled, with no data yet. *)
Definition new_watchpoint (static_id : Z) (address : Z) (mode : stoppoint_mode)
    (size : Z) : Z * watchpoint :=
  (static_id + 1,
   {| wp_id_ := static_id + 1; wp_address_ := address; wp_mode_ := mode;
      wp_size_ := size; wp_is_enabled_ := false;
      wp_hardware_register_index_ := -1; wp_data_ := []; wp_previous_data_ := [] |}).

(** Modelled from the spec: [process::read_memory] is declared in
    [libsdb/process.hpp], its body is not among the sources. The spec: it
    returns exactly the bytes asked for or fails; the one bulk read stands for
    process_vm_readv and its fallback. *)
Definition read_memory (address : Z) (amount : nat) (t : tracee)
    : tracee * result (list Z) :=
  match process_vm_readv address amount t with
  | (t', inl e) => (t', Throws (send_errno "Could not read process memory" e))
  | (t', inr bs) => (t', Returns bs)
  end.

Definition watchpoint_method : Type :=
  watchpoint -> tracee -> watchpoint * tracee * result unit.

(** Modelled from the spec: [watchpoint::enable] is not among the sources.
    The spec: as for a hardware breakpoint site, and the watched bytes are
    sampled into the current data. *)
Definition wp_enable : watchpoint_method := fun w t =>
  if wp_is_enabled_ w then (w, t, Returns tt)
  else
    match read_memory (wp_address_ w) (Z.to_nat (wp_size_ w)) t with
    | (t1, Throws e) => (w, t1, Throws e)
    | (t1, Returns bytes) =>
        match set_watchpoint (wp_id_ w) (wp_address_ w) (wp_mode_ w) (wp_size_ w) t1 with
        | (t2, Throws e) => (w, t2, Throws e)
        | (t2, Returns index) =>
            ({| wp_id_ := wp_id_ w; wp_address_ := wp_address_ w;
                wp_mode_ := wp_mode_ w; wp_size_ := wp_size_ w;
                wp_is_enabled_ := true; wp_hardware_register_index_ := index;
                wp_data_ := bytes; wp_previous_data_ := wp_previous_data_ w |},
             t2, Returns tt)
        end
    end.

(** Modelled from the spec: [watchpoint::disable] is not among the sources.
    The spec: as for a hardware breakpoint site. *)
Definition wp_disable : watchpoint_method := fun w t =>
  if negb (wp_is_enabled_ w) then (w, t, Returns tt)
  else
    match clear_hardware_stoppoint (wp_hardware_register_index_ w) t with
    | (t', Throws e) => (w, t', Throws e)
    | (t', Returns _) =>
        ({| wp_id_ := wp_id_ w; wp_address_ := wp_address_ w;
            wp_mode_ := wp_mode_ w; wp_size_ := wp_size_ w;
            wp_is_enabled_ := false; wp_hardware_register_index_ := -1;
            wp_data_ := wp_data_ w; wp_previous_data_ := wp_previous_data_ w |},
         t', Returns tt)
    end.

(** ** The process ([libsdb/process.hpp]) *)

Inductive process_state : Type := stopped | running | exited | terminated.

Record stop_reason := mk_stop_reason { reason : process_state; info : Z }.

(** The members of [sdb::process]; [tracee_] is not one of them: it is the
    tracee that [pid_] names. The register file is left out. The two
    [stoppoint_collection]s ([libsdb/stoppoint_collection.hpp] is not among
    the sources) are lists in insertion order. *)
Record process := mk_process {
  pid_ : Z;
  terminate_on_end_ : bool;
  state_ : process_state;
  is_attached_ : bool;
  breakpoint_sites_ : list breakpoint_site;
  watchpoints_ : list watchpoint;
  tracee_ : tracee
}.

(** The private constructor, with the default member initialisers of the
    class: [state_] is not in the initialiser list and starts as [stopped]. *)
Definition new_process (pid : Z) (terminate_on_end is_attached : bool)
    (t : tracee) : process :=
  {| pid_ := pid; terminate_on_end_ := terminate_on_end; state_ := stopped;
     is_attached_ := is_attached; breakpoint_sites_ := []; watchpoints_ := [];
     tracee_ := t |}.

Definition with_tracee (t : tracee) (p : process) : process :=
  {| pid_ := pid_ p; terminate_on_end_ := terminate_on_end_ p; state_ := state_ p;
     is_attached_ := is_attached_ p; breakpoint_sites_ := breakpoint_sites_ p;
     watchpoints_ := watchpoints_ p; tracee_ := t |}.

Definition with_state (st : process_state) (p : process) : process :=
  {| pid_ := pid_ p; terminate_on_end_ := terminate_on_end_ p; state_ := st;
     is_attached_ := is_attached_ p; breakpoint_sites_ := breakpoint_sites_ p;
     watchpoints_ := watchpoints_ p; tracee_ := tracee_ p |}.

Definition with_breakpoint_sites (l : list breakpoint_site) (p : process) : process :=
  {| pid_ := pid_ p; terminate_on_end_ := terminate_on_end_ p; state_ := state_ p;
     is_attached_ := is_attached_ p; breakpoint_sites_ := l;
     watchpoints_ := watchpoints_ p; tracee_ := tracee_ p |}.

Definition with_watchpoints (l : list watchpoint) (p : process) : process :=
  {| pid_ := pid_ p; terminate_on_end_ := terminate_on_end_ p; state_ := state_ p;
     is_attached_ := is_attached_ p; breakpoint_sites_ := breakpoint_sites_ p;
     watchpoints_ := l; tracee_ := tracee_ p |}.

(** *** Stop-point factories and the collections

    A site, or a watchpoint, is referred to by its position in its
    collection. *)

(** Modelled from the spec: [stoppoint_collection::contains_address]
    ([libsdb/stoppoint_collection.hpp]) is not among the sources. *)
Definition contains_address (sites : list breakpoint_site) (address : Z) : bool :=
  existsb (fun s => address_ s =? address) sites.

(** Modelled from the spec: [stoppoint_collection::contains_address], for the
    watchpoints. *)
Definition wp_contains_address (wps : list watchpoint) (address : Z) : bool :=
  existsb (fun w => wp_address_ w =? address) wps.

(** Modelled from the spec: [stoppoint_collection::get_by_id] is not among
    the sources; the first stop-point with the id, by position. *)
Definition get_by_id (sites : list breakpoint_site) (id : Z) : option nat :=
  fst <$> list_find (fun s => id_ s = id) sites.

(** Modelled from the spec: [stoppoint_collection::get_by_address] is not
    among the sources; the first stop-point at the address, by position. *)
Definition get_by_address (sites : list breakpoint_site) (address : Z) : option nat :=
  fst <$> list_find (fun s => address_ s = address) sites.

(** Modelled from the spec: [process::create_breakpoint_site] is declared in
    [libsdb/process.hpp], its body is not among the sources. The spec: a
    duplicate address fails; otherwise the site is constructed (which
    allocates its id), inserted, and a reference to it returned. The static
    counter of [get_next_id] is not a member of the process: it is threaded
    next to it. *)
Definition create_breakpoint_site (address : Z) (hardware internal : bool)
    (static_id : Z) (p : process) : Z * process * result nat :=
  if contains_address (breakpoint_sites_ p) address then
    (static_id, p, Throws (send "Breakpoint site already created at address"))
  else
    let '(static_id', s) := new_breakpoint_site static_id address hardware internal in
    (static_id',
     with_breakpoint_sites (breakpoint_sites_ p ++ [s]) p,
     Returns (length (breakpoint_sites_ p))).

(** Modelled from the spec: the sizes of a watchpoint are 1, 2, 4 and 8. *)
Definition valid_watchpoint_size (size : Z) : bool :=
  (size =? 1) || (size =? 2) || (size =? 4) || (size =? 8).

(** Modelled from the spec: [process::create_watchpoint] is declared in
    [libsdb/process.hpp], its body is not among the sources. The spec: a size
    that is none of 1, 2, 4, 8 fails; the rest is as for
    [create_breakpoint_site]. *)
Definition create_watchpoint (address : Z) (mode : stoppoint_mode) (size : Z)
    (static_id : Z) (p : process) : Z * process * result nat :=
  if negb (valid_watchpoint_size size) then
    (static_id, p, Throws (send "Invalid watchpoint size"))
  else if wp_contains_address (watchpoints_ p) address then
    (static_id, p, Throws (send "Watchpoint already created at address"))
  else
    let '(static_id', w) := new_watchpoint static_id address mode size in
    (static_id',
     with_watchpoints (watchpoints_ p ++ [w]) p,
     Returns (length (watchpoints_ p))).

(** A method called on the [i]-th site of the process, as in
    [breakpoint_sites().get_by_id(id).enable()] of [tools/sdb.cpp]: the site
    lives in the collection and the method changes it there. *)
Definition on_site (i : nat) (m : site_method) (p : process) : process * result unit :=
  match breakpoint_sites_ p !! i with
  | None => (p, Throws (send "Invalid stoppoint id"))
  | Some s =>
      let '(s', t', r) := m s (tracee_ p) in
      (with_tracee t' (with_breakpoint_sites (<[i := s']> (breakpoint_sites_ p)) p), r)
  end.

(** The same for the [j]-th watchpoint. *)
Definition on_watchpoint (j : nat) (m : watchpoint_method) (p : process)
    : process * result unit :=
  match watchpoints_ p !! j with
  | None => (p, Throws (send "Invalid stoppoint id"))
  | Some w =>
      let '(w', t', r) := m w (tracee_ p) in
      (with_tracee t' (with_watchpoints (<[j := w']> (watchpoints_ p)) p), r)
  end.

(** Modelled from the spec: [stoppoint_collection::remove_by_id] is not among
    the sources. The spec: removal disables the stop-point, then erases it. *)
Definition remove_site (i : nat) (p : process) : process * result unit :=
  match on_site i disable p with
  | (p', Throws e) => (p', Throws e)
  | (p', Returns _) =>
      (with_breakpoint_sites (delete i (breakpoint_sites_ p')) p', Returns tt)
  end.

(** Modelled from the spec: [stoppoint_collection::remove_by_id], for the
    watchpoints. *)
Definition remove_watchpoint (j : nat) (p : process) : process * result unit :=
  match on_watchpoint j wp_disable p with
  | (p', Throws e) => (p', Throws e)
  | (p', Returns _) =>
      (with_watchpoints (delete j (watchpoints_ p')) p', Returns tt)
  end.

(** Modelled from the spec: the loop body of [read_memory_without_traps],
    not among the sources: an enabled software site within the range has its
    [saved_data_] put at its offset. *)
Definition without_trap (address : Z) (amount : nat) (bytes : list Z)
    (s : breakpoint_site) : list Z :=
  if is_enabled_ s && negb (is_hardware_ s)
     && (address <=? address_ s) && (address_ s <? address + Z.of_nat amount)
  then <[Z.to_nat (address_ s - address) := saved_data_ s]> bytes
  else bytes.

(** Modelled from the spec: [process::read_memory_without_traps] is declared
    in [libsdb/process.hpp], its body is not among the sources. The spec: read
    as [read_memory], then restore [saved_data_] at the offset of every enabled
    software site within the range. *)
Definition read_memory_without_traps (address : Z) (amount : nat) (p : process)
    : tracee * result (list Z) :=
  match read_memory address amount (tracee_ p) with
  | (t', Throws e) => (t', Throws e)
  | (t', Returns bytes) =>
      (t', Returns (foldl (without_trap address amount) bytes (breakpoint_sites_ p)))
  end.

(** *** Running and waiting

    Of these members only what they do to [state_] and to the kernel is kept:
    the register file, the correction of the program counter after a trap and
    the stepping over a site are left out. *)

(** Modelled from the spec: the constructor [stop_reason(int wait_status)] is
    declared in [libsdb/process.hpp], its body is not among the sources. The
    spec: the status is decoded into exited, terminated or stopped, with the
    exit status or the signal as info. *)
Definition new_stop_reason (wait_status : Z) : option stop_reason :=
  if WIFEXITED wait_status then
    Some {| reason := exited; info := Int.to_u8 (WEXITSTATUS wait_status) |}
  else if WIFSIGNALED wait_status then
    Some {| reason := terminated; info := Int.to_u8 (WTERMSIG wait_status) |}
  else if WIFSTOPPED wait_status then
    Some {| reason := stopped; info := Int.to_u8 (WSTOPSIG wait_status) |}
  else None.

(** Modelled from the spec: [process::resume] is declared in
    [libsdb/process.hpp], its body is not among the sources. The spec: issue
    PTRACE_CONT, fail if the kernel call fails, set the state to running. *)
Definition resume (p : process) : process * result unit :=
  let '(t', r) := ptrace_restart PTRACE_CONT (tracee_ p) in
  if ret r <? 0 then (with_tracee t' p, Throws (send_errno "Could not resume" (errno r)))
  else (with_state running (with_tracee t' p), Returns tt).

(** Modelled from the spec: [process::wait_on_signal] is declared in
    [libsdb/process.hpp], its body is not among the sources. The spec: call
    waitpid, decode the status into a stop reason, update the state. [None]:
    the call does not return, or the status is none that
    waitpid(pid, &status, 0) reports. *)
Definition wait_on_signal (p : process) : option (process * result stop_reason) :=
  match waitpid (pid_ p) (tracee_ p) with
  | None => None
  | Some (t', w) =>
      if wret w <? 0 then
        Some (with_tracee t' p, Throws (send_errno "waitpid failed" (werrno w)))
      else
        match new_stop_reason (wstatus w) with
        | None => None
        | Some r => Some (with_state (reason r) (with_tracee t' p), Returns r)
        end
  end.

(** Modelled from the spec: the first half of [process::step_instruction],
    not among the sources: PTRACE_SINGLESTEP, after which the tracee runs (the
    spec's transition from stopped to running on a step). *)
Definition single_step (p : process) : process * result unit :=
  let '(t', r) := ptrace_restart PTRACE_SINGLESTEP (tracee_ p) in
  if ret r <? 0 then
    (with_tracee t' p, Throws (send_errno "Could not single step" (errno r)))
  else (with_state running (with_tracee t' p), Returns tt).

(** Modelled from the spec: [process::step_instruction] is declared in
    [libsdb/process.hpp], its body is not among the sources. The spec:
    PTRACE_SINGLESTEP, then wait; the stop reason is returned. *)
Definition step_instruction (p : process) : option (process * result stop_reason) :=
  match single_step p with
  | (p', Throws e) => Some (p', Throws e)
  | (p', Returns _) => wait_on_signal p'
  end.



(** ** A debugging session

    The statics of the program next to its process, and the calls a session
    makes. The shell ([tools/sdb.cpp], [main_loop]) catches the error of a
    call and goes on with the next. *)
Record session := mk_session {
  site_ids : Z;
  watchpoint_ids : Z;
  proc : process
}.

Inductive call : Type :=
| Create_breakpoint_site (address : Z) (hardware internal : bool)
| Enable_site (i : nat)
| Disable_site (i : nat)
| Remove_site (i : nat)
| Create_watchpoint (address : Z) (mode : stoppoint_mode) (size : Z)
| Enable_watchpoint (j : nat)
| Disable_watchpoint (j : nat)
| Remove_watchpoint (j : nat)
| Resume
| Wait_on_signal
| Step_instruction.

Definition forget {A : Type} (r : result A) : result unit :=
  match r with
  | Returns _ => Returns tt
  | Throws e => Throws e
  end.

Definition in_process (w : session) (pr : process * result unit) : session * result unit :=
  ({| site_ids := site_ids w; watchpoint_ids := watchpoint_ids w; proc := pr.1 |}, pr.2).

Definition perform (c : call) (w : session) : option (session * result unit) :=
  match c with
  | Create_breakpoint_site address hardware internal =>
      let '(ids, p, r) :=
        create_breakpoint_site address hardware internal (site_ids w) (proc w) in
      Some ({| site_ids := ids; watchpoint_ids := watchpoint_ids w; proc := p |}, forget r)
  | Enable_site i => Some (in_process w (on_site i enable (proc w)))
  | Disable_site i => Some (in_process w (on_site i disable (proc w)))
  | Remove_site i => Some (in_process w (remove_site i (proc w)))
  | Create_watchpoint address mode size =>
      let '(ids, p, r) :=
        create_watchpoint address mode size (watchpoint_ids w) (proc w) in
      Some ({| site_ids := site_ids w; watchpoint_ids := ids; proc := p |}, forget r)
  | Enable_watchpoint j => Some (in_process w (on_watchpoint j wp_enable (proc w)))
  | Disable_watchpoint j => Some (in_process w (on_watchpoint j wp_disable (proc w)))
  | Remove_watchpoint j => Some (in_process w (remove_watchpoint j (proc w)))
  | Resume => Some (in_process w (resume (proc w)))
  | Wait_on_signal =>
      match wait_on_signal (proc w) with
      | None => None
      | Some (p, r) => Some (in_process w (p, forget r))
      end
  | Step_instruction =>
      match step_instruction (proc w) with
      | None => None
      | Some (p, r) => Some (in_process w (p, forget r))
      end
  end.

Fixpoint run (cs : list call) (w : session) : option session :=
  match cs with
  | [] => Some w
  | c :: cs' =>
      match perform c w with
      | None => None
      | Some (w', _) => run cs' w'
      end
  end.

(** ** Vocabulary of the statements *)

(** The kernel lets the next [n] calls run. *)
Definition undisturbed (n : nat) (t : tracee) : Prop :=
  status t = Traced_stop /\ Forall (fun f => f = None) (take n (faults t)).

(** The tracee after a peek at [a] and a poke of the word read there with [c]
    as its low byte, the rest of the word being [bs]. *)
Definition patched (a c : Z) (bs : list Z) (t : tracee) : tracee :=
  {| memory := <[a := c]> (memory t);
     debug_regs := debug_regs t;
     status := status t; events := events t;
     faults := tail (tail (faults t));
     calls := PTRACE_POKEDATA a (Int.le_word (c :: bs)) :: PTRACE_PEEKDATA a :: calls t |}.

(** The word [enable] pokes, and the one [disable] pokes, after a peek that
    returned [r]. *)
Definition data_with_int3 (r : Z) : Z :=
  Z.lor (Z.land (Int.to_u64 r) (Int.to_u64 (Z.lnot 255))) 204.

Definition restored_data (r : Z) (s : breakpoint_site) : Z :=
  Z.lor (Z.land (Int.to_u64 r) (Int.to_u64 (Z.lnot 255))) (Int.to_u8 (saved_data_ s)).

(** The sites constructed one after another for the requests (address,
    is_hardware, is_internal), the static of [get_next_id] threaded through. *)
Fixpoint construct_all (static_id : Z) (requests : list (Z * bool * bool))
    : Z * list breakpoint_site :=
  match requests with
  | [] => (static_id, [])
  | (address, is_hardware, is_internal) :: rest =>
      let '(static_id', s) := new_breakpoint_site static_id address is_hardware is_internal in
      let '(static_id'', sites) := construct_all static_id' rest in
      (static_id'', s :: sites)
  end.

Definition visible (s : breakpoint_site) : Prop := is_internal_ s = false.

#[global] Instance visible_dec (s : breakpoint_site) : Decision (visible s).
Proof. unfold visible. apply _. Defined.

(** What a method never touches of a site. *)
Definition same_identity (s s' : breakpoint_site) : Prop :=
  id_ s' = id_ s /\ address_ s' = address_ s
  /\ is_hardware_ s' = is_hardware_ s /\ is_internal_ s' = is_internal_ s.

Definition addresses (p : process) : list Z := address_ <$> breakpoint_sites_ p.

Definition software_enabled (s : breakpoint_site) : bool :=
  is_enabled_ s && negb (is_hardware_ s).

Definition valid_memory (m : gmap Z Z) : Prop :=
  forall a b, m !! a = Some b -> Int.is_byte b.

(** The tracee's memory against [m0], its memory before any site was
    enabled: 0xCC where an enabled software site is, whose [saved_data_] is
    the byte of [m0]; the byte of [m0] everywhere else. *)
Record patched_memory (m0 : gmap Z Z) (p : process) : Prop := mk_patched_memory {
  pm_original_valid : valid_memory m0;
  pm_valid : valid_memory (memory (tracee_ p));
  pm_trapped : forall s, s ∈ breakpoint_sites_ p -> software_enabled s = true ->
    memory (tracee_ p) !! address_ s = Some 204
    /\ m0 !! address_ s = Some (saved_data_ s);
  pm_original : forall a,
    (forall s, s ∈ breakpoint_sites_ p -> software_enabled s = true -> address_ s <> a) ->
    memory (tracee_ p) !! a = m0 !! a
}.

(** The calls that create, enable, disable or remove a stop-point. *)
Definition stoppoint_call (c : call) : Prop :=
  match c with
  | Resume | Wait_on_signal | Step_instruction => False
  | _ => True
  end.

(** What a method of a site may do to the site and to memory: nothing that
    matters to the traps; or set the trap of a software site, saving the byte
    it replaces; or take it away, putting the saved byte back. *)
Definition memory_step (s s' : breakpoint_site) (m m' : gmap Z Z) : Prop :=
  (software_enabled s' = software_enabled s
   /\ (software_enabled s = true -> saved_data_ s' = saved_data_ s)
   /\ m' = m)
  \/ (software_enabled s = false /\ software_enabled s' = true
      /\ m !! address_ s = Some (saved_data_ s')
      /\ m' = <[address_ s := 204]> m)
  \/ (software_enabled s = true /\ software_enabled s' = false
      /\ m' = <[address_ s := Int.to_u8 (saved_data_ s)]> m).

(** The test of [without_trap] for a read of one byte at [a]. *)
Definition in_trap (a : Z) (s : breakpoint_site) : bool :=
  is_enabled_ s && negb (is_hardware_ s) && (a <=? address_ s) && (address_ s <? a + 1).

(** ** Debug-register slots and who owns them *)










(** DR7 after a slot is taken, and after it is released. *)
Definition control_with (control : Z) (slot : nat) (mode_flag size_flag : Z) : Z :=
  Z.lor (Z.land control (Z.lnot (clear_mask slot)))
    (Z.lor (Z.shiftl 1 (2 * Z.of_nat slot))
       (Z.lor (Z.shiftl mode_flag (4 * Z.of_nat slot + 16))
          (Z.shiftl size_flag (4 * Z.of_nat slot + 18)))).



(** ** The lifecycle of the process *)







#[global] Instance stoppoint_call_dec (c : call) : Decision (stoppoint_call c).
Proof. destruct c; cbn; apply _. Defined.

(** ** A small tracee and a session on it, for the examples *)

(** Twenty-four mapped bytes of code at 0x1000; the byte at 0x1008 is an
    int3 of the program itself. *)
Definition example_memory : gmap Z Z :=
  list_to_map
    [(4096, 85); (4097, 72); (4098, 137); (4099, 229);
     (4100, 72); (4101, 131); (4102, 236); (4103, 16);
     (4104, 204); (4105, 144); (4106, 144); (4107, 144);
     (4108, 184); (4109, 1); (4110, 0); (4111, 0);
     (4112, 0); (4113, 201); (4114, 195); (4115, 144);
     (4116, 144); (4117, 144); (4118, 144); (4119, 144)].

Definition example_tracee : tracee :=
  {| memory := example_memory; debug_regs := [0; 0; 0; 0; 0; 0; 0; 0];
     status := Traced_stop; events := []; faults := []; calls := [] |}.

(** The same tracee with a kernel that lets the next call run and fails the
    one after it with EIO. *)
Definition example_tracee_second_call_fails : tracee :=
  {| memory := example_memory; debug_regs := [0; 0; 0; 0; 0; 0; 0; 0];
     status := Traced_stop; events := []; faults := [None; Some 5%positive];
     calls := [] |}.

Definition example_site : breakpoint_site :=
  (new_breakpoint_site 0 4096 false false).2.

(** A hardware site at 0x1000. *)
Definition example_hardware_site : breakpoint_site :=
  (new_breakpoint_site 0 4096 true false).2.

Definition example_process : process := new_process 1234 true true example_tracee.



Definition example_session : session :=
  {| site_ids := 0; watchpoint_ids := 0; proc := example_process |}.

(** A software site is created at 0x1000 and enabled. *)
Definition example_trapped_session : session :=
  default example_session
    (run [Create_breakpoint_site 4096 false false; Enable_site 0] example_session).

(** A software site over the int3 at 0x1008. *)
Definition example_site_over_int3 : breakpoint_site :=
  (new_breakpoint_site 0 4104 false false).2.



(** ** The command line ([tools/sdb.cpp])

    The functions of the anonymous namespace of [tools/sdb.cpp], each up to
    the call it makes on the process: a handler is the function from its
    arguments to what it does (the help text or message it prints, the error
    it throws, the call it makes). *)
Module Shell.
Import Stdlib.Strings.Ascii.

(** [std::getline(ss, item, delimiter)] on the characters [ss] that the
    stream has left: the item, and the characters left after it. The item
    ends before the first [delimiter], which is read and dropped, or at the
    end of the stream. *)
Fixpoint getline (ss : string) (delimiter : ascii) : string * string :=
  match ss with
  | EmptyString => (EmptyString, EmptyString)
  | String c rest =>
      if bool_decide (c = delimiter) then (EmptyString, rest)
      else let '(item, ss') := getline rest delimiter in (String c item, ss')
  end.

(** The loop of [split] (lines 55-58). [std::getline] fails, which ends the
    loop, when it extracts no character: when the stream has none left.
    [fuel] bounds the number of iterations. *)
Fixpoint split_loop (fuel : nat) (ss : string) (delimiter : ascii)
    (out : list string) : list string :=
  match fuel with
  | O => out
  | S fuel' =>
      match ss with
      | EmptyString => out
      | String _ _ =>
          let '(item, ss') := getline ss delimiter in
          split_loop fuel' ss' delimiter (out ++ [item])
      end
  end.

(** Every iteration reads at least one character, so the loop has ended
    after as many iterations as [str] has characters, and one more for the
    [std::getline] that fails. *)
Definition split (str : string) (delimiter : ascii) : list string :=
  split_loop (S (String.length str)) str delimiter [].

(** The items of [str] by recursion on [str], to compare [split] with. *)
Fixpoint items (str : string) (delimiter : ascii) : list string :=
  match str with
  | EmptyString => []
  | String c rest =>
      if bool_decide (c = delimiter) then EmptyString :: items rest delimiter
      else
        match items rest delimiter with
        | [] => [String c EmptyString]
        | item :: more => String c item :: more
        end
  end.

(** [std::equal(first1, last1, first2)] with [range] between [first1] and
    [last1] and [other] from [first2] on. It reads one element of [other]
    for each of [range] until two differ; [None] is a read past the end of
    [other]. *)
Fixpoint equal (range other : string) : option bool :=
  match range with
  | EmptyString => Some true
  | String c range' =>
      match other with
      | EmptyString => None
      | String d other' =>
          if bool_decide (c = d) then equal range' other' else Some false
      end
  end.

(** [is_prefix], lines 63-70. The size test keeps [std::equal] within [of_];
    the [default] is for the read past the end that it excludes. *)
Definition is_prefix (str of_ : string) : bool :=
  if (String.length of_ <? String.length str)%nat then false
  else default false (equal str of_).

(** The texts of [print_help]. *)
Inductive help_text : Type :=
| Available_commands
| Breakpoint_commands
| Disassemble_options
| Memory_commands
| Register_commands
| Watchpoint_commands
| No_help_available.

(** The calls of the handlers on the process and its registers, with their
    arguments. [Disassemble None n] starts at [process.get_pc()]. The mode
    of [Create_watchpoint_enable] is [None] when the local [mode] of
    [handle_watchpoint_set], declared without an initialiser, has not been
    assigned. *)
Inductive process_call : Type :=
| Resume_wait_stop
| Step_stop
| Read_memory (address amount : Z)
| Write_memory (address : Z) (bytes : string)
| Read_registers (all : bool)
| Read_register (name : string)
| Write_register (name value : string)
| List_breakpoints
| Create_site_enable (address : Z) (hardware : bool)
| Site_enable (id : Z)
| Site_disable (id : Z)
| Site_remove (id : Z)
| Disassemble (address : option Z) (n_instructions : Z)
| List_watchpoints
| Create_watchpoint_enable (address : Z) (mode : option stoppoint_mode) (size : Z)
| Watchpoint_enable (id : Z)
| Watchpoint_disable (id : Z)
| Watchpoint_remove (id : Z).

(** What a handler does. [Out_of_range] is the element of [args] at an index
    that [args] does not have. *)
Inductive outcome : Type :=
| Prints_help (text : help_text)
| Prints (message : string)
| Throws_error (e : error)
| Calls (c : process_call)
| Does_nothing
| Out_of_range.

(** [print_help], lines 104-167. *)
Definition print_help (args : list string) : outcome :=
  match args with
  | [_] => Prints_help Available_commands
  | _ :: topic :: _ =>
      if is_prefix topic "breakpoint" then Prints_help Breakpoint_commands
      else if is_prefix topic "disassemble" then Prints_help Disassemble_options
      else if is_prefix topic "memory" then Prints_help Memory_commands
      else if is_prefix topic "register" then Prints_help Register_commands
      else if is_prefix topic "watchpoint" then Prints_help Watchpoint_commands
      else Prints_help No_help_available
  | [] => Out_of_range
  end.

(** The C++ [int] that a [std::size_t] converts to: the low 32 bits, as the
    compilers for x86-64 Linux have it. *)
Definition to_int (z : Z) : Z := (z + 2 ^ 31) mod 2 ^ 32 - 2 ^ 31.

(** The rows of [handle_memory_read_command] (lines 408-414): the address
    printed and the bytes of [data] from [i] to [min (i + 16) data.size()],
    for [i] from 0 in steps of 16. *)
Fixpoint memory_rows_loop (fuel : nat) (address : Z) (data : list Z) (i : nat)
    : list (Z * list Z) :=
  match fuel with
  | O => []
  | S fuel' =>
      if (i <? length data)%nat then
        let start := i in
        let end_ := ((i + 16) `min` length data)%nat in
        (Int.to_u64 (address + Z.of_nat i), take (end_ - start)%nat (drop start data))
          :: memory_rows_loop fuel' address data (i + 16)%nat
      else []
  end.

Definition memory_rows (address : Z) (data : list Z) : list (Z * list Z) :=
  memory_rows_loop (S (length data)) address data 0.

(** The instances of [sdb::to_integral<T>] that the handlers use. *)
Inductive integral : Type := uint64_t | size_t | id_type.

(** The lines that [handle_command] is given by [main_loop], lines 656-689,
    for the lines that [readline] returns one after another: an empty line
    stands for the last line of the history and is not added to it. *)
Definition main_loop_line (line : string) (history : list string)
    : list string * option string :=
  let '(history', line_str) :=
    if bool_decide (line = EmptyString) then
      match last history with
      | Some entry => (history, entry)
      | None => (history, EmptyString)
      end
    else (history ++ [line], line) in
  (history', if bool_decide (line_str = EmptyString) then None else Some line_str).

Fixpoint main_loop (lines : list string) (history : list string) : list string :=
  match lines with
  | [] => []
  | line :: lines' =>
      let '(history', handled) := main_loop_line line history in
      option_list handled ++ main_loop lines' history'
  end.

Section handlers.

(** [libsdb/parse.hpp] is not among the sources: [sdb::to_integral<T>(text,
    base)] is a parameter, the number that [text] parses to or nothing. *)
Variable to_integral : integral -> string -> Z -> option Z.

(** [handle_register_read], lines 169-219, up to the registers read. *)
Definition handle_register_read (args : list string) : outcome :=
  match args with
  | [_; _] => Calls (Read_registers false)
  | [_; _; arg2] =>
      if bool_decide (arg2 = "all") then Calls (Read_registers true)
      else Calls (Read_register arg2)
  | _ => print_help ["help"; "register"]
  end.

(** [handle_register_write], lines 261-279, up to the register written. *)
Definition handle_register_write (args : list string) : outcome :=
  match args with
  | [_; _; arg2; arg3] => Calls (Write_register arg2 arg3)
  | _ => print_help ["help"; "register"]
  end.

(** [handle_register_command], lines 281-301. *)
Definition handle_register_command (args : list string) : outcome :=
  match args with
  | [] | [_] => print_help ["help"; "register"]
  | _ :: arg1 :: _ =>
      if is_prefix arg1 "read" then handle_register_read args
      else if is_prefix arg1 "write" then handle_register_write args
      else print_help ["help"; "register"]
  end.

(** [handle_breakpoint_command], lines 303-386. *)
Definition handle_breakpoint_command (args : list string) : outcome :=
  match args with
  | [] | [_] => print_help ["help"; "breakpoint"]
  | _ :: command :: rest =>
      if is_prefix command "list" then Calls List_breakpoints
      else
        match rest with
        | [] => print_help ["help"; "breakpoint"]
        | arg2 :: rest' =>
            if is_prefix command "set" then
              match to_integral uint64_t arg2 16 with
              | None =>
                  Prints "Breakpoint command expects addres in hexadecimal, prefixed with '0x'"
              | Some address =>
                  match rest' with
                  | [arg3] =>
                      if bool_decide (arg3 = "-h") then Calls (Create_site_enable address true)
                      else Throws_error (send "Invalid breakpoint command argument")
                  | _ => Calls (Create_site_enable address false)
                  end
              end
            else
              match to_integral id_type arg2 10 with
              | None => Prints "Command expects breakpoint id"
              | Some id =>
                  if is_prefix command "enable" then Calls (Site_enable id)
                  else if is_prefix command "disable" then Calls (Site_disable id)
                  else if is_prefix command "delete" then Calls (Site_remove id)
                  else Does_nothing
              end
        end
  end.

(** [handle_memory_read_command], lines 388-415, up to the read; the rows it
    prints of the bytes read are [memory_rows]. [n_bytes] is an [int]
    ([auto n_bytes = 32]), the number parsed a [std::size_t], and the amount
    that [read_memory] takes a [std::size_t] again. *)
Definition handle_memory_read_command (args : list string) : outcome :=
  match args with
  | _ :: _ :: arg2 :: rest =>
      match to_integral uint64_t arg2 16 with
      | None => Throws_error (send "Invalid address format")
      | Some address =>
          let n_bytes := 32 in
          match rest with
          | [arg3] =>
              match to_integral size_t arg3 10 with
              | None => Throws_error (send "Invalid number of bytes")
              | Some bytes_arg =>
                  let n_bytes := to_int bytes_arg in
                  Calls (Read_memory address (Int.to_u64 n_bytes))
              end
          | _ => Calls (Read_memory address (Int.to_u64 n_bytes))
          end
      end
  | _ => Out_of_range
  end.

(** [handle_memory_write_command], lines 417-433; [sdb::parse_vector] is not
    among the sources, the bytes are kept as their text. *)
Definition handle_memory_write_command (args : list string) : outcome :=
  match args with
  | [_; _; arg2; arg3] =>
      match to_integral uint64_t arg2 16 with
      | None => Throws_error (send "Invalid address format")
      | Some address => Calls (Write_memory address arg3)
      end
  | _ => print_help ["help"; "memory"]
  end.

(** [handle_memory_command], lines 435-454. *)
Definition handle_memory_command (args : list string) : outcome :=
  match args with
  | [] | [_] | [_; _] => print_help ["help"; "memory"]
  | _ :: arg1 :: _ =>
      if is_prefix arg1 "read" then handle_memory_read_command args
      else if is_prefix arg1 "write" then handle_memory_write_command args
      else print_help ["help"; "memory"]
  end.

(** The loop of [handle_disassemble_command] (lines 462-489) from the
    iterator [it] on: an option applies when an argument follows it. *)
Fixpoint disassemble_options (it : list string) (address : option Z)
    (n_instructions : Z) : outcome :=
  match it with
  | [] => Calls (Disassemble address n_instructions)
  | flag :: following =>
      match following with
      | value :: it' =>
          if bool_decide (flag = "-a") then
            match to_integral uint64_t value 16 with
            | None => Throws_error (send "Invalid address format")
            | Some opt_addr => disassemble_options it' (Some opt_addr) n_instructions
            end
          else if bool_decide (flag = "-c") then
            match to_integral size_t value 10 with
            | None => Throws_error (send "Invalid instruction count")
            | Some opt_n => disassemble_options it' address opt_n
            end
          else print_help ["help"; "disassemble"]
      | [] => print_help ["help"; "disassemble"]
      end
  end.

(** [handle_disassemble_command], lines 456-492. *)
Definition handle_disassemble_command (args : list string) : outcome :=
  match args with
  | _ :: it => disassemble_options it None 5
  | [] => Out_of_range
  end.

(** [handle_watchpoint_set], lines 524-559. *)
Definition handle_watchpoint_set (args : list string) : outcome :=
  match args with
  | [_; _; arg2; mode_text; arg4] =>
      match to_integral uint64_t arg2 16, to_integral size_t arg4 10 with
      | Some address, Some size =>
          if negb (bool_decide (mode_text = "write")
                   || bool_decide (mode_text = "rw")
                   || bool_decide (mode_text = "execute"))
          then print_help ["help"; "watchpoint"]
          else
            let mode :=
              if bool_decide (mode_text = "write") then Some write
              else if bool_decide (mode_text = "rw") then Some read_write
              else if bool_decide (mode_text = "execute") then Some execute
              else None in
            Calls (Create_watchpoint_enable address mode size)
      | _, _ => print_help ["help"; "watchpoint"]
      end
  | _ => print_help ["help"; "watchpoint"]
  end.

(** [handle_watchpoint_command], lines 561-608. *)
Definition handle_watchpoint_command (args : list string) : outcome :=
  match args with
  | [] | [_] => print_help ["help"; "watchpoint"]
  | _ :: command :: rest =>
      if is_prefix command "list" then Calls List_watchpoints
      else if is_prefix command "set" then handle_watchpoint_set args
      else
        match rest with
        | [] => print_help ["help"; "watchpoint"]
        | arg2 :: _ =>
            match to_integral id_type arg2 10 with
            | None => Prints "Command expects watchpoint id"
            | Some id =>
                if is_prefix command "enable" then Calls (Watchpoint_enable id)
                else if is_prefix command "disable" then Calls (Watchpoint_disable id)
                else if is_prefix command "delete" then Calls (Watchpoint_remove id)
                else Does_nothing
            end
        end
  end.

(** [handle_command], lines 610-654. *)
Definition handle_command (line : string) : outcome :=
  let args := split line " " in
  match args with
  | [] => Out_of_range
  | command :: _ =>
      if is_prefix command "continue" then Calls Resume_wait_stop
      else if is_prefix command "memory" then handle_memory_command args
      else if is_prefix command "register" then handle_register_command args
      else if is_prefix command "breakpoint" then handle_breakpoint_command args
      else if is_prefix command "step" then Calls Step_stop
      else if is_prefix command "disassemble" then handle_disassemble_command args
      else if is_prefix command "watchpoint" then handle_watchpoint_command args
      else if is_prefix command "help" then print_help args
      else Prints "Unknown command"
  end.

End handlers.

(** A parser for the examples: digits of the base, after [0x] when the base
    is 16. *)
Definition example_digit (c : ascii) : option Z :=
  let n := Z.of_nat (nat_of_ascii c) in
  if (48 <=? n) && (n <=? 57) then Some (n - 48)
  else if (97 <=? n) && (n <=? 102) then Some (n - 87)
  else None.

Fixpoint example_digits (base : Z) (text : string) (acc : Z) : option Z :=
  match text with
  | EmptyString => Some acc
  | String c rest =>
      match example_digit c with
      | Some d => if d <? base then example_digits base rest (base * acc + d) else None
      | None => None
      end
  end.

Definition example_to_integral (T : integral) (text : string) (base : Z) : option Z :=
  let digits :=
    if base =? 16 then
      match text with
      | String "0"%char (String "x"%char rest) => Some rest
      | _ => None
      end
    else Some text in
  match digits with
  | Some (String c rest) => example_digits base (String c rest) 0
  | _ => None
  end.

End Shell.

(** ** Vocabulary of the further statements *)

(** Between [t] and [t'] no byte of the tracee has changed except, possibly,
    the one at [a]; the same addresses are mapped and the debug registers
    are the same. *)
Definition one_byte_changed (a : Z) (t t' : tracee) : Prop :=
  (forall a', a' <> a -> memory t' !! a' = memory t !! a')
  /\ dom (memory t') = dom (memory t)
  /\ valid_memory (memory t')
  /\ debug_regs t' = debug_regs t.

(** The kernel calls of a method of a software site at [a] that found the
    calls [cs] made: none; a peek; or a peek and a poke of a word whose low
    byte is [c]. *)
Definition software_calls (a c : Z) (cs cs' : list kernel_call) (r : result unit) : Prop :=
  cs' = cs
  \/ (cs' = PTRACE_PEEKDATA a :: cs /\ exists e, r = Throws e)
  \/ (exists w, cs' = PTRACE_POKEDATA a w :: PTRACE_PEEKDATA a :: cs
                /\ Z.land w 255 = c /\ 0 <= w < 2 ^ 64).

(** The commands of [handle_command], in the order of its tests. *)
Definition commands : list string :=
  ["continue"; "memory"; "register"; "breakpoint"; "step"; "disassemble";
   "watchpoint"; "help"].

(** The topics of [print_help], in the order of its tests. *)
Definition help_topics : list string :=
  ["breakpoint"; "disassemble"; "memory"; "register"; "watchpoint"].

(** The subcommands of [handle_breakpoint_command] and of
    [handle_watchpoint_command]. *)
Definition stoppoint_subcommands : list string :=
  ["list"; "set"; "enable"; "disable"; "delete"].

(** ** Examples for the further statements *)

(** A second software site at 0x1000. *)
Definition example_second_site : breakpoint_site :=
  (new_breakpoint_site 1 4096 false false).2.
(** * Properties *)

(** ** Words and bytes *)
Section words.
Import Int.

Lemma land_byte_shiftl (b r : Z) : is_byte b -> Z.land b (Z.shiftl r 8) = 0.
Proof.
  intros [Hb0 Hb1]. apply Z.bits_inj'. intros n Hn.
  rewrite Z.land_spec, Z.bits_0.
  destruct (Z.lt_ge_cases n 8) as [Hlt | Hge].
  - rewrite (Z.shiftl_spec_low r 8 n Hlt). apply andb_false_r.
  - destruct (Z.eq_dec b 0) as [-> | Hne]; [by rewrite Z.bits_0|].
    rewrite (Z.bits_above_log2 b n); [done | lia |].
    apply Z.log2_lt_pow2; [lia|].
    apply Z.lt_le_trans with (2 ^ 8); [simpl; lia|].
    apply Z.pow_le_mono_r; lia.
Qed.

Lemma lor_byte_shiftl (b r : Z) :
  is_byte b -> Z.lor b (Z.shiftl r 8) = b + 256 * r.
Proof.
  intros Hb.
  rewrite <- Z.lxor_lor by (by apply land_byte_shiftl).
  rewrite <- Z.add_nocarry_lxor by (by apply land_byte_shiftl).
  rewrite Z.shiftl_mul_pow2 by lia. change (2 ^ 8) with 256. lia.
Qed.

Lemma le_word_cons (b : Z) (bs : list Z) :
  is_byte b -> le_word (b :: bs) = b + 256 * le_word bs.
Proof. intros Hb. simpl. by apply lor_byte_shiftl. Qed.

Lemma le_word_range (bs : list Z) :
  Forall is_byte bs -> 0 <= le_word bs < 2 ^ (8 * Z.of_nat (length bs)).
Proof.
  induction 1 as [| b bs Hb Hbs IH].
  - simpl. lia.
  - rewrite le_word_cons by done.
    replace (8 * Z.of_nat (length (b :: bs))) with (8 + 8 * Z.of_nat (length bs))
      by (simpl length; lia).
    rewrite Z.pow_add_r by lia. change (2 ^ 8) with 256.
    unfold is_byte in Hb. nia.
Qed.

Lemma le_word_u64 (bs : list Z) :
  Forall is_byte bs -> length bs = 8%nat -> is_u64 (le_word bs).
Proof.
  intros Hbs Hlen. pose proof (le_word_range bs Hbs) as H.
  rewrite Hlen in H. exact H.
Qed.

Lemma le_bytes_le_word (bs : list Z) :
  Forall is_byte bs -> le_bytes (length bs) (le_word bs) = bs.
Proof.
  induction 1 as [| b bs Hb Hbs IH]; [done|].
  pose proof (le_word_range bs Hbs) as Hr.
  rewrite le_word_cons by done. simpl le_bytes. f_equal.
  - change 255 with (Z.ones 8). rewrite Z.land_ones by lia.
    change (2 ^ 8) with 256. unfold is_byte in Hb.
    replace (b + 256 * le_word bs) with (b + le_word bs * 256) by lia.
    rewrite Z.mod_add by lia. apply Z.mod_small; lia.
  - rewrite Z.shiftr_div_pow2 by lia. change (2 ^ 8) with 256.
    unfold is_byte in Hb.
    replace (b + 256 * le_word bs) with (b + le_word bs * 256) by lia.
    rewrite Z.div_add by lia. rewrite Z.div_small by lia. exact IH.
Qed.

Lemma to_u64_to_i64 (w : Z) : is_u64 w -> to_u64 (to_i64 w) = w.
Proof.
  intros Hw. unfold to_u64, to_i64, is_u64 in *.
  rewrite Zminus_mod_idemp_l.
  replace (w + 2 ^ 63 - 2 ^ 63) with w by lia. apply Z.mod_small; lia.
Qed.

(** [data & ~0xff]: the [int] -256 becomes 2^64 - 256 in the conversion to
    [std::uint64_t], so the mask keeps bits 8..63. *)
Lemma land_not_ff (w : Z) :
  is_u64 w -> Z.land w (to_u64 (Z.lnot 255)) = 256 * (w / 256).
Proof.
  intros [Hw0 Hw1].
  change (to_u64 (Z.lnot 255)) with (Z.shiftl (Z.ones 56) 8).
  replace (256 * (w / 256)) with (Z.shiftl (Z.shiftr w 8) 8)
    by (rewrite Z.shiftl_mul_pow2, Z.shiftr_div_pow2 by lia;
        change (2 ^ 8) with 256; lia).
  apply Z.bits_inj'. intros n Hn. rewrite Z.land_spec.
  destruct (Z.lt_ge_cases n 8) as [Hlt | Hge].
  - rewrite !Z.shiftl_spec_low by done. apply andb_false_r.
  - rewrite !Z.shiftl_spec by done. rewrite Z.shiftr_spec by lia.
    replace (n - 8 + 8) with n by lia.
    destruct (Z.lt_ge_cases n 64) as [Hlt' | Hge'].
    + rewrite Z.ones_spec_low by lia. apply andb_true_r.
    + rewrite Z.ones_spec_high by lia. rewrite andb_false_r.
      destruct (Z.eq_dec w 0) as [-> | Hne]; [by rewrite Z.bits_0|].
      rewrite Z.bits_above_log2; [done | lia |].
      apply Z.log2_lt_pow2; [lia|].
      apply Z.lt_le_trans with (2 ^ 64); [done|].
      apply Z.pow_le_mono_r; lia.
Qed.

(** The word with its low byte replaced. *)
Lemma splice_low_byte (b c : Z) (bs : list Z) :
  is_byte b -> is_byte c -> Forall is_byte bs -> length bs = 7%nat ->
  Z.lor (Z.land (le_word (b :: bs)) (to_u64 (Z.lnot 255))) c = le_word (c :: bs).
Proof.
  intros Hb Hc Hbs Hlen.
  assert (Hw : is_u64 (le_word (b :: bs))).
  { apply le_word_u64; [by constructor | simpl; lia]. }
  rewrite land_not_ff by done.
  pose proof (le_word_range bs Hbs) as Hr.
  rewrite !le_word_cons by done.
  unfold is_byte in Hb.
  replace (b + 256 * le_word bs) with (b + le_word bs * 256) by lia.
  rewrite Z.div_add by lia. rewrite Z.div_small by lia. rewrite Z.add_0_l.
  change 256 with (2 ^ 8) at 1.
  rewrite Z.mul_comm, <- Z.shiftl_mul_pow2 by lia.
  rewrite Z.lor_comm, lor_byte_shiftl by done. done.
Qed.

Lemma low_byte (b : Z) (bs : list Z) :
  is_byte b -> Forall is_byte bs ->
  to_u8 (Z.land (le_word (b :: bs)) 255) = b.
Proof.
  intros Hb Hbs. pose proof (le_bytes_le_word (b :: bs)) as H.
  simpl length in H. cbn [le_bytes] in H.
  assert (Hl : Z.land (le_word (b :: bs)) 255 = b).
  { specialize (H ltac:(by constructor)). by injection H. }
  rewrite Hl. unfold to_u8, is_byte in *. apply Z.mod_small. simpl; lia.
Qed.

End words.

(** ** Tracee memory *)
Section tracee_memory.
Import Int.

Lemma load_bytes_length (m : gmap Z Z) (a : Z) (n : nat) (bs : list Z) :
  load_bytes m a n = Some bs -> length bs = n.
Proof.
  revert a bs. induction n as [| n IH]; intros a bs; simpl.
  - by intros [= <-].
  - destruct (m !! a) as [b |]; [| done].
    destruct (load_bytes m (a + 1) n) as [bs' |] eqn:E; [| done].
    intros [= <-]. simpl. f_equal. by eapply IH.
Qed.

Lemma load_bytes_insert_outside (m : gmap Z Z) (a a' c : Z) (n : nat) :
  a' < a \/ a + Z.of_nat n <= a' ->
  load_bytes (<[a' := c]> m) a n = load_bytes m a n.
Proof.
  revert a. induction n as [| n IH]; intros a Hout; [done|].
  simpl. rewrite lookup_insert_ne by lia. rewrite IH by lia. done.
Qed.

(** Storing back what is there changes nothing. *)
Lemma store_bytes_loaded (m : gmap Z Z) (a : Z) (bs : list Z) :
  load_bytes m a (length bs) = Some bs -> store_bytes m a bs = m.
Proof.
  revert m a. induction bs as [| b bs IH]; intros m a; [done|].
  simpl. destruct (m !! a) as [b' |] eqn:Ea; [| done].
  destruct (load_bytes m (a + 1) (length bs)) as [bs' |] eqn:E; [| done].
  intros [= -> ->]. rewrite insert_id by done. by apply IH.
Qed.

(** Storing a word that differs from the one in memory in its low byte only
    changes that byte only. *)
Lemma store_bytes_low_byte (m : gmap Z Z) (a b c : Z) (bs : list Z) :
  load_bytes m a (S (length bs)) = Some (b :: bs) ->
  store_bytes m a (c :: bs) = <[a := c]> m.
Proof.
  simpl. destruct (m !! a) as [b' |] eqn:Ea; [| done].
  destruct (load_bytes m (a + 1) (length bs)) as [bs' |] eqn:E; [| done].
  intros [= -> ->]. apply store_bytes_loaded.
  rewrite load_bytes_insert_outside by lia. done.
Qed.

Lemma load_bytes_head (m : gmap Z Z) (a b : Z) (n : nat) (bs : list Z) :
  load_bytes m a n = Some (b :: bs) -> m !! a = Some b.
Proof.
  destruct n as [| n]; simpl; [done|].
  destruct (m !! a) as [b' |]; [| done].
  destruct (load_bytes m (a + 1) n); [| done]. by intros [= -> _].
Qed.

Lemma load_bytes_insert_head (m : gmap Z Z) (a b c : Z) (n : nat) (bs : list Z) :
  load_bytes m a n = Some (b :: bs) ->
  load_bytes (<[a := c]> m) a n = Some (c :: bs).
Proof.
  destruct n as [| n]; simpl; [done|].
  destruct (m !! a) as [b' |]; [| done].
  destruct (load_bytes m (a + 1) n) as [bs' |] eqn:E; [| done].
  intros [= -> ->]. rewrite lookup_insert_eq.
  rewrite load_bytes_insert_outside by lia. by rewrite E.
Qed.

End tracee_memory.

(** ** The two kernel calls of the software path *)
Section software_path.
Import Int.


Lemma refusal_not_0 (t : tracee) (e : Z) : refusal t = Some e -> e <> 0.
Proof.
  unfold refusal. destruct (next_fault t); [by intros [= <-]|].
  destruct (status t); [done | by intros [= <-].. ].
Qed.

Lemma undisturbed_next (n : nat) (t : tracee) :
  undisturbed (S n) t -> refusal t = None.
Proof.
  unfold undisturbed, refusal, next_fault. intros [-> H].
  destruct (faults t) as [| f fs]; [done|].
  simpl in *. by apply Forall_cons in H as [-> _].
Qed.

Lemma undisturbed_entered (n : nat) (c : kernel_call) (t : tracee) :
  undisturbed (S n) t -> undisturbed n (entered c t).
Proof.
  unfold undisturbed. simpl. intros [Hs H]. split; [done|].
  destruct (faults t) as [| f fs]; simpl in *.
  - by rewrite take_nil.
  - by apply Forall_cons in H as [_ H].
Qed.

Lemma peek_ok (t : tracee) (a : Z) (bs : list Z) :
  refusal t = None -> load_bytes (memory t) a 8 = Some bs ->
  Forall is_byte bs ->
  ptrace_peekdata a t =
    (entered (PTRACE_PEEKDATA a) t, {| ret := to_i64 (le_word bs); errno := 0 |}).
Proof. intros Hf Hl _. unfold ptrace_peekdata. by rewrite Hf, Hl. Qed.

Lemma poke_ok (t : tracee) (a w : Z) (bs : list Z) :
  refusal t = None -> load_bytes (memory t) a 8 = Some bs ->
  ptrace_pokedata a w t =
    (set_memory (store_bytes (memory t) a (le_bytes 8 w))
       (entered (PTRACE_POKEDATA a w) t), {| ret := 0; errno := 0 |}).
Proof. intros Hf Hl. unfold ptrace_pokedata. by rewrite Hf, Hl. Qed.

(** Peek the word [b :: bs], poke it back with [c] as its low byte. *)
Lemma peek_splice_poke (t : tracee) (a b c : Z) (bs : list Z) :
  undisturbed 2 t ->
  load_bytes (memory t) a 8 = Some (b :: bs) ->
  Forall is_byte (b :: bs) -> is_byte c ->
  let data := to_u64 (ret (ptrace_peekdata a t).2) in
  let data' := Z.lor (Z.land data (to_u64 (Z.lnot 255))) c in
  data = le_word (b :: bs) /\
  data' = le_word (c :: bs) /\
  ptrace_pokedata a data' (ptrace_peekdata a t).1 =
    ({| memory := <[a := c]> (memory t);
        debug_regs := debug_regs t;
        status := status t; events := events t;
        faults := tail (tail (faults t));
        calls := PTRACE_POKEDATA a (le_word (c :: bs)) :: PTRACE_PEEKDATA a :: calls t |},
     {| ret := 0; errno := 0 |}).
Proof.
  intros Hq Hl Hbs Hc.
  pose proof (load_bytes_length _ _ _ _ Hl) as Hlen. simpl in Hlen.
  apply Forall_cons in Hbs as Hbs'. destruct Hbs' as [Hb Htl].
  rewrite (peek_ok t a (b :: bs)) by eauto using undisturbed_next.
  cbn [fst snd ret].
  rewrite to_u64_to_i64 by (apply le_word_u64; [done | simpl; lia]).
  rewrite splice_low_byte by (done || lia).
  split; [done|]. split; [done|].
  rewrite (poke_ok _ _ _ (b :: bs)).
  - assert (Hby : le_bytes 8 (le_word (c :: bs)) = c :: bs).
    { replace 8%nat with (length (c :: bs)) by (simpl; lia).
      apply le_bytes_le_word. by constructor. }
    cbn [entered memory]. rewrite Hby.
    rewrite (store_bytes_low_byte _ _ b) by (by replace (S (length bs)) with 8%nat by lia).
    done.
  - apply (undisturbed_next 0). by apply undisturbed_entered.
  - done.
Qed.

End software_path.

(** ** Software sites: what [enable] and [disable] do to the tracee *)


Lemma enable_software_ok (s : breakpoint_site) (t : tracee) (b : Z) (bs : list Z) :
  is_enabled_ s = false -> is_hardware_ s = false ->
  undisturbed 2 t ->
  load_bytes (memory t) (address_ s) 8 = Some (b :: bs) ->
  Forall Int.is_byte (b :: bs) ->
  enable s t =
    (with_is_enabled true (with_saved_data b s), patched (address_ s) 204 bs t, Returns tt).
Proof.
  intros He Hh Hq Hl Hbs.
  destruct (peek_splice_poke t (address_ s) b 204 bs Hq Hl Hbs) as (Hd & _ & Hp);
    [unfold Int.is_byte; lia|].
  unfold enable. rewrite He, Hh.
  rewrite (peek_ok t (address_ s) (b :: bs)) in * by eauto using undisturbed_next.
  cbn [fst snd ret errno] in *. cbn [Z.eqb negb].
  rewrite Hp. cbn [ret Z.ltb Z.compare]. rewrite Hd.
  apply Forall_cons in Hbs as [Hb Htl]. by rewrite low_byte.
Qed.

Lemma disable_software_ok (s : breakpoint_site) (t : tracee) (b : Z) (bs : list Z) :
  is_enabled_ s = true -> is_hardware_ s = false ->
  undisturbed 2 t ->
  load_bytes (memory t) (address_ s) 8 = Some (b :: bs) ->
  Forall Int.is_byte (b :: bs) ->
  Int.is_byte (saved_data_ s) ->
  disable s t =
    (with_is_enabled false s, patched (address_ s) (saved_data_ s) bs t, Returns tt).
Proof.
  intros He Hh Hq Hl Hbs Hsv.
  destruct (peek_splice_poke t (address_ s) b (saved_data_ s) bs Hq Hl Hbs Hsv)
    as (_ & _ & Hp).
  unfold disable. rewrite He, Hh.
  rewrite (peek_ok t (address_ s) (b :: bs)) in * by eauto using undisturbed_next.
  cbn [fst snd ret errno] in *. cbn [Z.eqb negb].
  replace (Int.to_u8 (saved_data_ s)) with (saved_data_ s)
    by (unfold Int.to_u8, Int.is_byte in *; symmetry; apply Z.mod_small; simpl; lia).
  by rewrite Hp.
Qed.

(** C1. For a software site whose address holds the word [b :: bs] (low byte
    first) and a kernel that lets the two calls run: [enable] peeks that word,
    saves [b], and pokes the word [0xCC :: bs], after which memory differs at
    the site's address only; [disable] of the enabled site peeks the word and
    pokes [saved_data_ :: bs]. The words poked have the upper seven bytes of
    the word read. *)
Theorem software_site_splices_low_byte
    (s : breakpoint_site) (t : tracee) (b : Z) (bs : list Z) :
  is_hardware_ s = false ->
  undisturbed 2 t ->
  load_bytes (memory t) (address_ s) 8 = Some (b :: bs) ->
  Forall Int.is_byte (b :: bs) ->
  (is_enabled_ s = false ->
     enable s t =
       (with_is_enabled true (with_saved_data (Z.land (Int.le_word (b :: bs)) 255) s),
        patched (address_ s) 204 bs t, Returns tt))
  /\ (is_enabled_ s = true -> Int.is_byte (saved_data_ s) ->
     disable s t =
       (with_is_enabled false s, patched (address_ s) (saved_data_ s) bs t, Returns tt))
  /\ Int.le_bytes 8 (Int.le_word (b :: bs)) = b :: bs
  /\ (forall c, Int.is_byte c -> Int.le_bytes 8 (Int.le_word (c :: bs)) = c :: bs).
Proof.
  intros Hh Hq Hl Hbs.
  pose proof (load_bytes_length _ _ _ _ Hl) as Hlen.
  assert (Hbytes : forall c, Int.is_byte c ->
            Int.le_bytes 8 (Int.le_word (c :: bs)) = c :: bs).
  { intros c Hc. replace 8%nat with (length (c :: bs)) by (simpl in *; lia).
    apply le_bytes_le_word.
    apply Forall_cons in Hbs as [_ Htl]. by constructor. }
  apply Forall_cons in Hbs as Hbs'. destruct Hbs' as [Hb Htl].
  assert (Hlow : Z.land (Int.le_word (b :: bs)) 255 = b).
  { pose proof (Hbytes b Hb) as H. cbn [Int.le_bytes] in H. by injection H. }
  repeat split.
  - intros He. rewrite Hlow. by apply enable_software_ok.
  - intros He Hsv. by apply (disable_software_ok s t b).
  - by apply Hbytes.
  - exact Hbytes.
Qed.

(** ** Failing kernel calls *)
Section failures.
Import Int.

Lemma peek_keeps_state (a : Z) (t : tracee) :
  memory (ptrace_peekdata a t).1 = memory t
  /\ debug_regs (ptrace_peekdata a t).1 = debug_regs t
  /\ calls (ptrace_peekdata a t).1 = PTRACE_PEEKDATA a :: calls t.
Proof.
  unfold ptrace_peekdata.
  destruct (refusal t); [done|]. by destruct (load_bytes _ _ _).
Qed.

Lemma poke_failure (a w : Z) (t : tracee) :
  ret (ptrace_pokedata a w t).2 < 0 ->
  errno (ptrace_pokedata a w t).2 <> 0
  /\ memory (ptrace_pokedata a w t).1 = memory t
  /\ debug_regs (ptrace_pokedata a w t).1 = debug_regs t.
Proof.
  unfold ptrace_pokedata.
  destruct (refusal t) as [e |] eqn:E; [by apply refusal_not_0 in E|].
  destruct (load_bytes _ _ _); cbn [fst snd ret errno]; [lia | done].
Qed.

Lemma poke_calls (a w : Z) (t : tracee) :
  calls (ptrace_pokedata a w t).1 = PTRACE_POKEDATA a w :: calls t.
Proof.
  unfold ptrace_pokedata. destruct (refusal t); [done|].
  by destruct (load_bytes _ _ _).
Qed.

Lemma pokeuser_failure (i : nat) (w : Z) (t : tracee) :
  ret (ptrace_pokeuser i w t).2 < 0 ->
  errno (ptrace_pokeuser i w t).2 <> 0
  /\ memory (ptrace_pokeuser i w t).1 = memory t
  /\ debug_regs (ptrace_pokeuser i w t).1 = debug_regs t.
Proof.
  unfold ptrace_pokeuser.
  destruct (refusal t) as [e |] eqn:E; cbn [fst snd ret errno];
    [by apply refusal_not_0 in E | lia].
Qed.

End failures.


Lemma enable_returns_enabled (s s' : breakpoint_site) (t t' : tracee) (u : unit) :
  enable s t = (s', t', Returns u) -> is_enabled_ s' = true.
Proof.
  unfold enable. destruct (is_enabled_ s) eqn:He; [by intros [= <- _]|].
  destruct (is_hardware_ s).
  - destruct (set_hardware_breakpoint _ _ _) as [t1 [i | e]]; [| done].
    by intros [= <- _].
  - destruct (ptrace_peekdata _ _) as [t1 r1].
    destruct (negb (errno r1 =? 0)); [done|].
    destruct (ptrace_pokedata _ _ _) as [t2 r2].
    destruct (ret r2 <? 0); [done|]. by intros [= <- _].
Qed.

Lemma disable_returns_disabled (s s' : breakpoint_site) (t t' : tracee) (u : unit) :
  disable s t = (s', t', Returns u) -> is_enabled_ s' = false.
Proof.
  unfold disable. destruct (is_enabled_ s) eqn:He; [| by intros [= <- _]].
  cbn [negb]. destruct (is_hardware_ s).
  - destruct (clear_hardware_stoppoint _ _) as [t1 [i | e]]; [| done].
    by intros [= <- _].
  - destruct (ptrace_peekdata _ _) as [t1 r1].
    destruct (negb (errno r1 =? 0)); [done|].
    destruct (ptrace_pokedata _ _ _) as [t2 r2].
    destruct (ret r2 <? 0); [done|]. by intros [= <- _].
Qed.

(** C10. Disabling an enabled software site: when the peek fails, or the peek
    runs and the poke fails, [disable] throws the error of that call with its
    errno (which is not 0), the site is what it was (still enabled, same
    [saved_data_]) and so are the tracee's memory and debug registers. *)
Theorem disable_failure_keeps_site_enabled (s : breakpoint_site) (t : tracee) :
  is_enabled_ s = true -> is_hardware_ s = false ->
  let p := ptrace_peekdata (address_ s) t in
  let q := ptrace_pokedata (address_ s) (restored_data (ret p.2) s) p.1 in
  errno p.2 <> 0 \/ ret q.2 < 0 ->
  exists (t' : tracee) (n : Z),
    disable s t = (s, t', Throws (send_errno "Disabling breakpoint site failed" n))
    /\ n = (if errno p.2 =? 0 then errno q.2 else errno p.2)
    /\ n <> 0
    /\ memory t' = memory t
    /\ debug_regs t' = debug_regs t.
Proof.
  intros He Hh. cbv zeta. intros Hfail.
  destruct (peek_keeps_state (address_ s) t) as (Hm & Hd & _).
  unfold disable. rewrite He, Hh. cbn [negb].
  destruct (ptrace_peekdata (address_ s) t) as [t1 r1]. cbn [fst snd] in *.
  destruct (errno r1 =? 0) eqn:E0; cbn [negb].
  - destruct Hfail as [Hfail | Hfail]; [by apply Z.eqb_eq in E0|].
    fold (restored_data (ret r1) s).
    destruct (poke_failure _ _ _ Hfail) as (Hn & Hm' & Hd').
    destruct (ptrace_pokedata _ _ t1) as [t2 r2]. cbn [fst snd] in *.
    apply Z.ltb_lt in Hfail as ->.
    exists t2, (errno r2). repeat split; [done | congruence | congruence].
  - apply Z.eqb_neq in E0. exists t1, (errno r1). done.
Qed.

(** C4. [enable] on an enabled site and [disable] on a disabled site return
    at once: the site and the tracee, its log of kernel calls included, are
    what they were. Hence calling either twice in a row is calling it once. *)
Theorem enable_disable_idempotent :
  (forall s t, is_enabled_ s = true -> enable s t = (s, t, Returns tt))
  /\ (forall s t, is_enabled_ s = false -> disable s t = (s, t, Returns tt))
  /\ (forall s t, and_then enable enable s t = enable s t)
  /\ (forall s t, and_then disable disable s t = disable s t).
Proof.
  assert (He : forall s t, is_enabled_ s = true -> enable s t = (s, t, Returns tt)).
  { intros s t H. unfold enable. by rewrite H. }
  assert (Hd : forall s t, is_enabled_ s = false -> disable s t = (s, t, Returns tt)).
  { intros s t H. unfold disable. by rewrite H. }
  repeat split; [done | done | |].
  - intros s t. unfold and_then.
    destruct (enable s t) as [[s' t'] [[] | e]] eqn:E; [| done].
    apply He. by eapply enable_returns_enabled.
  - intros s t. unfold and_then.
    destruct (disable s t) as [[s' t'] [[] | e]] eqn:E; [| done].
    apply Hd. by eapply disable_returns_disabled.
Qed.

(** ** The allocator leaves memory alone *)

Lemma pokeuser_memory (i : nat) (w : Z) (t : tracee) :
  memory (ptrace_pokeuser i w t).1 = memory t.
Proof. unfold ptrace_pokeuser. by destruct (refusal t). Qed.

Lemma set_hardware_stoppoint_memory (a : Z) (m : stoppoint_mode) (size : Z) (t : tracee) :
  memory (set_hardware_stoppoint a m size t).1 = memory t.
Proof.
  unfold set_hardware_stoppoint.
  destruct (find_free_stoppoint_register _) as [slot |]; [| done].
  destruct (encode_hardware_stoppoint_size _) as [flag |]; [| done].
  pose proof (pokeuser_memory slot a t) as H1.
  destruct (ptrace_pokeuser slot a t) as [t1 r1]. cbn [fst] in H1.
  destruct (ret r1 <? 0); [done|].
  match goal with |- context [ptrace_pokeuser 7 ?w t1] =>
    pose proof (pokeuser_memory 7 w t1) as H2;
    destruct (ptrace_pokeuser 7 w t1) as [t2 r2] end.
  cbn [fst] in H2. destruct (ret r2 <? 0); cbn [fst]; congruence.
Qed.

Lemma clear_hardware_stoppoint_memory (index : Z) (t : tracee) :
  memory (clear_hardware_stoppoint index t).1 = memory t.
Proof.
  unfold clear_hardware_stoppoint.
  destruct ((0 <=? index) && (index <? 4)); [| done].
  pose proof (pokeuser_memory (Z.to_nat index) 0 t) as H1.
  destruct (ptrace_pokeuser (Z.to_nat index) 0 t) as [t1 r1]. cbn [fst] in H1.
  destruct (ret r1 <? 0); [done|].
  match goal with |- context [ptrace_pokeuser 7 ?w t1] =>
    pose proof (pokeuser_memory 7 w t1) as H2;
    destruct (ptrace_pokeuser 7 w t1) as [t2 r2] end.
  cbn [fst] in H2. destruct (ret r2 <? 0); cbn [fst]; congruence.
Qed.

(** ** Stop-point ids *)

Lemma construct_all_ids (static_id : Z) (requests : list (Z * bool * bool)) :
  0 <= static_id ->
  let r := construct_all static_id requests in
  static_id <= r.1
  /\ Forall (fun s => if is_internal_ s then id_ s = -1
                      else static_id < id_ s <= r.1) r.2
  /\ id_ <$> filter visible r.2
     = seqZ (static_id + 1) (Z.of_nat (length (filter visible r.2)))
  /\ (forall (i j : nat) si sj, (i < j)%nat ->
        r.2 !! i = Some si -> r.2 !! j = Some sj ->
        is_internal_ sj = false -> id_ si < id_ sj).
Proof.
  revert static_id.
  induction requests as [| [[a hw] int] rest IH]; intros static_id H0; cbn zeta.
  - simpl. repeat split; [lia | constructor | intros * _ Hi; by rewrite lookup_nil in Hi].
  - cbn [construct_all]. unfold new_breakpoint_site, get_next_id.
    destruct int.
    + specialize (IH static_id H0). cbv zeta in IH.
      destruct (construct_all static_id rest) as [st' sites].
      cbn [fst snd] in *. destruct IH as (Hle & Hall & Hseq & Hord).
      repeat split; [done | by constructor | |].
      * rewrite filter_cons_False by (by unfold visible). done.
      * intros i j si sj Hij Hi Hj Hvis. destruct j as [| j]; [lia|].
        cbn in Hj. destruct i as [| i].
        -- cbn in Hi. injection Hi as <-. cbn.
           apply list_elem_of_lookup_2 in Hj.
           rewrite Forall_forall in Hall. specialize (Hall _ Hj).
           rewrite Hvis in Hall. lia.
        -- cbn in Hi. apply (Hord i j); [lia | done..].
    + specialize (IH (static_id + 1) ltac:(lia)). cbv zeta in IH.
      destruct (construct_all (static_id + 1) rest) as [st' sites].
      cbn [fst snd] in *. destruct IH as (Hle & Hall & Hseq & Hord).
      repeat split; [lia | | |].
      * constructor; [cbn; lia|].
        eapply Forall_impl; [exact Hall|]. intros s. cbn.
        destruct (is_internal_ s); [done | lia].
      * rewrite filter_cons_True by (by unfold visible).
        cbn [length fmap list_fmap id_]. rewrite Nat2Z.inj_succ.
        rewrite seqZ_cons by lia. f_equal.
        change (list_fmap _ _ id_ ?l) with (id_ <$> l). rewrite Hseq.
        f_equal. lia.
      * intros i j si sj Hij Hi Hj Hvis. destruct j as [| j]; [lia|].
        cbn in Hj. destruct i as [| i].
        -- cbn in Hi. injection Hi as <-. cbn.
           apply list_elem_of_lookup_2 in Hj.
           rewrite Forall_forall in Hall. specialize (Hall _ Hj).
           rewrite Hvis in Hall. lia.
        -- cbn in Hi. apply (Hord i j); [lia | done..].
Qed.

(** C5 (amended). Sites constructed one after another, the static counter of
    [get_next_id] being at [static_id >= 0] before (0 when the program
    starts): every internal site has id -1; the sites that are not internal
    have the ids [static_id + 1], [static_id + 2], ... in the order of their
    construction, so each is positive and greater than the id of every site
    constructed before it, internal or not. *)
Theorem visible_ids_increase_internal_ids_are_minus_1
    (static_id : Z) (requests : list (Z * bool * bool)) :
  0 <= static_id ->
  let sites := (construct_all static_id requests).2 in
  (forall s, s ∈ sites -> is_internal_ s = true -> id_ s = -1)
  /\ (forall s, s ∈ sites -> is_internal_ s = false -> 0 < id_ s)
  /\ id_ <$> filter visible sites
     = seqZ (static_id + 1) (Z.of_nat (length (filter visible sites)))
  /\ (forall (i j : nat) si sj, (i < j)%nat ->
        sites !! i = Some si -> sites !! j = Some sj ->
        is_internal_ sj = false -> id_ si < id_ sj).
Proof.
  intros H0 sites.
  destruct (construct_all_ids static_id requests H0) as (_ & Hall & Hseq & Hord).
  fold sites in Hall, Hseq, Hord. rewrite Forall_forall in Hall.
  repeat split; [| | done | done].
  - intros s Hs Hi. specialize (Hall s Hs). by rewrite Hi in Hall.
  - intros s Hs Hi. specialize (Hall s Hs). rewrite Hi in Hall. lia.
Qed.

(** ** What [enable] and [disable] keep of a site *)

Lemma enable_identity (s s' : breakpoint_site) (t t' : tracee) (r : result unit) :
  enable s t = (s', t', r) -> same_identity s s'.
Proof.
  unfold enable, same_identity. destruct (is_enabled_ s); [by intros [= <- _ _]|].
  destruct (is_hardware_ s) eqn:Hh.
  - destruct (set_hardware_breakpoint _ _ _) as [t1 [i | e]]; by intros [= <- _ _].
  - destruct (ptrace_peekdata _ _) as [t1 r1].
    destruct (negb (errno r1 =? 0)); [by intros [= <- _ _]|].
    destruct (ptrace_pokedata _ _ _) as [t2 r2].
    destruct (ret r2 <? 0); by intros [= <- _ _].
Qed.

Lemma disable_identity (s s' : breakpoint_site) (t t' : tracee) (r : result unit) :
  disable s t = (s', t', r) -> same_identity s s'.
Proof.
  unfold disable, same_identity. destruct (negb (is_enabled_ s)); [by intros [= <- _ _]|].
  destruct (is_hardware_ s) eqn:Hh.
  - destruct (clear_hardware_stoppoint _ _) as [t1 [i | e]]; by intros [= <- _ _].
  - destruct (ptrace_peekdata _ _) as [t1 r1].
    destruct (negb (errno r1 =? 0)); [by intros [= <- _ _]|].
    destruct (ptrace_pokedata _ _ _) as [t2 r2].
    destruct (ret r2 <? 0); by intros [= <- _ _].
Qed.

(** ** Addresses of the sites of a process *)
Section site_addresses.

Lemma contains_address_spec (sites : list breakpoint_site) (a : Z) :
  contains_address sites a = true <-> a ∈ address_ <$> sites.
Proof.
  unfold contains_address. rewrite existsb_exists, list_elem_of_fmap.
  split.
  - intros (s & Hs & Ha). exists s. split; [lia | by apply list_elem_of_In].
  - intros (s & Ha & Hs). exists s. split; [by apply list_elem_of_In | lia].
Qed.

Lemma on_site_addresses (i : nat) (m : site_method) (p : process) :
  (forall s s' t t' r, m s t = (s', t', r) -> same_identity s s') ->
  addresses (on_site i m p).1 = addresses p.
Proof.
  intros Hm. unfold on_site, addresses.
  destruct (breakpoint_sites_ p !! i) as [s |] eqn:Hi; [| done].
  destruct (m s (tracee_ p)) as [[s' t'] r] eqn:E. cbn.
  destruct (Hm _ _ _ _ _ E) as (_ & Ha & _).
  rewrite list_fmap_insert, Ha. apply list_insert_id.
  by rewrite list_lookup_fmap, Hi.
Qed.

Lemma remove_site_addresses (i : nat) (p : process) :
  NoDup (addresses p) -> NoDup (addresses (remove_site i p).1).
Proof.
  intros Hnd. unfold remove_site.
  pose proof (on_site_addresses i disable p disable_identity) as Ha.
  destruct (on_site i disable p) as [p' [[] | e]]; cbn [fst] in *.
  - unfold addresses in *. cbn. rewrite list_fmap_delete, Ha.
    eapply sublist_NoDup; [done | apply sublist_delete].
  - by rewrite Ha.
Qed.

Lemma on_watchpoint_sites (j : nat) (m : watchpoint_method) (p : process) :
  breakpoint_sites_ (on_watchpoint j m p).1 = breakpoint_sites_ p.
Proof.
  unfold on_watchpoint. destruct (watchpoints_ p !! j); [| done].
  by destruct (m _ _) as [[w' t'] r].
Qed.

Lemma remove_watchpoint_sites (j : nat) (p : process) :
  breakpoint_sites_ (remove_watchpoint j p).1 = breakpoint_sites_ p.
Proof.
  unfold remove_watchpoint. pose proof (on_watchpoint_sites j wp_disable p) as H.
  by destruct (on_watchpoint j wp_disable p) as [p' [[] | e]].
Qed.

Lemma create_watchpoint_sites (a : Z) (m : stoppoint_mode) (size ids : Z) (p : process) :
  breakpoint_sites_ (create_watchpoint a m size ids p).1.2 = breakpoint_sites_ p.
Proof.
  unfold create_watchpoint. destruct (negb _); [done|].
  by destruct (wp_contains_address _ _).
Qed.

Lemma resume_sites (p : process) :
  breakpoint_sites_ (resume p).1 = breakpoint_sites_ p
  /\ watchpoints_ (resume p).1 = watchpoints_ p.
Proof.
  unfold resume. destruct (ptrace_restart _ _) as [t' r]. by destruct (ret r <? 0).
Qed.

Lemma wait_on_signal_sites (p p' : process) (r : result stop_reason) :
  wait_on_signal p = Some (p', r) ->
  breakpoint_sites_ p' = breakpoint_sites_ p /\ watchpoints_ p' = watchpoints_ p.
Proof.
  unfold wait_on_signal. destruct (waitpid _ _) as [[t' w] |]; [| done].
  destruct (wret w <? 0); [by intros [= <- _]|].
  destruct (new_stop_reason _); [| done]. by intros [= <- _].
Qed.

Lemma step_instruction_sites (p p' : process) (r : result stop_reason) :
  step_instruction p = Some (p', r) ->
  breakpoint_sites_ p' = breakpoint_sites_ p /\ watchpoints_ p' = watchpoints_ p.
Proof.
  unfold step_instruction, single_step.
  destruct (ptrace_restart _ _) as [t' r1]. destruct (ret r1 <? 0).
  - by intros [= <- _].
  - intros H. by apply wait_on_signal_sites in H.
Qed.

Lemma create_breakpoint_site_addresses (a : Z) (hw int : bool) (ids : Z) (p : process) :
  NoDup (addresses p) ->
  NoDup (addresses (create_breakpoint_site a hw int ids p).1.2).
Proof.
  intros Hnd. unfold create_breakpoint_site.
  destruct (contains_address _ a) eqn:Hc; [done|].
  unfold new_breakpoint_site.
  destruct (if int then _ else _) as [ids' id]. unfold addresses. cbn.
  rewrite fmap_app. apply NoDup_app. repeat split; [done | | apply NoDup_singleton].
  intros x Hx [= ->]%list_elem_of_singleton. cbn in Hx.
  apply contains_address_spec in Hx. congruence.
Qed.

Lemma perform_addresses (c : call) (w w' : session) (r : result unit) :
  NoDup (addresses (proc w)) -> perform c w = Some (w', r) ->
  NoDup (addresses (proc w')).
Proof.
  intros Hnd. destruct c; cbn [perform].
  - pose proof (create_breakpoint_site_addresses address hardware internal
                  (site_ids w) (proc w) Hnd) as H.
    destruct (create_breakpoint_site _ _ _ _ _) as [[ids p] r0].
    by intros [= <- _].
  - intros [= <- _]. cbn. by rewrite (on_site_addresses _ _ _ enable_identity).
  - intros [= <- _]. cbn. by rewrite (on_site_addresses _ _ _ disable_identity).
  - intros [= <- _]. cbn. by apply remove_site_addresses.
  - pose proof (create_watchpoint_sites address mode size (watchpoint_ids w) (proc w)) as H.
    destruct (create_watchpoint _ _ _ _ _) as [[ids p] r0].
    intros [= <- _]. unfold addresses in *. cbn in *. by rewrite H.
  - intros [= <- _]. unfold addresses in *. cbn. by rewrite on_watchpoint_sites.
  - intros [= <- _]. unfold addresses in *. cbn. by rewrite on_watchpoint_sites.
  - intros [= <- _]. unfold addresses in *. cbn. by rewrite remove_watchpoint_sites.
  - intros [= <- _]. unfold addresses in *. cbn.
    by rewrite (proj1 (resume_sites _)).
  - destruct (wait_on_signal (proc w)) as [[p r0] |] eqn:E; [| done].
    intros [= <- _]. unfold addresses in *. cbn.
    by rewrite (proj1 (wait_on_signal_sites _ _ _ E)).
  - destruct (step_instruction (proc w)) as [[p r0] |] eqn:E; [| done].
    intros [= <- _]. unfold addresses in *. cbn.
    by rewrite (proj1 (step_instruction_sites _ _ _ E)).
Qed.

Lemma run_addresses (cs : list call) (w w' : session) :
  NoDup (addresses (proc w)) -> run cs w = Some w' -> NoDup (addresses (proc w')).
Proof.
  revert w. induction cs as [| c cs IH]; intros w Hnd; cbn [run].
  - by intros [= <-].
  - destruct (perform c w) as [[w1 r] |] eqn:E; [| done].
    intros H. eapply IH; [| done]. by eapply perform_addresses.
Qed.

End site_addresses.

(** C8. [create_breakpoint_site] at an address that a site of the process
    has throws a usage error (no errno) and returns the static counter and
    the process as they were; and whatever calls a session makes from a
    process whose sites have distinct addresses (a new process has none), the
    sites of the process have distinct addresses. *)
Theorem duplicate_address_refused (a : Z) (hw int : bool) (ids : Z) (p : process) :
  a ∈ addresses p ->
  (exists e, create_breakpoint_site a hw int ids p = (ids, p, Throws e)
             /\ os_errno e = None)
  /\ (forall (cs : list call) (w w' : session),
        NoDup (addresses (proc w)) -> run cs w = Some w' ->
        NoDup (addresses (proc w')))
  /\ (forall pid owning attached t, NoDup (addresses (new_process pid owning attached t))).
Proof.
  intros Ha. repeat split.
  - unfold create_breakpoint_site.
    apply contains_address_spec in Ha. unfold addresses in *. rewrite Ha.
    by eexists.
  - apply run_addresses.
  - intros. apply NoDup_nil_2.
Qed.

(** ** Software sites: every outcome of [enable] and [disable] *)
Section software_effects.
Import Int.

Lemma load_bytes_valid (m : gmap Z Z) (a : Z) (n : nat) (bs : list Z) :
  valid_memory m -> load_bytes m a n = Some bs -> Forall is_byte bs.
Proof.
  intros Hv. revert a bs. induction n as [| n IH]; intros a bs; simpl.
  - intros [= <-]. constructor.
  - destruct (m !! a) as [b |] eqn:Ea; [| done].
    destruct (load_bytes m (a + 1) n) as [bs' |] eqn:E; [| done].
    intros [= <-]. constructor; [by eapply Hv | by eapply IH].
Qed.

Lemma valid_memory_insert (m : gmap Z Z) (a c : Z) :
  valid_memory m -> is_byte c -> valid_memory (<[a := c]> m).
Proof.
  intros Hv Hc a' b. destruct (decide (a = a')) as [-> | Hne].
  - rewrite lookup_insert_eq. by intros [= <-].
  - rewrite lookup_insert_ne by done. apply Hv.
Qed.

Lemma to_u8_byte (c : Z) : is_byte (to_u8 c).
Proof. unfold is_byte, to_u8. pose proof (Z.mod_pos_bound c (2 ^ 8)). simpl in *. lia. Qed.

Lemma to_u8_id (c : Z) : is_byte c -> to_u8 c = c.
Proof. unfold is_byte, to_u8. intros H. apply Z.mod_small. simpl. lia. Qed.

(** The poke of the word peeked, with [c] as its low byte, is the store of
    [c] at the address. *)
Lemma spliced_store (m : gmap Z Z) (a c : Z) (bs : list Z) :
  valid_memory m -> load_bytes m a 8 = Some bs -> is_byte c ->
  exists b, m !! a = Some b
    /\ to_u8 (Z.land (to_u64 (to_i64 (le_word bs))) 255) = b
    /\ store_bytes m a
         (le_bytes 8 (Z.lor (Z.land (to_u64 (to_i64 (le_word bs))) (to_u64 (Z.lnot 255))) c))
       = <[a := c]> m.
Proof.
  intros Hv Hl Hc.
  pose proof (load_bytes_length _ _ _ _ Hl) as Hlen.
  pose proof (load_bytes_valid _ _ _ _ Hv Hl) as Hbs.
  destruct bs as [| b bs]; [done|]. simpl in Hlen.
  apply Forall_cons in Hbs as Hbs'. destruct Hbs' as [Hb Htl].
  exists b. split; [by eapply load_bytes_head|].
  rewrite to_u64_to_i64 by (apply le_word_u64; [done | simpl; lia]).
  split; [by apply low_byte|].
  rewrite splice_low_byte by (done || lia).
  replace 8%nat with (length (c :: bs)) at 1 by (simpl; lia).
  rewrite le_bytes_le_word by (by constructor).
  apply (store_bytes_low_byte _ _ b).
  by replace (S (length bs)) with 8%nat by lia.
Qed.

Lemma enable_software_effect (s s' : breakpoint_site) (t t' : tracee) (r : result unit) :
  valid_memory (memory t) -> is_hardware_ s = false ->
  enable s t = (s', t', r) ->
  debug_regs t' = debug_regs t /\ status t' = status t /\ events t' = events t
  /\ hardware_register_index_ s' = hardware_register_index_ s
  /\ ((is_enabled_ s' = is_enabled_ s /\ memory t' = memory t
       /\ (is_enabled_ s = true -> s' = s))
      \/ (is_enabled_ s = false /\ is_enabled_ s' = true /\ r = Returns tt
          /\ memory t !! address_ s = Some (saved_data_ s')
          /\ memory t' = <[address_ s := 204]> (memory t))).
Proof.
  intros Hv Hh. unfold enable. rewrite Hh.
  destruct (is_enabled_ s) eqn:He.
  { intros [= <- <- _]. repeat split; try done. left. by rewrite He. }
  unfold ptrace_peekdata.
  destruct (refusal t) as [e |] eqn:Er; cbn [errno ret].
  { pose proof (refusal_not_0 _ _ Er) as Hne. apply Z.eqb_neq in Hne as ->.
    cbn [negb]. intros [= <- <- _]. repeat split; try done. left. by rewrite He. }
  destruct (load_bytes (memory t) (address_ s) 8) as [bs |] eqn:El; cbn [errno ret];
    cbn [Z.eqb negb EIO].
  2:{ intros [= <- <- _]. repeat split; try done. left. by rewrite He. }
  destruct (spliced_store _ _ 204 _ Hv El) as (b & Hb & Hlow & Hst);
    [unfold is_byte; lia|].
  unfold ptrace_pokedata. cbn [entered memory].
  destruct (refusal (entered _ t)) as [e |] eqn:Er'; cbn [ret].
  { intros [= <- <- _]. cbn. repeat split; try done. left. by rewrite He. }
  rewrite El. cbn [ret Z.ltb Z.compare]. intros [= <- <- <-].
  cbn [debug_regs status events set_memory entered memory with_is_enabled
       with_saved_data hardware_register_index_ is_enabled_ saved_data_].
  repeat split; try done. right.
  repeat split; try done. by rewrite Hlow.
Qed.

Lemma disable_software_effect (s s' : breakpoint_site) (t t' : tracee) (r : result unit) :
  valid_memory (memory t) -> is_hardware_ s = false ->
  disable s t = (s', t', r) ->
  debug_regs t' = debug_regs t /\ status t' = status t /\ events t' = events t
  /\ hardware_register_index_ s' = hardware_register_index_ s
  /\ saved_data_ s' = saved_data_ s
  /\ ((s' = s /\ memory t' = memory t)
      \/ (is_enabled_ s = true /\ is_enabled_ s' = false /\ r = Returns tt
          /\ memory t' = <[address_ s := to_u8 (saved_data_ s)]> (memory t))).
Proof.
  intros Hv Hh. unfold disable. rewrite Hh.
  destruct (is_enabled_ s) eqn:He; cbn [negb].
  2:{ intros [= <- <- _]. repeat split; try done. by left. }
  unfold ptrace_peekdata.
  destruct (refusal t) as [e |] eqn:Er; cbn [errno ret].
  { pose proof (refusal_not_0 _ _ Er) as Hne. apply Z.eqb_neq in Hne as ->.
    cbn [negb]. intros [= <- <- _]. repeat split; try done. by left. }
  destruct (load_bytes (memory t) (address_ s) 8) as [bs |] eqn:El; cbn [errno ret];
    cbn [Z.eqb negb EIO].
  2:{ intros [= <- <- _]. repeat split; try done. by left. }
  destruct (spliced_store _ _ (to_u8 (saved_data_ s)) _ Hv El) as (b & Hb & Hlow & Hst);
    [apply to_u8_byte|].
  unfold ptrace_pokedata. cbn [entered memory].
  destruct (refusal (entered _ t)) as [e |] eqn:Er'; cbn [ret].
  { intros [= <- <- _]. cbn. repeat split; try done. by left. }
  rewrite El. cbn [ret Z.ltb Z.compare]. intros [= <- <- <-].
  cbn [debug_regs status events set_memory entered memory with_is_enabled
       with_saved_data hardware_register_index_ is_enabled_ saved_data_].
  repeat split; try done. right. by repeat split.
Qed.

End software_effects.

(** ** The traps in memory *)
Section traps.
Import Int.

Lemma enable_hardware_memory (s s' : breakpoint_site) (t t' : tracee) (r : result unit) :
  is_hardware_ s = true -> enable s t = (s', t', r) -> memory t' = memory t.
Proof.
  intros Hh. unfold enable. rewrite Hh.
  destruct (is_enabled_ s); [by intros [= _ <- _]|].
  pose proof (set_hardware_stoppoint_memory (address_ s) execute 1 t) as Hm.
  unfold set_hardware_breakpoint.
  destruct (set_hardware_stoppoint _ _ _ _) as [t1 [i | e]]; by intros [= _ <- _].
Qed.

Lemma disable_hardware_memory (s s' : breakpoint_site) (t t' : tracee) (r : result unit) :
  is_hardware_ s = true -> disable s t = (s', t', r) -> memory t' = memory t.
Proof.
  intros Hh. unfold disable. rewrite Hh.
  destruct (negb (is_enabled_ s)); [by intros [= _ <- _]|].
  pose proof (clear_hardware_stoppoint_memory (hardware_register_index_ s) t) as Hm.
  destruct (clear_hardware_stoppoint _ _) as [t1 [i | e]]; by intros [= _ <- _].
Qed.

Lemma software_enabled_hardware (s : breakpoint_site) :
  is_hardware_ s = true -> software_enabled s = false.
Proof. unfold software_enabled. intros ->. apply andb_false_r. Qed.

Lemma software_enabled_software (s : breakpoint_site) :
  is_hardware_ s = false -> software_enabled s = is_enabled_ s.
Proof. unfold software_enabled. intros ->. apply andb_true_r. Qed.

Lemma enable_memory_step (s s' : breakpoint_site) (t t' : tracee) (r : result unit) :
  valid_memory (memory t) -> enable s t = (s', t', r) ->
  memory_step s s' (memory t) (memory t').
Proof.
  intros Hv E. destruct (enable_identity _ _ _ _ _ E) as (_ & _ & Hhw & _).
  destruct (is_hardware_ s) eqn:Hh.
  - left. rewrite (software_enabled_hardware s), (software_enabled_hardware s') by done.
    repeat split; [done|]. by apply (enable_hardware_memory s s' t t' r).
  - destruct (enable_software_effect _ _ _ _ _ Hv Hh E)
      as (_ & _ & _ & _ & [(He & Hm & Hs) | (He & He' & _ & Hb & Hm)]).
    + left. rewrite (software_enabled_software s), (software_enabled_software s') by done.
      repeat split; [done | | done]. intros Ht. by rewrite Hs.
    + right. left.
      rewrite (software_enabled_software s), (software_enabled_software s') by done.
      done.
Qed.

Lemma disable_memory_step (s s' : breakpoint_site) (t t' : tracee) (r : result unit) :
  valid_memory (memory t) -> disable s t = (s', t', r) ->
  memory_step s s' (memory t) (memory t').
Proof.
  intros Hv E. destruct (disable_identity _ _ _ _ _ E) as (_ & _ & Hhw & _).
  destruct (is_hardware_ s) eqn:Hh.
  - left. rewrite (software_enabled_hardware s), (software_enabled_hardware s') by done.
    repeat split; [done|]. by apply (disable_hardware_memory s s' t t' r).
  - destruct (disable_software_effect _ _ _ _ _ Hv Hh E)
      as (_ & _ & _ & _ & Hsv & [(-> & Hm) | (He & He' & _ & Hm)]).
    + by left.
    + right. right.
      rewrite (software_enabled_software s), (software_enabled_software s') by done.
      done.
Qed.

Lemma memory_step_valid (s s' : breakpoint_site) (m m' : gmap Z Z) :
  valid_memory m -> memory_step s s' m m' -> valid_memory m'.
Proof.
  intros Hv [(_ & _ & ->) | [(_ & _ & _ & ->) | (_ & _ & ->)]]; [done | |].
  - apply valid_memory_insert; [done | unfold is_byte; lia].
  - apply valid_memory_insert; [done | apply to_u8_byte].
Qed.

(** Membership in a list with one element replaced. *)
Lemma elem_of_insert_inv {A : Type} (l : list A) (i : nat) (x y : A) :
  x ∈ <[i := y]> l -> x = y \/ x ∈ l.
Proof.
  intros (j & Hj)%list_elem_of_lookup_1.
  apply list_lookup_insert_Some in Hj as [(-> & -> & _) | (_ & Hj)]; [by left|].
  right. by eapply list_elem_of_lookup_2.
Qed.

Lemma elem_of_insert_old {A : Type} (l : list A) (i : nat) (s x y : A) :
  l !! i = Some s -> x ∈ l -> x = s \/ x ∈ <[i := y]> l.
Proof.
  intros Hi (j & Hj)%list_elem_of_lookup_1.
  destruct (decide (i = j)) as [-> | Hne]; [left; congruence|].
  right. apply (list_elem_of_lookup_2 _ j). by rewrite list_lookup_insert_ne.
Qed.

Lemma same_address_same_site (l : list breakpoint_site) (x y : breakpoint_site) :
  NoDup (address_ <$> l) -> x ∈ l -> y ∈ l -> address_ x = address_ y -> x = y.
Proof.
  intros Hnd (i & Hi)%list_elem_of_lookup_1 (j & Hj)%list_elem_of_lookup_1 Ha.
  assert (i = j) as ->; [| congruence].
  apply (NoDup_lookup _ i j (address_ x) Hnd).
  - by rewrite list_lookup_fmap, Hi.
  - by rewrite list_lookup_fmap, Hj, Ha.
Qed.

Lemma patched_memory_update (m0 : gmap Z Z) (p : process) (i : nat)
    (s s' : breakpoint_site) (t' : tracee) :
  patched_memory m0 p -> NoDup (addresses p) ->
  breakpoint_sites_ p !! i = Some s -> same_identity s s' ->
  memory_step s s' (memory (tracee_ p)) (memory t') ->
  patched_memory m0 (with_tracee t' (with_breakpoint_sites (<[i := s']> (breakpoint_sites_ p)) p)).
Proof.
  intros [Hv0 Hv Htr Hor] Hnd Hi (_ & Ha & _) Hstep. unfold addresses in Hnd.
  assert (Hnd' : NoDup (address_ <$> <[i := s']> (breakpoint_sites_ p))).
  { rewrite list_fmap_insert, Ha, list_insert_id; [done|].
    by rewrite list_lookup_fmap, Hi. }
  assert (Hs : s ∈ breakpoint_sites_ p) by (by eapply list_elem_of_lookup_2).
  assert (Hs' : s' ∈ <[i := s']> (breakpoint_sites_ p)).
  { apply list_elem_of_insert. by eapply lookup_lt_Some. }
  split; cbn [tracee_ with_tracee with_breakpoint_sites breakpoint_sites_ memory].
  - done.
  - by eapply memory_step_valid.
  - intros x Hx Hsw.
    destruct Hstep as [(Heq & Hsv & ->) | [(Hoff & Hon & Hb & ->) | (Hon & Hoff & ->)]].
    + apply elem_of_insert_inv in Hx as [-> | Hx]; [| by apply Htr].
      rewrite Heq in Hsw. rewrite Ha, (Hsv Hsw). by apply Htr.
    + apply elem_of_insert_inv in Hx as [-> | Hx].
      * rewrite Ha, lookup_insert_eq. split; [done|]. rewrite <- Hb.
        symmetry. apply Hor. intros y Hy Hysw Hya.
        assert (y = s) as ->
          by (by apply (same_address_same_site (breakpoint_sites_ p))).
        congruence.
      * assert (address_ x <> address_ s).
        { intros Hxa.
          assert (x = s) as ->
            by (by apply (same_address_same_site (breakpoint_sites_ p))).
          congruence. }
        rewrite lookup_insert_ne by done. by apply Htr.
    + assert (x <> s') by congruence.
      assert (address_ x <> address_ s).
      { intros Hxa. rewrite <- Ha in Hxa.
        by assert (x = s')
          by (by apply (same_address_same_site (<[i := s']> (breakpoint_sites_ p)))). }
      apply elem_of_insert_inv in Hx as [-> | Hx]; [done|].
      rewrite lookup_insert_ne by done. by apply Htr.
  - intros a Hfree.
    assert (Hold : forall y, y ∈ breakpoint_sites_ p -> software_enabled y = true ->
              address_ y <> a \/ y = s).
    { intros y Hy Hysw.
      destruct (elem_of_insert_old _ i s y s' Hi Hy) as [-> | Hy']; [by right|].
      left. by apply Hfree. }
    destruct Hstep as [(Heq & Hsv & ->) | [(Hoff & Hon & Hb & ->) | (Hon & Hoff & ->)]].
    + apply Hor. intros y Hy Hysw. destruct (Hold y Hy Hysw) as [? | ->]; [done|].
      rewrite <- Ha. apply Hfree; [done | congruence].
    + assert (address_ s <> a) by (rewrite <- Ha; by apply Hfree).
      rewrite lookup_insert_ne by done.
      apply Hor. intros y Hy Hysw. destruct (Hold y Hy Hysw) as [? | ->]; [done|].
      congruence.
    + destruct (decide (address_ s = a)) as [<- | Hne].
      * rewrite lookup_insert_eq. destruct (Htr s Hs Hon) as [_ Hsaved].
        rewrite Hsaved. f_equal. apply to_u8_id. by eapply Hv0.
      * rewrite lookup_insert_ne by done.
        apply Hor. intros y Hy Hysw. destruct (Hold y Hy Hysw) as [? | ->]; done.
Qed.

End traps.

(** ** Watchpoints leave memory and the sites alone *)
Section watchpoint_frame.

Lemma read_memory_tracee (a : Z) (n : nat) (t : tracee) :
  memory (read_memory a n t).1 = memory t
  /\ debug_regs (read_memory a n t).1 = debug_regs t
  /\ status (read_memory a n t).1 = status t
  /\ events (read_memory a n t).1 = events t.
Proof.
  unfold read_memory, process_vm_readv.
  destruct (next_fault t); [done|].
  destruct (status t) eqn:Es; destruct (load_bytes (memory t) a n); by cbn.
Qed.

Lemma wp_enable_memory (w w' : watchpoint) (t t' : tracee) (r : result unit) :
  wp_enable w t = (w', t', r) -> memory t' = memory t.
Proof.
  unfold wp_enable. destruct (wp_is_enabled_ w); [by intros [= _ <- _]|].
  destruct (read_memory_tracee (wp_address_ w) (Z.to_nat (wp_size_ w)) t) as (Hm & _).
  destruct (read_memory _ _ _) as [t1 [bytes | e]]; cbn [fst] in Hm;
    [| by intros [= _ <- _]].
  pose proof (set_hardware_stoppoint_memory (wp_address_ w) (wp_mode_ w) (wp_size_ w) t1)
    as Hm'.
  unfold set_watchpoint.
  destruct (set_hardware_stoppoint _ _ _ _) as [t2 [i | e]]; cbn [fst] in Hm';
    intros [= _ <- _]; congruence.
Qed.

Lemma wp_disable_memory (w w' : watchpoint) (t t' : tracee) (r : result unit) :
  wp_disable w t = (w', t', r) -> memory t' = memory t.
Proof.
  unfold wp_disable. destruct (negb (wp_is_enabled_ w)); [by intros [= _ <- _]|].
  pose proof (clear_hardware_stoppoint_memory (wp_hardware_register_index_ w) t) as Hm.
  destruct (clear_hardware_stoppoint _ _) as [t1 [i | e]]; by intros [= _ <- _].
Qed.

Lemma on_watchpoint_memory (j : nat) (m : watchpoint_method) (p : process) :
  (forall w w' t t' r, m w t = (w', t', r) -> memory t' = memory t) ->
  memory (tracee_ (on_watchpoint j m p).1) = memory (tracee_ p).
Proof.
  intros Hm. unfold on_watchpoint. destruct (watchpoints_ p !! j) as [w |]; [| done].
  destruct (m w (tracee_ p)) as [[w' t'] r] eqn:E. cbn. by eapply Hm.
Qed.

Lemma remove_watchpoint_memory (j : nat) (p : process) :
  memory (tracee_ (remove_watchpoint j p).1) = memory (tracee_ p).
Proof.
  unfold remove_watchpoint.
  pose proof (on_watchpoint_memory j wp_disable p wp_disable_memory) as H.
  by destruct (on_watchpoint j wp_disable p) as [p' [[] | e]].
Qed.

Lemma create_watchpoint_tracee (a : Z) (m : stoppoint_mode) (size ids : Z) (p : process) :
  tracee_ (create_watchpoint a m size ids p).1.2 = tracee_ p.
Proof.
  unfold create_watchpoint. destruct (negb _); [done|].
  by destruct (wp_contains_address _ _).
Qed.

End watchpoint_frame.

(** ** The traps in memory, call after call *)
Section traps_preserved.

Lemma patched_memory_frame (m0 : gmap Z Z) (p p' : process) :
  breakpoint_sites_ p' = breakpoint_sites_ p ->
  memory (tracee_ p') = memory (tracee_ p) ->
  patched_memory m0 p -> patched_memory m0 p'.
Proof. intros Hs Hm [Hv0 Hv Htr Hor]. split; rewrite ?Hs, ?Hm; done. Qed.

Lemma patched_memory_snoc (m0 : gmap Z Z) (p : process) (s : breakpoint_site) :
  software_enabled s = false -> patched_memory m0 p ->
  patched_memory m0 (with_breakpoint_sites (breakpoint_sites_ p ++ [s]) p).
Proof.
  intros Hs [Hv0 Hv Htr Hor]. split; cbn; [done | done | |].
  - intros x [Hx | ->%list_elem_of_singleton]%elem_of_app Hsw;
      [by apply Htr | congruence].
  - intros a Hfree. apply Hor. intros y Hy. apply Hfree, elem_of_app. by left.
Qed.

Lemma patched_memory_delete (m0 : gmap Z Z) (p : process) (i : nat) (s : breakpoint_site) :
  breakpoint_sites_ p !! i = Some s -> software_enabled s = false ->
  patched_memory m0 p ->
  patched_memory m0 (with_breakpoint_sites (delete i (breakpoint_sites_ p)) p).
Proof.
  intros Hi Hs [Hv0 Hv Htr Hor]. split; cbn; [done | done | |].
  - intros x Hx. apply Htr. by eapply list_elem_of_delete_inv.
  - intros a Hfree. apply Hor. intros y (j & Hj)%list_elem_of_lookup_1 Hsw.
    apply Hfree; [| done].
    destruct (Nat.lt_total j i) as [Hlt | [-> | Hgt]].
    + apply (list_elem_of_lookup_2 _ j). by rewrite list_lookup_delete_lt.
    + congruence.
    + apply (list_elem_of_lookup_2 _ (pred j)).
      rewrite list_lookup_delete_ge by lia. by replace (S (pred j)) with j by lia.
Qed.

Lemma on_site_patched_memory (m0 : gmap Z Z) (i : nat) (m : site_method) (p : process) :
  (forall s s' t t' r, m s t = (s', t', r) -> same_identity s s') ->
  (forall s s' t t' r, valid_memory (memory t) -> m s t = (s', t', r) ->
     memory_step s s' (memory t) (memory t')) ->
  NoDup (addresses p) -> patched_memory m0 p ->
  patched_memory m0 (on_site i m p).1.
Proof.
  intros Hid Hstep Hnd Hpm. unfold on_site.
  destruct (breakpoint_sites_ p !! i) as [s |] eqn:Hi; [| done].
  destruct (m s (tracee_ p)) as [[s' t'] r] eqn:E. cbn [fst].
  eapply patched_memory_update; eauto. eapply Hstep; [| done]. by destruct Hpm.
Qed.

Lemma remove_site_patched_memory (m0 : gmap Z Z) (i : nat) (p : process) :
  NoDup (addresses p) -> patched_memory m0 p ->
  patched_memory m0 (remove_site i p).1.
Proof.
  intros Hnd Hpm. unfold remove_site.
  pose proof (on_site_patched_memory m0 i disable p disable_identity
                disable_memory_step Hnd Hpm) as H.
  destruct (on_site i disable p) as [p' [[] | e]] eqn:E; cbn [fst] in *; [| done].
  unfold on_site in E.
  destruct (breakpoint_sites_ p !! i) as [s |] eqn:Hi; [| done].
  destruct (disable s (tracee_ p)) as [[s' t'] r] eqn:Ed.
  injection E as <- ->.
  apply disable_returns_disabled in Ed.
  eapply (patched_memory_delete _ _ i s'); [| | done].
  - cbn. apply list_lookup_insert_eq. by eapply lookup_lt_Some.
  - unfold software_enabled. by rewrite Ed.
Qed.

Lemma new_site_disabled (ids a : Z) (hw int : bool) :
  software_enabled (new_breakpoint_site ids a hw int).2 = false.
Proof. unfold new_breakpoint_site. by destruct int. Qed.

Lemma perform_patched_memory (m0 : gmap Z Z) (c : call) (w w' : session)
    (r : result unit) :
  stoppoint_call c -> NoDup (addresses (proc w)) -> patched_memory m0 (proc w) ->
  perform c w = Some (w', r) -> patched_memory m0 (proc w').
Proof.
  intros Hc Hnd Hpm. destruct c; cbn [perform]; try done.
  - unfold create_breakpoint_site.
    destruct (contains_address _ _); [by intros [= <- _]|].
    pose proof (new_site_disabled (site_ids w) address hardware internal) as Hs.
    destruct (new_breakpoint_site _ _ _ _) as [ids s]. intros [= <- _]. cbn.
    by apply patched_memory_snoc.
  - intros [= <- _]. cbn.
    by apply (on_site_patched_memory _ _ _ _ enable_identity enable_memory_step).
  - intros [= <- _]. cbn.
    by apply (on_site_patched_memory _ _ _ _ disable_identity disable_memory_step).
  - intros [= <- _]. cbn. by apply remove_site_patched_memory.
  - pose proof (create_watchpoint_sites address mode size (watchpoint_ids w) (proc w)) as H1.
    pose proof (create_watchpoint_tracee address mode size (watchpoint_ids w) (proc w)) as H2.
    destruct (create_watchpoint _ _ _ _ _) as [[ids p] r0]. intros [= <- _]. cbn in *.
    eapply patched_memory_frame; [done | by rewrite H2 | done].
  - intros [= <- _]. cbn. eapply patched_memory_frame; [| | done].
    + apply on_watchpoint_sites.
    + apply (on_watchpoint_memory _ _ _ wp_enable_memory).
  - intros [= <- _]. cbn. eapply patched_memory_frame; [| | done].
    + apply on_watchpoint_sites.
    + apply (on_watchpoint_memory _ _ _ wp_disable_memory).
  - intros [= <- _]. cbn. eapply patched_memory_frame; [| | done].
    + apply remove_watchpoint_sites.
    + apply remove_watchpoint_memory.
Qed.

Lemma run_patched_memory (m0 : gmap Z Z) (cs : list call) (w w' : session) :
  Forall stoppoint_call cs -> NoDup (addresses (proc w)) ->
  patched_memory m0 (proc w) -> run cs w = Some w' ->
  NoDup (addresses (proc w')) /\ patched_memory m0 (proc w').
Proof.
  intros Hcs. revert w. induction Hcs as [| c cs Hc Hcs IH]; intros w Hnd Hpm; cbn [run].
  - by intros [= <-].
  - destruct (perform c w) as [[w1 r] |] eqn:E; [| done].
    apply IH; [by eapply perform_addresses | by eapply perform_patched_memory].
Qed.

Lemma patched_memory_start (p : process) :
  valid_memory (memory (tracee_ p)) ->
  (forall s, s ∈ breakpoint_sites_ p -> software_enabled s = false) ->
  patched_memory (memory (tracee_ p)) p.
Proof.
  intros Hv Hoff. split; [done | done | | done].
  intros s Hs Hon. rewrite (Hoff s Hs) in Hon. done.
Qed.

End traps_preserved.

(** ** Reading one byte, with and without the traps *)
Section reads.

Lemma read_memory_returns (a : Z) (n : nat) (t t' : tracee) (bytes : list Z) :
  read_memory a n t = (t', Returns bytes) -> load_bytes (memory t) a n = Some bytes.
Proof.
  unfold read_memory, process_vm_readv. destruct (next_fault t); [done|].
  destruct (status t); destruct (load_bytes (memory t) a n); cbn; congruence.
Qed.

Lemma read_memory_runs (a : Z) (n : nat) (t : tracee) (bytes : list Z) :
  next_fault t = None -> status t <> Gone -> load_bytes (memory t) a n = Some bytes ->
  (read_memory a n t).2 = Returns bytes.
Proof.
  unfold read_memory, process_vm_readv. intros -> Hs ->. by destruct (status t).
Qed.

Lemma load_byte (m : gmap Z Z) (a b : Z) :
  m !! a = Some b -> load_bytes m a 1 = Some [b].
Proof. simpl. by intros ->. Qed.

Lemma without_traps_one_byte (a v : Z) (sites : list breakpoint_site) (bytes : list Z) :
  length bytes = 1%nat ->
  (forall x, x ∈ sites -> in_trap a x = true -> saved_data_ x = v) ->
  foldl (without_trap a 1) bytes sites
  = if existsb (in_trap a) sites then [v] else bytes.
Proof.
  revert bytes. induction sites as [| x sites IH]; intros bytes Hlen Hv; [done|].
  cbn [foldl existsb].
  change (without_trap a 1 bytes x)
    with (if in_trap a x
          then <[Z.to_nat (address_ x - a) := saved_data_ x]> bytes else bytes).
  destruct (in_trap a x) eqn:Hx; cbn [orb].
  - rewrite (Hv x) by (done || apply list_elem_of_here).
    destruct bytes as [| b [| ? ?]]; try done.
    assert (Hz : Z.to_nat (address_ x - a) = 0%nat).
    { unfold in_trap in Hx. apply andb_prop in Hx as [[_ H1%Z.leb_le]%andb_prop H2%Z.ltb_lt].
      lia. }
    rewrite Hz. change (<[0%nat := v]> [b]) with [v]. rewrite IH; [| done |].
    + by destruct (existsb _ _).
    + intros y Hy. apply Hv. by apply list_elem_of_further.
  - apply IH; [done|]. intros y Hy. apply Hv. by apply list_elem_of_further.
Qed.

Lemma existsb_in_trap (a : Z) (sites : list breakpoint_site) (s : breakpoint_site) :
  s ∈ sites -> software_enabled s = true -> address_ s = a ->
  existsb (in_trap a) sites = true.
Proof.
  intros Hs Hon <-. apply existsb_exists. exists s. split; [by apply list_elem_of_In|].
  unfold in_trap. unfold software_enabled in Hon. rewrite Hon. cbn.
  apply andb_true_intro. split; [apply Z.leb_le | apply Z.ltb_lt]; lia.
Qed.

End reads.

(** The calls on stop-points always return. *)
Lemma perform_stoppoint_call_returns (c : call) (w : session) :
  stoppoint_call c -> exists w' r, perform c w = Some (w', r).
Proof.
  intros Hc. destruct c; cbn [perform]; try done; try (by eexists _, _).
  - destruct (create_breakpoint_site _ _ _ _ _) as [[ids p] r]. by eexists _, _.
  - destruct (create_watchpoint _ _ _ _ _) as [[ids p] r]. by eexists _, _.
Qed.

Lemma run_stoppoint_calls_returns (cs : list call) (w : session) :
  Forall stoppoint_call cs -> exists w', run cs w = Some w'.
Proof.
  intros Hcs. revert w. induction Hcs as [| c cs Hc Hcs IH]; intros w; cbn [run].
  - by exists w.
  - destruct (perform_stoppoint_call_returns c w Hc) as (w1 & r & ->). apply IH.
Qed.

(** C2 (amended). A session that starts with no software site enabled, its
    sites at distinct addresses and the tracee's memory [m0], and then makes
    any calls that create, enable, disable or remove stop-points, any of
    which may fail. The calls all return, and for a software site [s] of the
    process afterwards: if [s]
    is enabled, the byte at its address is 0xCC and [saved_data_] is the byte
    of [m0] there, a read of that byte returns 0xCC and a read without traps
    returns [saved_data_]; if [s] is disabled, the byte at its address is the
    one of [m0]. So, where the byte of [m0] is not 0xCC, [s] is enabled if and
    only if the byte at its address is 0xCC. *)
Theorem enabled_software_site_is_trapped (cs : list call) (w : session) :
  let m0 := memory (tracee_ (proc w)) in
  valid_memory m0 ->
  NoDup (addresses (proc w)) ->
  (forall x, x ∈ breakpoint_sites_ (proc w) -> software_enabled x = false) ->
  Forall stoppoint_call cs ->
  exists w', run cs w = Some w' /\
  forall s, let p' := proc w' in
  s ∈ breakpoint_sites_ p' -> is_hardware_ s = false ->
  (is_enabled_ s = true ->
     memory (tracee_ p') !! address_ s = Some 204
     /\ m0 !! address_ s = Some (saved_data_ s)
     /\ (forall t'' bytes,
           read_memory (address_ s) 1 (tracee_ p') = (t'', Returns bytes) ->
           bytes = [204])
     /\ (forall t'' bytes,
           read_memory_without_traps (address_ s) 1 p' = (t'', Returns bytes) ->
           bytes = [saved_data_ s])
     /\ (next_fault (tracee_ p') = None -> status (tracee_ p') <> Gone ->
         (read_memory (address_ s) 1 (tracee_ p')).2 = Returns [204]
         /\ (read_memory_without_traps (address_ s) 1 p').2 = Returns [saved_data_ s]))
  /\ (is_enabled_ s = false ->
        memory (tracee_ p') !! address_ s = m0 !! address_ s)
  /\ (m0 !! address_ s <> Some 204 ->
        (is_enabled_ s = true <-> memory (tracee_ p') !! address_ s = Some 204)).
Proof.
  intros m0 Hv Hnd Hoff Hcs.
  destruct (run_stoppoint_calls_returns cs w Hcs) as (w' & Hrun).
  exists w'. split; [done|]. intros s p' Hs Hsw.
  destruct (run_patched_memory m0 cs w w' Hcs Hnd (patched_memory_start _ Hv Hoff) Hrun)
    as [Hnd' [_ _ Htr Hor]].
  fold p' in Hnd', Htr, Hor.
  assert (Hon : is_enabled_ s = true ->
            memory (tracee_ p') !! address_ s = Some 204
            /\ m0 !! address_ s = Some (saved_data_ s)).
  { intros He. apply Htr; [done|]. by rewrite software_enabled_software. }
  assert (Hdis : is_enabled_ s = false ->
            memory (tracee_ p') !! address_ s = m0 !! address_ s).
  { intros He. apply Hor. intros y Hy Hyon Hya.
    assert (y = s) as -> by (by apply (same_address_same_site (breakpoint_sites_ p'))).
    rewrite software_enabled_software in Hyon by done. congruence. }
  assert (Hwt : forall bytes, is_enabled_ s = true -> length bytes = 1%nat ->
            foldl (without_trap (address_ s) 1) bytes (breakpoint_sites_ p')
            = [saved_data_ s]).
  { intros bytes He Hlen.
    rewrite (without_traps_one_byte _ (saved_data_ s)); [| done |].
    - rewrite (existsb_in_trap _ _ s); [done.. | | done].
      by rewrite software_enabled_software.
    - intros x Hx Hxt. f_equal.
      apply (same_address_same_site (breakpoint_sites_ p')); [done.. |].
      unfold in_trap in Hxt.
      apply andb_prop in Hxt as [[_ H1%Z.leb_le]%andb_prop H2%Z.ltb_lt]. lia. }
  split; [| split].
  - intros He. destruct (Hon He) as [Hm H0]. split; [done|]. split; [done|].
    split; [| split].
    + intros t'' bytes Hr%read_memory_returns.
      rewrite (load_byte _ _ _ Hm) in Hr. congruence.
    + intros t'' bytes. unfold read_memory_without_traps.
      destruct (read_memory _ _ _) as [t1 [bs | e]] eqn:Er; [| done].
      apply read_memory_returns in Er. rewrite (load_byte _ _ _ Hm) in Er.
      injection Er as <-. intros [= _ <-]. by apply Hwt.
    + intros Hnf Hst.
      pose proof (read_memory_runs (address_ s) 1 (tracee_ p') [204] Hnf Hst
                    (load_byte _ _ _ Hm)) as Hr.
      split; [done|]. unfold read_memory_without_traps.
      destruct (read_memory _ _ _) as [t1 r1]. cbn [snd] in *. subst r1. cbn [snd].
      f_equal. by apply Hwt.
  - done.
  - intros Hne. split; [intros He; by destruct (Hon He)|].
    intros Hm. destruct (is_enabled_ s) eqn:He; [done|].
    rewrite (Hdis eq_refl) in Hm. done.
Qed.

(** ** DR7 *)
Section dr7_bits.



Lemma find_free_Some (c : Z) (slot : nat) :
  find_free_stoppoint_register c = Some slot ->
  (slot < 4)%nat /\ local_enable c slot = false.
Proof.
  unfold find_free_stoppoint_register. intros H.
  apply find_some in H as [Hin Hb]. apply negb_true_iff in Hb.
  split; [| done]. cbn in Hin. lia.
Qed.



End dr7_bits.

(** ** The allocator, outcome by outcome *)
Section allocator.

Lemma dr7_insert_other (regs : list Z) (i : nat) (v : Z) (t : tracee) :
  i <> 7%nat -> dr7 (set_debug_regs (<[i := v]> regs) t) = default 0 (regs !! 7%nat).
Proof.
  intros Hi. unfold dr7, dr. cbn. by rewrite list_lookup_insert_ne.
Qed.











End allocator.

(** ** A failing [enable] *)

Section failing_enable.

Lemma pokeuser_logged (i : nat) (w : Z) (t : tracee) :
  calls (ptrace_pokeuser i w t).1 = PTRACE_POKEUSER i w :: calls t.
Proof. unfold ptrace_pokeuser. by destruct (refusal t). Qed.

Lemma pokeuser_low_keeps_dr7 (i : nat) (w : Z) (t : tracee) :
  (i < 4)%nat -> dr7 (ptrace_pokeuser i w t).1 = dr7 t.
Proof.
  intros Hi. unfold ptrace_pokeuser. destruct (refusal t); [done|].
  unfold dr7, dr. cbn. by rewrite list_lookup_insert_ne by lia.
Qed.

(** The allocation that throws: a write to the user area failed, and the
    error has its errno; or no register is free, or the size is none, and no
    kernel call was made. DR7 is what it was: no slot has been taken. *)
Lemma set_hardware_stoppoint_throws (a : Z) (m : stoppoint_mode) (size : Z)
    (t t' : tracee) (e : error) :
  set_hardware_stoppoint a m size t = (t', Throws e) ->
  dr7 t' = dr7 t
  /\ ((exists n, n <> 0 /\ os_errno e = Some n
                 /\ (length (calls t) < length (calls t'))%nat)
      \/ (t' = t /\ os_errno e = None
          /\ (find_free_stoppoint_register (dr7 t) = None
              \/ encode_hardware_stoppoint_size size = None))).
Proof.
  unfold set_hardware_stoppoint.
  destruct (find_free_stoppoint_register (dr7 t)) as [slot |] eqn:Ef.
  2:{ intros [= <- <-]. split; [done|]. right. split; [done|]. split; [done|]. by left. }
  apply find_free_Some in Ef as [Hslot _].
  destruct (encode_hardware_stoppoint_size size) as [sf |] eqn:Es.
  2:{ intros [= <- <-]. split; [done|]. right. split; [done|]. split; [done|]. by right. }
  pose proof (pokeuser_failure slot a t) as Hf1.
  pose proof (pokeuser_logged slot a t) as Hc1.
  pose proof (pokeuser_low_keeps_dr7 slot a t Hslot) as Hd1.
  destruct (ptrace_pokeuser slot a t) as [t1 r1]. cbn [fst snd] in *.
  destruct (ret r1 <? 0) eqn:E1.
  { apply Z.ltb_lt in E1. destruct (Hf1 E1) as (Hn & _).
    intros [= <- <-]. split; [done|]. left. eexists. split; [exact Hn|].
    split; [done|]. rewrite Hc1. cbn. lia. }
  match goal with |- context [ptrace_pokeuser 7 ?w t1] =>
    pose proof (pokeuser_failure 7 w t1) as Hf2;
    pose proof (pokeuser_logged 7 w t1) as Hc2;
    destruct (ptrace_pokeuser 7 w t1) as [t2 r2] end.
  cbn [fst snd] in *.
  destruct (ret r2 <? 0) eqn:E2; [| done].
  apply Z.ltb_lt in E2. destruct (Hf2 E2) as (Hn & _ & Hregs).
  intros [= <- <-]. split.
  - unfold dr7, dr in *. by rewrite Hregs.
  - left. eexists. split; [exact Hn|]. split; [done|].
    rewrite Hc2, Hc1. cbn. lia.
Qed.

End failing_enable.

(** C3 (amended). A failing [enable] of a disabled site. When the peek
    fails, [enable] throws with the errno of the peek and the site is what it
    was. When the peek runs and the poke fails, [enable] throws with the errno
    of the poke (not 0) and the site has the low byte of the word peeked in
    [saved_data_]. When the allocation of a hardware site throws, the site
    is what it was; when it is the write of the address register, or after
    it the write of DR7, that fails, [enable] throws with the errno of that
    write (not 0). Whatever made [enable] throw, the site is still disabled,
    differs from what it was in [saved_data_] at most, the tracee's memory
    and DR7 are what they were, and the error has the errno (not 0) of a
    kernel call that was made; unless the site is a hardware site and no
    debug register is free, when no kernel call was made, nothing has
    changed and the error has no errno. *)
Theorem enable_failure_leaves_site_disabled (s : breakpoint_site) (t : tracee) :
  is_enabled_ s = false ->
  let p := ptrace_peekdata (address_ s) t in
  let q := ptrace_pokedata (address_ s) (data_with_int3 (ret p.2)) p.1 in
  (is_hardware_ s = false -> errno p.2 <> 0 ->
     enable s t =
       (s, p.1, Throws (send_errno "Enabling breakpoint site failed" (errno p.2))))
  /\ (is_hardware_ s = false -> errno p.2 = 0 -> ret q.2 < 0 ->
     enable s t =
       (with_saved_data (Int.to_u8 (Z.land (Int.to_u64 (ret p.2)) 255)) s, q.1,
        Throws (send_errno "Enabling breakpoing site failed" (errno q.2)))
     /\ errno q.2 <> 0)
  /\ (is_hardware_ s = true -> forall t' e,
     set_hardware_breakpoint (id_ s) (address_ s) t = (t', Throws e) ->
     enable s t = (s, t', Throws e))
  /\ (is_hardware_ s = true -> forall slot,
     find_free_stoppoint_register (dr7 t) = Some slot ->
     let u := ptrace_pokeuser slot (address_ s) t in
     let v := ptrace_pokeuser 7
                (control_with (dr7 t) slot (encode_hardware_stoppoint_mode execute) 0)
                u.1 in
     (ret u.2 < 0 ->
        errno u.2 <> 0
        /\ exists message,
             enable s t = (s, u.1, Throws (send_errno message (errno u.2))))
     /\ (0 <= ret u.2 -> ret v.2 < 0 ->
        errno v.2 <> 0
        /\ exists message,
             enable s t = (s, v.1, Throws (send_errno message (errno v.2)))))
  /\ (forall s' t' e, enable s t = (s', t', Throws e) ->
     is_enabled_ s' = false
     /\ s' = with_saved_data (saved_data_ s') s
     /\ memory t' = memory t
     /\ dr7 t' = dr7 t
     /\ (is_hardware_ s = false -> exists n, n <> 0 /\ os_errno e = Some n)
     /\ ((exists n, n <> 0 /\ os_errno e = Some n
                   /\ (length (calls t) < length (calls t'))%nat)
         \/ (is_hardware_ s = true /\ find_free_stoppoint_register (dr7 t) = None
             /\ s' = s /\ t' = t /\ os_errno e = None))).
Proof.
  intros He. cbv zeta.
  destruct (peek_keeps_state (address_ s) t) as (Hm & Hpr & Hpc).
  unfold enable. rewrite He.
  destruct s as [i a en sv hw int idx]. cbn [is_enabled_ is_hardware_ address_ id_] in *.
  subst en. destruct hw.
  - split; [done|]. split; [done|]. split; [| split].
    + intros _ t' e ->. done.
    + intros _ slot Hfree. unfold set_hardware_breakpoint, set_hardware_stoppoint.
      rewrite Hfree. change (encode_hardware_stoppoint_size 1) with (Some 0).
      cbv beta iota zeta.
      fold (control_with (dr7 t) slot (encode_hardware_stoppoint_mode execute) 0).
      pose proof (pokeuser_failure slot a t) as Hf1.
      destruct (ptrace_pokeuser slot a t) as [t1 r1]. cbn [fst snd] in *.
      split.
      * intros Hr. destruct (Hf1 Hr) as (Hn & _).
        apply Z.ltb_lt in Hr as ->. split; [done | by eexists].
      * intros Hr. apply Z.ltb_ge in Hr as ->.
        pose proof (pokeuser_failure 7
                      (control_with (dr7 t) slot (encode_hardware_stoppoint_mode execute) 0)
                      t1) as Hf2.
        destruct (ptrace_pokeuser 7 _ t1) as [t2 r2]. cbn [fst snd] in *.
        intros Hr2. destruct (Hf2 Hr2) as (Hn & _).
        apply Z.ltb_lt in Hr2 as ->. split; [done | by eexists].
    + intros s' t' e.
      pose proof (set_hardware_stoppoint_memory a execute 1 t) as Hsm.
      unfold set_hardware_breakpoint.
      destruct (set_hardware_stoppoint a execute 1 t) as [t1 [k | e1]] eqn:Es; [done|].
      intros [= <- <- <-]. cbn [fst] in Hsm.
      destruct (set_hardware_stoppoint_throws _ _ _ _ _ _ Es)
        as [Hd [(n & Hn & Hen & Hlen) | (-> & Hen & [Hfree | Hsize])]].
      * repeat split; try done. left. by exists n.
      * repeat split; try done. by right.
      * done.
  - destruct (ptrace_peekdata a t) as [t1 r1]. cbn [fst snd] in *.
    fold (data_with_int3 (ret r1)).
    destruct (errno r1 =? 0) eqn:E0; cbn [negb].
    + apply Z.eqb_eq in E0.
      pose proof (poke_failure a (data_with_int3 (ret r1)) t1) as Hp.
      pose proof (poke_calls a (data_with_int3 (ret r1)) t1) as Hqc.
      destruct (ptrace_pokedata a (data_with_int3 (ret r1)) t1) as [t2 r2].
      cbn [fst snd] in *.
      destruct (ret r2 <? 0) eqn:E1.
      * apply Z.ltb_lt in E1. destruct (Hp E1) as (Hn & Hm' & Hr').
        assert (Hd : dr7 t2 = dr7 t) by (unfold dr7, dr; by rewrite Hr', Hpr).
        assert (Hl : (length (calls t) < length (calls t2))%nat)
          by (rewrite Hqc, Hpc; cbn; lia).
        split; [intros; lia|]. split; [done|]. split; [done|]. split; [done|].
        intros s' t' e [= <- <- <-]. cbn.
        split; [done|]. split; [done|]. split; [congruence|]. split; [done|].
        split; [intros _; by eexists | left; by eexists].
      * apply Z.ltb_ge in E1.
        split; [intros; lia|]. split; [intros; lia|]. by repeat split.
    + apply Z.eqb_neq in E0.
      assert (Hd : dr7 t1 = dr7 t) by (unfold dr7, dr; by rewrite Hpr).
      assert (Hl : (length (calls t) < length (calls t1))%nat)
        by (rewrite Hpc; cbn; lia).
      split; [done|]. split; [intros; lia|]. split; [done|]. split; [done|].
      intros s' t' e [= <- <- <-]. cbn.
      split; [done|]. split; [done|]. split; [done|]. split; [done|].
      split; [intros _; by eexists | left; by eexists].
Qed.

(** ** Slots, call after call *)
Section slots.











End slots.

Section slots_preserved.












End slots_preserved.

(** ** No slot is taken that no stop-point owns *)
Section accounted.













End accounted.

(** ** A full set of slots, and a slot given back *)
Section exhaustion.








End exhaustion.



(** ** Wait statuses *)
Section wait_statuses.
Import Int.





End wait_statuses.

(** ** Stop-point calls leave the execution of the tracee alone *)
Section execution_frame.












End execution_frame.

(** ** Resuming, stepping, waiting *)
Section lifecycle.

Lemma refusal_status (t : tracee) :
  refusal t = None -> status t = Traced_stop.
Proof.
  unfold refusal. destruct (next_fault t); [done|]. by destruct (status t).
Qed.










(** *** Construction: [launch] and [attach] *)








End lifecycle.


(** * Further properties of [enable] and [disable] *)

Section round_trip.

Lemma undisturbed_patched (n : nat) (a c : Z) (bs : list Z) (t : tracee) :
  undisturbed (2 + n) t -> undisturbed n (patched a c bs t).
Proof.
  intros [Hs Hf]. split; [done|]. cbn [patched faults].
  destruct (faults t) as [| f1 [| f2 fs]]; cbn in *.
  - by rewrite take_nil.
  - by rewrite take_nil.
  - apply Forall_cons in Hf as [_ Hf]. by apply Forall_cons in Hf as [_ Hf].
Qed.

Lemma undisturbed_le (n m : nat) (t : tracee) :
  (n <= m)%nat -> undisturbed m t -> undisturbed n t.
Proof.
  intros Hle [Hs Hf]. split; [done|].
  replace n with (n `min` m)%nat by lia. rewrite <- take_take. by apply Forall_take.
Qed.

Lemma patched_load (a b c : Z) (bs : list Z) (t : tracee) :
  load_bytes (memory t) a 8 = Some (b :: bs) ->
  load_bytes (memory (patched a c bs t)) a 8 = Some (c :: bs).
Proof. intros Hl. cbn [patched memory]. by eapply load_bytes_insert_head. Qed.

Lemma patched_back (a b c : Z) (bs : list Z) (t : tracee) :
  load_bytes (memory t) a 8 = Some (b :: bs) ->
  memory (patched a b bs (patched a c bs t)) = memory t.
Proof.
  intros Hl%load_bytes_head. cbn [patched memory].
  rewrite insert_insert_eq. by apply insert_id.
Qed.

End round_trip.

(** X1. A disabled software site on a mapped word, the kernel letting four
    calls run: [enable] followed by [disable] returns, the site is disabled
    again with the byte of its address in [saved_data_], and the tracee's
    memory is the one before the two calls; its debug registers too. Four
    kernel calls were made, a peek and a poke by each method. *)
Theorem enable_then_disable_restores_memory
    (s : breakpoint_site) (t : tracee) (b : Z) (bs : list Z) :
  is_enabled_ s = false -> is_hardware_ s = false ->
  undisturbed 4 t ->
  load_bytes (memory t) (address_ s) 8 = Some (b :: bs) ->
  Forall Int.is_byte (b :: bs) ->
  exists t',
    and_then enable disable s t = (with_saved_data b s, t', Returns tt)
    /\ memory t' = memory t
    /\ debug_regs t' = debug_regs t
    /\ calls t' =
         [PTRACE_POKEDATA (address_ s) (Int.le_word (b :: bs));
          PTRACE_PEEKDATA (address_ s);
          PTRACE_POKEDATA (address_ s) (Int.le_word (204 :: bs));
          PTRACE_PEEKDATA (address_ s)] ++ calls t.
Proof.
  intros He Hh Hq Hl Hbs.
  pose proof (Forall_inv Hbs) as Hb. pose proof (Forall_inv_tail Hbs) as Htl.
  unfold and_then.
  rewrite (enable_software_ok s t b bs);
    [| done | done | apply (undisturbed_le 2 4); [lia | done] | done | done].
  set (s1 := with_is_enabled true (with_saved_data b s)).
  rewrite (disable_software_ok s1 (patched (address_ s) 204 bs t) 204 bs); try done.
  - eexists. split; [| split; [| split]].
    + f_equal. f_equal. destruct s. cbn in *. by subst.
    + by apply (patched_back _ b).
    + done.
    + done.
  - by apply undisturbed_patched.
  - by apply (patched_load _ b).
  - constructor; [unfold Int.is_byte; lia | done].
Qed.

(** ** What the methods keep and what they touch *)

Section footprint.

Lemma spliced_low_byte (data c : Z) :
  0 <= c < 256 ->
  Z.land (Z.lor (Z.land data (Int.to_u64 (Z.lnot 255))) c) 255 = c.
Proof.
  intros Hc. rewrite Z.land_lor_distr_l, <- Z.land_assoc.
  change (Z.land (Int.to_u64 (Z.lnot 255)) 255) with 0.
  rewrite Z.land_0_r, Z.lor_0_l.
  change 255 with (Z.ones 8). rewrite Z.land_ones by lia.
  apply Z.mod_small. simpl. lia.
Qed.

Lemma spliced_u64 (data c : Z) :
  0 <= data < 2 ^ 64 -> 0 <= c < 256 ->
  0 <= Z.lor (Z.land data (Int.to_u64 (Z.lnot 255))) c < 2 ^ 64.
Proof.
  intros Hd Hc.
  assert (H0 : 0 <= Z.lor (Z.land data (Int.to_u64 (Z.lnot 255))) c).
  { apply Z.lor_nonneg. split; [apply Z.land_nonneg; lia | lia]. }
  split; [done|].
  destruct (Z.eq_dec (Z.lor (Z.land data (Int.to_u64 (Z.lnot 255))) c) 0) as [-> | Hne];
    [done|].
  apply Z.log2_lt_pow2; [lia|].
  rewrite Z.log2_lor by (try apply Z.land_nonneg; lia).
  apply Z.max_lub_lt.
  - destruct (Z.eq_dec (Z.land data (Int.to_u64 (Z.lnot 255))) 0) as [-> | Hn0]; [done|].
    assert (0 <= Z.land data (Int.to_u64 (Z.lnot 255))) by (apply Z.land_nonneg; lia).
    apply Z.le_lt_trans with (Z.log2 data).
    + etransitivity; [apply Z.log2_land; [lia | by vm_compute] | apply Z.le_min_l].
    + destruct (Z.eq_dec data 0) as [-> | Hd0]; [done|].
      apply Z.log2_lt_pow2; lia.
  - destruct (Z.eq_dec c 0) as [-> | Hc0]; [done|].
    apply Z.log2_lt_pow2; [lia|]. simpl. lia.
Qed.

Lemma to_u64_range (z : Z) : 0 <= Int.to_u64 z < 2 ^ 64.
Proof. unfold Int.to_u64. apply Z.mod_pos_bound. done. Qed.

Lemma to_u8_range (z : Z) : 0 <= Int.to_u8 z < 256.
Proof. unfold Int.to_u8. apply (Z.mod_pos_bound z (2 ^ 8)). done. Qed.

Lemma peek_calls (a : Z) (t : tracee) :
  calls (ptrace_peekdata a t).1 = PTRACE_PEEKDATA a :: calls t
  /\ memory (ptrace_peekdata a t).1 = memory t.
Proof.
  unfold ptrace_peekdata. destruct (refusal t); [done|].
  by destruct (load_bytes _ _ _).
Qed.

Lemma enable_software_calls (s s' : breakpoint_site) (t t' : tracee) (r : result unit) :
  is_hardware_ s = false -> enable s t = (s', t', r) ->
  software_calls (address_ s) 204 (calls t) (calls t') r.
Proof.
  intros Hh. unfold enable. rewrite Hh.
  destruct (is_enabled_ s); [intros [= _ <- _]; by left|].
  pose proof (peek_calls (address_ s) t) as [Hc _].
  destruct (ptrace_peekdata _ _) as [t1 r1]. cbn [fst] in Hc.
  destruct (negb (errno r1 =? 0)).
  { intros [= _ <- <-]. right. left. split; [done | by eexists]. }
  cbv zeta.
  match goal with |- context [ptrace_pokedata ?a ?w ?t] =>
    pose proof (poke_calls a w t) as Hp; set (word := w) in * end.
  destruct (ptrace_pokedata _ _ _) as [t2 r2]. cbn [fst] in Hp.
  assert (Hw : software_calls (address_ s) 204 (calls t) (calls t2) r).
  { right. right. exists word. rewrite Hp, Hc. split; [done|]. split.
    - by apply spliced_low_byte.
    - apply spliced_u64; [apply to_u64_range | lia]. }
  destruct (ret r2 <? 0); by intros [= _ <- _].
Qed.

Lemma disable_software_calls (s s' : breakpoint_site) (t t' : tracee) (r : result unit) :
  is_hardware_ s = false -> disable s t = (s', t', r) ->
  software_calls (address_ s) (Int.to_u8 (saved_data_ s)) (calls t) (calls t') r.
Proof.
  intros Hh. unfold disable. rewrite Hh.
  destruct (negb (is_enabled_ s)); [intros [= _ <- _]; by left|].
  pose proof (peek_calls (address_ s) t) as [Hc _].
  destruct (ptrace_peekdata _ _) as [t1 r1]. cbn [fst] in Hc.
  destruct (negb (errno r1 =? 0)).
  { intros [= _ <- <-]. right. left. split; [done | by eexists]. }
  cbv zeta.
  match goal with |- context [ptrace_pokedata ?a ?w ?t] =>
    pose proof (poke_calls a w t) as Hp; set (word := w) in * end.
  destruct (ptrace_pokedata _ _ _) as [t2 r2]. cbn [fst] in Hp.
  assert (Hw : software_calls (address_ s) (Int.to_u8 (saved_data_ s))
                 (calls t) (calls t2) r).
  { right. right. exists word. rewrite Hp, Hc. split; [done|]. split.
    - apply spliced_low_byte, to_u8_range.
    - apply spliced_u64; [apply to_u64_range | apply to_u8_range]. }
  destruct (ret r2 <? 0); by intros [= _ <- _].
Qed.

End footprint.

(** X2. The kernel calls of a software site: [enable] and [disable] make no
    call at all, or one PTRACE_PEEKDATA at the site's address and then throw,
    or that peek followed by one PTRACE_POKEDATA at the same address; there
    is never a poke without the peek before it, never a call at another
    address, never a third call. The word poked is a 64-bit word whose low
    byte is 0xCC for [enable] and [saved_data_] for [disable], whatever the
    peek returned. *)
Theorem software_site_kernel_calls (s : breakpoint_site) (t : tracee) :
  is_hardware_ s = false ->
  software_calls (address_ s) 204 (calls t) (calls (enable s t).1.2) (enable s t).2
  /\ software_calls (address_ s) (Int.to_u8 (saved_data_ s))
       (calls t) (calls (disable s t).1.2) (disable s t).2
  /\ (is_enabled_ s = true -> calls (enable s t).1.2 = calls t)
  /\ (is_enabled_ s = false -> calls (disable s t).1.2 = calls t).
Proof.
  intros Hh. split; [| split; [| split]].
  - destruct (enable s t) as [[s' t'] r] eqn:E. by eapply enable_software_calls.
  - destruct (disable s t) as [[s' t'] r] eqn:E. by eapply disable_software_calls.
  - intros He. unfold enable. by rewrite He.
  - intros He. unfold disable. by rewrite He.
Qed.

Section one_byte.

Lemma one_byte_changed_refl (a : Z) (t t' : tracee) :
  valid_memory (memory t) -> memory t' = memory t -> debug_regs t' = debug_regs t ->
  one_byte_changed a t t'.
Proof. intros Hv Hm Hd. unfold one_byte_changed. by rewrite Hm. Qed.

Lemma one_byte_changed_insert (a c : Z) (t t' : tracee) :
  valid_memory (memory t) -> Int.is_byte c -> is_Some (memory t !! a) ->
  memory t' = <[a := c]> (memory t) -> debug_regs t' = debug_regs t ->
  one_byte_changed a t t'.
Proof.
  intros Hv Hc Hs Hm Hd. unfold one_byte_changed. rewrite Hm.
  split; [| split; [| split]]; [| | | done].
  - intros a' Hne. by rewrite lookup_insert_ne.
  - rewrite dom_insert_L. apply elem_of_dom in Hs.
    apply subseteq_union_1_L. by apply singleton_subseteq_l.
  - by apply valid_memory_insert.
Qed.

Lemma poke_mapped (a w : Z) (t : tracee) :
  memory (ptrace_pokedata a w t).1 = memory t \/ is_Some (memory t !! a).
Proof.
  unfold ptrace_pokedata. destruct (refusal t); [by left|].
  destruct (load_bytes (memory t) a 8) as [bs |] eqn:El; [| by left].
  right. destruct bs as [| b bs]; [by apply load_bytes_length in El|].
  apply load_bytes_head in El. by eexists.
Qed.

End one_byte.

(** X3. The bytes a software site touches: over a tracee whose memory holds
    bytes, [enable] and [disable], returning or throwing, leave every byte
    of the tracee as it was except possibly the byte at the site's address;
    they map and unmap nothing, and leave the debug registers alone. *)
Theorem software_site_changes_one_byte (s : breakpoint_site) (t : tracee) :
  valid_memory (memory t) -> is_hardware_ s = false ->
  one_byte_changed (address_ s) t (enable s t).1.2
  /\ one_byte_changed (address_ s) t (disable s t).1.2.
Proof.
  intros Hv Hh. split.
  - destruct (enable s t) as [[s' t'] r] eqn:E. cbn [fst snd].
    destruct (enable_software_effect s s' t t' r Hv Hh E)
      as (Hd & _ & _ & _ & [(_ & Hm & _) | (_ & _ & _ & Hb & Hm)]).
    + by apply one_byte_changed_refl.
    + apply (one_byte_changed_insert _ 204); try done; by eexists.
  - destruct (disable s t) as [[s' t'] r] eqn:E. cbn [fst snd].
    destruct (disable_software_effect s s' t t' r Hv Hh E)
      as (Hd & _ & _ & _ & _ & [(_ & Hm) | (He & _ & _ & Hm)]).
    + by apply one_byte_changed_refl.
    + destruct (decide (memory t' = memory t)) as [Heq | Hne];
        [by apply one_byte_changed_refl|].
      apply (one_byte_changed_insert _ (Int.to_u8 (saved_data_ s))); try done.
      { apply to_u8_byte. }
      revert E Hne. unfold disable. rewrite He, Hh. cbn [negb].
      pose proof (peek_calls (address_ s) t) as [_ Hpm].
      destruct (ptrace_peekdata _ _) as [t1 r1]. cbn [fst] in Hpm.
      destruct (negb (errno r1 =? 0)); [intros [= _ <- _]; congruence|].
      cbv zeta.
      match goal with |- context [ptrace_pokedata ?a ?w ?t] =>
        pose proof (poke_mapped a w t) as Hp end.
      destruct (ptrace_pokedata _ _ _) as [t2 r2]. cbn [fst] in Hp.
      rewrite Hpm in Hp.
      destruct (ret r2 <? 0); intros [= _ <- _] Hne; by destruct Hp.
Qed.

(** X4. What no call of [enable] or [disable] changes of a site, hardware or
    software, returning or throwing: its id, its address, whether it is a
    hardware site, whether it is internal. [disable] never changes
    [saved_data_]; [enable] changes it on the software path only; and the
    methods of a software site never change [hardware_register_index_]. *)
Theorem methods_keep_identity (s : breakpoint_site) (t : tracee) :
  same_identity s (enable s t).1.1
  /\ same_identity s (disable s t).1.1
  /\ saved_data_ (disable s t).1.1 = saved_data_ s
  /\ (is_hardware_ s = true -> saved_data_ (enable s t).1.1 = saved_data_ s)
  /\ (is_hardware_ s = false ->
      hardware_register_index_ (enable s t).1.1 = hardware_register_index_ s
      /\ hardware_register_index_ (disable s t).1.1 = hardware_register_index_ s).
Proof.
  split; [| split; [| split; [| split]]].
  - destruct (enable s t) as [[s' t'] r] eqn:E. by eapply enable_identity.
  - destruct (disable s t) as [[s' t'] r] eqn:E. by eapply disable_identity.
  - unfold disable. destruct (negb (is_enabled_ s)); [done|].
    destruct (is_hardware_ s).
    + by destruct (clear_hardware_stoppoint _ _) as [t1 [i | e]].
    + destruct (ptrace_peekdata _ _) as [t1 r1].
      destruct (negb (errno r1 =? 0)); [done|].
      destruct (ptrace_pokedata _ _ _) as [t2 r2]. by destruct (ret r2 <? 0).
  - intros Hh. unfold enable. rewrite Hh. destruct (is_enabled_ s); [done|].
    by destruct (set_hardware_breakpoint _ _ _) as [t1 [i | e]].
  - intros Hh. unfold enable, disable. rewrite Hh. split.
    + destruct (is_enabled_ s); [done|].
      destruct (ptrace_peekdata _ _) as [t1 r1].
      destruct (negb (errno r1 =? 0)); [done|].
      destruct (ptrace_pokedata _ _ _) as [t2 r2]. by destruct (ret r2 <? 0).
    + destruct (negb (is_enabled_ s)); [done|].
      destruct (ptrace_peekdata _ _) as [t1 r1].
      destruct (negb (errno r1 =? 0)); [done|].
      destruct (ptrace_pokedata _ _ _) as [t2 r2]. by destruct (ret r2 <? 0).
Qed.

(** X5. The flag against the outcome, for hardware and software sites alike:
    after an [enable] that returns the site is enabled, after a [disable]
    that returns it is disabled, and a hardware site that [disable] really
    cleared has [hardware_register_index_] -1. A [disable] that throws
    leaves the whole site as it was, enabled, with the slot index it had; an
    [enable] that throws leaves it disabled with the index it had. *)
Theorem outcome_against_enabled_flag (s : breakpoint_site) (t : tracee) :
  match (enable s t).2 with
  | Returns _ => is_enabled_ (enable s t).1.1 = true
  | Throws _ =>
      is_enabled_ s = false /\ is_enabled_ (enable s t).1.1 = false
      /\ hardware_register_index_ (enable s t).1.1 = hardware_register_index_ s
  end
  /\ match (disable s t).2 with
     | Returns _ =>
         is_enabled_ (disable s t).1.1 = false
         /\ (is_enabled_ s = true -> is_hardware_ s = true ->
             hardware_register_index_ (disable s t).1.1 = -1)
     | Throws _ => is_enabled_ s = true /\ (disable s t).1.1 = s
     end.
Proof.
  split.
  - unfold enable. destruct (is_enabled_ s) eqn:He; [done|].
    destruct (is_hardware_ s).
    + by destruct (set_hardware_breakpoint _ _ _) as [t1 [i | e]].
    + destruct (ptrace_peekdata _ _) as [t1 r1].
      destruct (negb (errno r1 =? 0)); [done|].
      destruct (ptrace_pokedata _ _ _) as [t2 r2]. by destruct (ret r2 <? 0).
  - unfold disable. destruct (is_enabled_ s) eqn:He; cbn [negb]; [| done].
    destruct (is_hardware_ s).
    + by destruct (clear_hardware_stoppoint _ _) as [t1 [i | e]].
    + destruct (ptrace_peekdata _ _) as [t1 r1].
      destruct (negb (errno r1 =? 0)); [done|].
      destruct (ptrace_pokedata _ _ _) as [t2 r2]. by destruct (ret r2 <? 0).
Qed.

(** X6. Two software sites at one address (the class itself does not forbid
    them). Enabled one after the other, the second saves the 0xCC of the
    first. Disabled in the order in which they were enabled, all four calls
    return and both sites are disabled, but the int3 is left in the tracee;
    disabled in the reverse order, the tracee's memory is the original
    again. *)
Theorem two_sites_at_one_address
    (s1 s2 : breakpoint_site) (t : tracee) (b : Z) (bs : list Z) :
  is_enabled_ s1 = false -> is_hardware_ s1 = false ->
  is_enabled_ s2 = false -> is_hardware_ s2 = false ->
  address_ s2 = address_ s1 ->
  undisturbed 8 t ->
  load_bytes (memory t) (address_ s1) 8 = Some (b :: bs) ->
  Forall Int.is_byte (b :: bs) ->
  let '(s1', t1, _) := enable s1 t in
  let '(s2', t2, _) := enable s2 t1 in
  saved_data_ s1' = b /\ saved_data_ s2' = 204
  /\ (let '(s1'', t3, r3) := disable s1' t2 in
      let '(s2'', t4, r4) := disable s2' t3 in
      r3 = Returns tt /\ r4 = Returns tt
      /\ is_enabled_ s1'' = false /\ is_enabled_ s2'' = false
      /\ memory t4 = <[address_ s1 := 204]> (memory t))
  /\ (let '(s2'', t3, r3) := disable s2' t2 in
      let '(s1'', t4, r4) := disable s1' t3 in
      r3 = Returns tt /\ r4 = Returns tt
      /\ is_enabled_ s1'' = false /\ is_enabled_ s2'' = false
      /\ memory t4 = memory t).
Proof.
  intros He1 Hh1 He2 Hh2 Ha Hq Hl Hbs.
  pose proof (Forall_inv Hbs) as Hb. pose proof (Forall_inv_tail Hbs) as Htl.
  assert (Hcc : Int.is_byte 204) by (unfold Int.is_byte; lia).
  rewrite (enable_software_ok s1 t b bs);
    [| done | done | apply (undisturbed_le 2 8); [lia | done] | done | done].
  set (a := address_ s1) in *. set (t1 := patched a 204 bs t).
  assert (Hq1 : undisturbed 6 t1) by (apply (undisturbed_patched 6); exact Hq).
  assert (Hl1 : load_bytes (memory t1) a 8 = Some (204 :: bs))
    by (by apply (patched_load _ b)).
  rewrite (enable_software_ok s2 t1 204 bs);
    [| done | done | apply (undisturbed_le 2 6); [lia | done] | by rewrite Ha
     | by constructor].
  rewrite Ha. set (t2 := patched a 204 bs t1).
  assert (Hq2 : undisturbed 4 t2) by (apply (undisturbed_patched 4); exact Hq1).
  assert (Hl2 : load_bytes (memory t2) a 8 = Some (204 :: bs))
    by (by apply (patched_load _ 204)).
  set (s1' := with_is_enabled true (with_saved_data b s1)).
  set (s2' := with_is_enabled true (with_saved_data 204 s2)).
  split; [done|]. split; [done|]. split.
  - rewrite (disable_software_ok s1' t2 204 bs);
      [| done | done | apply (undisturbed_le 2 4); [lia | done] | done
       | by constructor | done].
    change (address_ s1') with a. change (saved_data_ s1') with b.
    set (t3 := patched a b bs t2).
    assert (Hq3 : undisturbed 2 t3) by (apply (undisturbed_patched 2); exact Hq2).
    assert (Hl3 : load_bytes (memory t3) a 8 = Some (b :: bs))
      by (by apply (patched_load _ 204)).
    rewrite (disable_software_ok s2' t3 b bs);
      [| done | done | done | by (cbn; rewrite Ha) | done | done].
    repeat (split; [done|]).
    cbn [patched memory].
    change (address_ s2') with (address_ s2). change (saved_data_ s2') with 204.
    rewrite Ha. subst t3 t2 t1. cbn [patched memory].
    by rewrite !insert_insert_eq.
  - rewrite (disable_software_ok s2' t2 204 bs);
      [| done | done | apply (undisturbed_le 2 4); [lia | done]
       | by (cbn; rewrite Ha) | by constructor | done].
    change (address_ s2') with (address_ s2). rewrite Ha.
    change (saved_data_ s2') with 204.
    set (t3 := patched a 204 bs t2).
    assert (Hq3 : undisturbed 2 t3) by (apply (undisturbed_patched 2); exact Hq2).
    assert (Hl3 : load_bytes (memory t3) a 8 = Some (204 :: bs))
      by (by apply (patched_load _ 204)).
    rewrite (disable_software_ok s1' t3 204 bs);
      [| done | done | done | done | by constructor | done].
    repeat (split; [done|]).
    cbn [patched memory].
    change (address_ s1') with a. change (saved_data_ s1') with b.
    subst t3 t2 t1. cbn [patched memory].
    rewrite !insert_insert_eq. apply insert_id. by eapply load_bytes_head.
Qed.

(** * The command line *)

Section strings.
Import Stdlib.Strings.Ascii.
#[local] Arguments String.append !_ _ / : simpl nomatch.

Lemma length_append (s1 s2 : string) :
  String.length (s1 +:+ s2) = (String.length s1 + String.length s2)%nat.
Proof. induction s1 as [| c s1 IH]; simpl; [done | by f_equal]. Qed.

Lemma append_cons (c : ascii) (s1 s2 : string) :
  String c s1 +:+ s2 = String c (s1 +:+ s2).
Proof. done. Qed.

Lemma append_empty_r (s : string) : s +:+ EmptyString = s.
Proof. induction s as [| c s IH]; simpl; [done | by f_equal]. Qed.

Lemma append_last_inj (s1 s2 : string) (c1 c2 : ascii) :
  s1 +:+ String c1 EmptyString = s2 +:+ String c2 EmptyString -> s1 = s2 /\ c1 = c2.
Proof.
  revert s2. induction s1 as [| x s1 IH]; intros [| y s2]; cbn.
  - by intros [= ->].
  - intros [= -> H]. by destruct s2.
  - intros [= -> H]. by destruct s1.
  - intros [= -> H]. destruct (IH _ H) as [-> ->]. done.
Qed.

Lemma list_ascii_of_string_cons (c : ascii) (s : string) :
  String.list_ascii_of_string (String c s) = c :: String.list_ascii_of_string s.
Proof. done. Qed.

End strings.

Section split.
Import Stdlib.Strings.Ascii.
Import Shell.
#[local] Arguments String.append !_ _ / : simpl nomatch.

Lemma getline_shorter (ss : string) (d : ascii) :
  ss <> EmptyString ->
  (String.length (getline ss d).2 < String.length ss)%nat.
Proof.
  induction ss as [| c rest IH]; [done|]. intros _. cbn [getline].
  case_bool_decide; cbn; [lia|].
  destruct rest as [| c' rest']; [cbn; lia|].
  specialize (IH ltac:(done)).
  destruct (getline (String c' rest') d) as [item ss']. cbn in *. lia.
Qed.

Lemma getline_items (ss : string) (d : ascii) :
  ss <> EmptyString ->
  items ss d = (getline ss d).1 :: items (getline ss d).2 d.
Proof.
  induction ss as [| c rest IH]; [done|]. intros _. cbn [getline items].
  case_bool_decide; [done|].
  destruct rest as [| c' rest'].
  - done.
  - specialize (IH ltac:(done)). rewrite IH.
    by destruct (getline (String c' rest') d) as [item ss'].
Qed.

Lemma split_loop_items (fuel : nat) (ss : string) (d : ascii) (out : list string) :
  (String.length ss < fuel)%nat -> split_loop fuel ss d out = out ++ items ss d.
Proof.
  revert ss out. induction fuel as [| fuel IH]; intros ss out Hlt; [lia|].
  destruct ss as [| c rest]; [by rewrite app_nil_r|].
  cbn [split_loop].
  pose proof (getline_shorter (String c rest) d ltac:(done)) as Hs.
  pose proof (getline_items (String c rest) d ltac:(done)) as Hi.
  destruct (getline (String c rest) d) as [item ss']. cbn [fst snd] in *.
  rewrite IH by lia. rewrite Hi. by rewrite <- app_assoc.
Qed.

(** The loop of [split] has ended within its bound, and with more iterations
    allowed it returns the same. *)
Lemma split_items (str : string) (d : ascii) : split str d = items str d.
Proof. unfold split. by rewrite split_loop_items by lia. Qed.

Lemma split_loop_fuel (fuel : nat) (str : string) (d : ascii) :
  (String.length str < fuel)%nat -> split_loop fuel str d [] = split str d.
Proof. intros H. by rewrite split_items, split_loop_items. Qed.

Lemma items_nil (str : string) (d : ascii) : items str d = [] <-> str = EmptyString.
Proof.
  split; [| by intros ->].
  destruct str as [| c rest]; [done|]. cbn [items].
  case_bool_decide; [done|]. by destruct (items rest d).
Qed.

Lemma split_nil (str : string) (d : ascii) : split str d = [] <-> str = EmptyString.
Proof. rewrite split_items. apply items_nil. Qed.

Lemma items_no_delimiter (str : string) (d : ascii) :
  Forall (fun item => d ∉ String.list_ascii_of_string item) (items str d).
Proof.
  induction str as [| c rest IH]; cbn [items]; [constructor|].
  case_bool_decide as Hc.
  - constructor; [| done]. cbn. apply not_elem_of_nil.
  - destruct (items rest d) as [| item more].
    + repeat constructor. cbn. rewrite list_elem_of_singleton. congruence.
    + apply Forall_cons in IH as [Hi Hm]. constructor; [| done].
      rewrite list_ascii_of_string_cons, not_elem_of_cons. split; [congruence | done].
Qed.

Lemma concat_cons_char (sep : string) (c : ascii) (item : string) (more : list string) :
  String.concat sep (String c item :: more) = String c (String.concat sep (item :: more)).
Proof. by destruct more. Qed.

Lemma concat_items (str : string) (d : ascii) :
  let joined := String.concat (String d EmptyString) (items str d) in
  (joined = str /\ forall body, str <> body +:+ String d EmptyString)
  \/ str = joined +:+ String d EmptyString.
Proof.
  induction str as [| c rest IH]; cbn zeta.
  - left. split; [done|]. by intros [| x body].
  - cbn [items]. cbn zeta in IH. case_bool_decide as Hc.
    + subst c. destruct rest as [| c' rest'].
      * right. done.
      * destruct (items (String c' rest') d) as [| item more] eqn:Ei;
          [by apply items_nil in Ei|].
        change (String.concat (String d EmptyString) (EmptyString :: item :: more))
          with (String d (String.concat (String d EmptyString) (item :: more))).
        destruct IH as [[Hj Hne] | Hj].
        -- left. rewrite Hj. split; [done|].
           intros [| x body]; cbn; [done|]. intros [= -> H]. by eapply Hne.
        -- right. rewrite append_cons. by f_equal.
    + destruct (items rest d) as [| item more] eqn:Ei.
      * apply items_nil in Ei as ->. left. split; [done|].
        intros [| x body]; cbn; [congruence|]. intros [= -> H]. by destruct body.
      * rewrite concat_cons_char.
        destruct IH as [[Hj Hne] | Hj].
        -- left. rewrite Hj. split; [done|].
           intros [| x body]; cbn.
           ++ intros [= ? ?]. congruence.
           ++ intros [= -> H]. by eapply Hne.
        -- right. rewrite append_cons. by f_equal.
Qed.

(** X7. No item of [split] holds the delimiter. A string that ends with a
    delimiter has as many items as it has delimiters; a string that is not
    empty and does not end with one has one item more than it has
    delimiters: the characters after the last delimiter are an item only if
    there are any. *)
Theorem split_items_have_no_delimiter (str : string) (delimiter : ascii) :
  let delimiters (s : string) :=
    length (filter (fun c => c = delimiter) (String.list_ascii_of_string s)) in
  Forall (fun item => delimiter ∉ String.list_ascii_of_string item)
    (split str delimiter)
  /\ (forall body, str = body +:+ String delimiter EmptyString ->
        length (split str delimiter) = delimiters str)
  /\ (str <> EmptyString ->
      (forall body, str <> body +:+ String delimiter EmptyString) ->
      length (split str delimiter) = S (delimiters str)).
Proof.
  cbn zeta. split; [| split].
  - rewrite split_items. apply items_no_delimiter.
  - intros body ->. rewrite split_items. induction body as [| c rest IH].
    + change (EmptyString +:+ String delimiter EmptyString)
        with (String delimiter EmptyString).
      cbn [items]. rewrite bool_decide_eq_true_2 by done.
      by rewrite list_ascii_of_string_cons, filter_cons, decide_True.
    + cbn [String.append items]. rewrite list_ascii_of_string_cons, filter_cons.
      case_bool_decide as Hc.
      * rewrite decide_True by done. cbn [length]. by rewrite IH.
      * rewrite decide_False by done.
        destruct (items (rest +:+ String delimiter EmptyString) delimiter) eqn:Ei;
          [apply items_nil in Ei; by destruct rest|].
        cbn [length] in *. done.
  - rewrite split_items. induction str as [| c rest IH]; [done|]. intros _ Hend.
    assert (Hrest : rest <> EmptyString ->
              length (items rest delimiter)
              = S (length (filter (fun c => c = delimiter)
                             (String.list_ascii_of_string rest)))).
    { intros Hne. apply IH; [done|]. intros body ->.
      by apply (Hend (String c body)). }
    cbn [items]. rewrite list_ascii_of_string_cons, filter_cons.
    case_bool_decide as Hc.
    + subst c. rewrite decide_True by done. cbn [length]. f_equal. apply Hrest.
      intros ->. by apply (Hend EmptyString).
    + rewrite decide_False by done.
      destruct rest as [| c' rest']; [done|].
      specialize (Hrest ltac:(done)).
      destruct (items (String c' rest') delimiter); [done|]. done.
Qed.

(** X8. [split] against joining: the items joined with the delimiter between
    them are [str] again, less one delimiter at the end of [str] if it ends
    with one. So a string and the same string with one more delimiter at its
    end have the same items, unless the string is empty or already ends
    with a delimiter. *)
Theorem split_then_join (delimiter : ascii) :
  let sep := String delimiter EmptyString in
  (forall body, String.concat sep (split (body +:+ sep) delimiter) = body)
  /\ (forall str, (forall body, str <> body +:+ sep) ->
        String.concat sep (split str delimiter) = str).
Proof.
  cbn zeta. split.
  - intros body. rewrite split_items.
    destruct (concat_items (body +:+ String delimiter EmptyString) delimiter)
      as [[_ Hne] | Hj]; [by destruct (Hne body)|].
    by apply append_last_inj in Hj as [<- _].
  - intros str Hne. rewrite split_items.
    destruct (concat_items str delimiter) as [[Hj _] | Hj]; [done|].
    by destruct (Hne _ Hj).
Qed.

(** X9. [split] returns no item for the empty string only. For any other
    string the first item is what [std::getline] reads first, the
    characters before the first delimiter, and the other items are those of
    the characters after that delimiter; more iterations allowed to the
    loop change nothing. *)
Theorem split_first_item (str : string) (delimiter : ascii) :
  (split str delimiter = [] <-> str = EmptyString)
  /\ (str <> EmptyString ->
      split str delimiter
      = (getline str delimiter).1
          :: split (getline str delimiter).2 delimiter)
  /\ (forall fuel, (String.length str < fuel)%nat ->
      split_loop fuel str delimiter [] = split str delimiter).
Proof.
  split; [| split].
  - apply split_nil.
  - intros Hne. rewrite !split_items. by apply getline_items.
  - intros fuel. apply split_loop_fuel.
Qed.


(** ** Abbreviated commands *)

Lemma equal_spec (range other : string) :
  (String.length range <= String.length other)%nat ->
  exists b, equal range other = Some b
            /\ (b = true <-> exists rest, other = range +:+ rest).
Proof.
  revert other. induction range as [| c range IH]; intros other Hlen.
  - exists true. split; [done|]. split; [| done]. intros _. by exists other.
  - destruct other as [| d other]; [cbn in Hlen; lia|].
    cbn [equal]. case_bool_decide as Hc.
    + subst d. destruct (IH other) as (b & Hb & Hiff); [cbn in Hlen; lia|].
      exists b. split; [done|]. rewrite Hiff. split.
      * intros [rest ->]. by exists rest.
      * intros [rest [= ->]]. by exists rest.
    + exists false. split; [done|]. split; [done|].
      intros [rest [= ? _]]. congruence.
Qed.

Lemma is_prefix_spec (str of_ : string) :
  is_prefix str of_ = true <-> exists rest, of_ = str +:+ rest.
Proof.
  unfold is_prefix. destruct (Nat.ltb_spec (String.length of_) (String.length str)) as [Hlt | Hle].
  - split; [done|]. intros [rest ->]. rewrite length_append in Hlt. lia.
  - destruct (equal_spec str of_ Hle) as (b & -> & Hiff). cbn [default]. done.
Qed.

Lemma is_prefix_empty (of_ : string) : is_prefix EmptyString of_ = true.
Proof. apply is_prefix_spec. by exists of_. Qed.

Lemma is_prefix_cons (c d : ascii) (s o : string) :
  is_prefix (String c s) (String d o) = bool_decide (c = d) && is_prefix s o.
Proof.
  unfold is_prefix. cbn [String.length equal].
  change (S (String.length o) <? S (String.length s))%nat
    with (String.length o <? String.length s)%nat.
  destruct (String.length o <? String.length s)%nat; [by rewrite andb_false_r|].
  by case_bool_decide.
Qed.

Lemma is_prefix_of_empty (c : ascii) (s : string) :
  is_prefix (String c s) EmptyString = false.
Proof. done. Qed.

Lemma is_prefix_stdlib (str of_ : string) : is_prefix str of_ = String.prefix str of_.
Proof.
  revert of_. induction str as [| c s IH]; intros [| d o]; try done.
  rewrite is_prefix_cons. cbn [String.prefix]. rewrite IH.
  case_bool_decide; by destruct (ascii_dec c d).
Qed.

(** X10. [is_prefix str of_] is true exactly when [of_] starts with [str]:
    the size test and [std::equal] over the characters of [str] together
    are the prefix relation ([String.prefix] of the standard library), the
    empty string being a prefix of every string. Whenever the size test lets
    [std::equal] run, [std::equal] stays within [of_]. *)
Theorem is_prefix_is_the_prefix_relation (str of_ : string) :
  (is_prefix str of_ = true <-> exists rest, of_ = str +:+ rest)
  /\ is_prefix str of_ = String.prefix str of_
  /\ is_prefix EmptyString of_ = true
  /\ ((String.length str <= String.length of_)%nat -> is_Some (equal str of_)).
Proof.
  split; [apply is_prefix_spec|]. split; [apply is_prefix_stdlib|].
  split; [apply is_prefix_empty|].
  intros Hle. destruct (equal_spec str of_ Hle) as (b & -> & _). by eexists.
Qed.

End split.

Section handlers.
Import Stdlib.Strings.Ascii.
Import Shell.
#[local] Arguments String.append !_ _ / : simpl nomatch.

Variable to_integral : integral -> string -> Z -> option Z.

Lemma is_prefix_first_letter (c d : ascii) (s o : string) :
  is_prefix (String c s) (String d o) = true -> c = d.
Proof.
  rewrite is_prefix_cons. intros [H _]%andb_prop. by apply bool_decide_eq_true in H.
Qed.

Lemma is_prefix_other_letter (c d : ascii) (s o : string) :
  c <> d -> is_prefix (String c s) (String d o) = false.
Proof. intros Hne. rewrite is_prefix_cons. by rewrite bool_decide_eq_false_2. Qed.

Lemma one_command (command k1 k2 : string) :
  command <> EmptyString -> k1 ∈ commands -> k2 ∈ commands ->
  is_prefix command k1 = true -> is_prefix command k2 = true -> k1 = k2.
Proof.
  destruct command as [| c s]; [done|]. intros _ Hk1 Hk2.
  unfold commands in *.
  repeat (apply elem_of_cons in Hk1 as [-> | Hk1]);
    [.. | by apply elem_of_nil in Hk1];
    repeat (apply elem_of_cons in Hk2 as [-> | Hk2]);
    try (by apply elem_of_nil in Hk2); try done;
    intros H1%is_prefix_first_letter H2%is_prefix_first_letter; congruence.
Qed.

(** X11. The first word of the line against the commands. A word that is
    not empty abbreviates at most one command, so the order of the tests of
    [handle_command] decides nothing for it: when it is a prefix of a
    command, that command's handler is what runs, on all the words of the
    line. The empty word, the first word of a line that starts with a
    space, is a prefix of them all and resumes the process. *)
Theorem abbreviated_commands (line command : string) (rest : list string) :
  split line " " = command :: rest ->
  let args := command :: rest in
  (command = EmptyString -> handle_command to_integral line = Calls Resume_wait_stop)
  /\ (forall k1 k2, command <> EmptyString -> k1 ∈ commands -> k2 ∈ commands ->
        is_prefix command k1 = true -> is_prefix command k2 = true -> k1 = k2)
  /\ (command <> EmptyString ->
      (is_prefix command "continue" = true ->
         handle_command to_integral line = Calls Resume_wait_stop)
      /\ (is_prefix command "memory" = true ->
         handle_command to_integral line = handle_memory_command to_integral args)
      /\ (is_prefix command "register" = true ->
         handle_command to_integral line = handle_register_command args)
      /\ (is_prefix command "breakpoint" = true ->
         handle_command to_integral line = handle_breakpoint_command to_integral args)
      /\ (is_prefix command "step" = true ->
         handle_command to_integral line = Calls Step_stop)
      /\ (is_prefix command "disassemble" = true ->
         handle_command to_integral line = handle_disassemble_command to_integral args)
      /\ (is_prefix command "watchpoint" = true ->
         handle_command to_integral line = handle_watchpoint_command to_integral args)
      /\ (is_prefix command "help" = true ->
         handle_command to_integral line = print_help args))
  /\ ((forall k, k ∈ commands -> is_prefix command k = false) ->
      handle_command to_integral line = Prints "Unknown command").
Proof.
  intros Hsplit args. unfold handle_command. rewrite Hsplit. subst args.
  split; [by intros ->|]. split; [intros k1 k2; apply one_command|]. split.
  - destruct command as [| c s]; [done|]. intros _.
    repeat split; intros Hk; pose proof (is_prefix_first_letter _ _ _ _ Hk) as ->;
      rewrite ?is_prefix_other_letter by done; by rewrite Hk.
  - intros Hno. unfold commands in Hno.
    rewrite !Hno; [done | set_solver..].
Qed.

(** ** Subcommands *)

Ltac prefix_simpl :=
  repeat first
    [ rewrite is_prefix_other_letter by done
    | rewrite is_prefix_empty
    | rewrite is_prefix_of_empty
    | rewrite is_prefix_cons
    | rewrite bool_decide_eq_true_2 by done
    | rewrite bool_decide_eq_false_2 by done ];
  cbn [andb].

Lemma subcommand_cases (command : string) :
  let l := is_prefix command "list" in
  let s := is_prefix command "set" in
  let e := is_prefix command "enable" in
  let d := is_prefix command "disable" in
  let r := is_prefix command "delete" in
  let de := is_prefix "de" command in
  (command = EmptyString /\ l = true)
  \/ (command <> EmptyString /\
      ((l = true /\ s = false /\ e = false /\ d = false /\ r = false /\ de = false)
       \/ (l = false /\ s = true /\ e = false /\ d = false /\ r = false /\ de = false)
       \/ (l = false /\ s = false /\ e = true /\ d = false /\ r = false /\ de = false)
       \/ (l = false /\ s = false /\ e = false /\ d = true /\ de = false)
       \/ (l = false /\ s = false /\ e = false /\ d = false /\ r = true /\ de = true)
       \/ (l = false /\ s = false /\ e = false /\ d = false /\ r = false))).
Proof.
  cbn zeta. destruct command as [| c s]; [by left|]. right. split; [done|].
  destruct (decide (c = "l"%char)) as [-> | Hl].
  { prefix_simpl. destruct (is_prefix s "ist"); [left | do 5 right]; done. }
  destruct (decide (c = "s"%char)) as [-> | Hs].
  { prefix_simpl. destruct (is_prefix s "et"); [right; left | do 5 right]; done. }
  destruct (decide (c = "e"%char)) as [-> | He].
  { prefix_simpl. destruct (is_prefix s "nable"); [do 2 right; left | do 5 right]; done. }
  destruct (decide (c = "d"%char)) as [-> | Hd].
  { destruct s as [| c2 s2].
    { do 3 right. left. by prefix_simpl. }
    destruct (decide (c2 = "i"%char)) as [-> | Hi].
    { prefix_simpl. destruct (is_prefix s2 "sable"); [do 3 right; left | do 5 right]; done. }
    destruct (decide (c2 = "e"%char)) as [-> | He2].
    { prefix_simpl. destruct (is_prefix s2 "lete"); [do 4 right; left | do 5 right]; done. }
    do 5 right. by prefix_simpl. }
  do 5 right. by prefix_simpl.
Qed.


Lemma print_help_topics :
  print_help ["help"; "breakpoint"] = Prints_help Breakpoint_commands
  /\ print_help ["help"; "disassemble"] = Prints_help Disassemble_options
  /\ print_help ["help"; "memory"] = Prints_help Memory_commands
  /\ print_help ["help"; "register"] = Prints_help Register_commands
  /\ print_help ["help"; "watchpoint"] = Prints_help Watchpoint_commands.
Proof. by vm_compute. Qed.

Lemma handle_watchpoint_set_cases (args : list string) :
  handle_watchpoint_set to_integral args = Prints_help Watchpoint_commands
  \/ exists c0 c1 arg2 mode_text arg4 address mode size,
       args = [c0; c1; arg2; mode_text; arg4]
       /\ to_integral uint64_t arg2 16 = Some address
       /\ to_integral size_t arg4 10 = Some size
       /\ ((mode_text = "write" /\ mode = write)
           \/ (mode_text = "rw" /\ mode = read_write)
           \/ (mode_text = "execute" /\ mode = execute))
       /\ handle_watchpoint_set to_integral args
          = Calls (Create_watchpoint_enable address (Some mode) size).
Proof.
  destruct print_help_topics as (_ & _ & _ & _ & Hh).
  unfold handle_watchpoint_set. rewrite Hh.
  destruct args as [| c0 [| c1 [| arg2 [| mode_text [| arg4 [| x args]]]]]];
    try (by left).
  destruct (to_integral uint64_t arg2 16) as [address |] eqn:Ea; [| by left].
  destruct (to_integral size_t arg4 10) as [size |] eqn:Es; [| by left].
  case_bool_decide as Hw; cbn [orb negb].
  { right. exists c0, c1, arg2, mode_text, arg4, address, write, size. naive_solver. }
  case_bool_decide as Hrw; cbn [orb negb].
  { right. exists c0, c1, arg2, mode_text, arg4, address, read_write, size. naive_solver. }
  case_bool_decide as Hx; cbn [orb negb]; [| by left].
  right. exists c0, c1, arg2, mode_text, arg4, address, execute, size. naive_solver.
Qed.

(** X12. The subcommands of [breakpoint] and [watchpoint] against their
    abbreviations, for a line whose third word parses as an id. A word that
    is not empty and is a prefix of [disable], [d] included, disables; the
    stop-point is removed for the prefixes of [delete] that start with [de]
    only; a word that is no prefix of any subcommand does nothing at all,
    without a message. *)
Theorem abbreviated_subcommands
    (c0 command arg2 : string) (rest : list string) (id : Z) :
  to_integral id_type arg2 10 = Some id ->
  let args := c0 :: command :: arg2 :: rest in
  let abbreviates k := command <> EmptyString /\ is_prefix command k = true in
  let delete := is_prefix "de" command = true /\ is_prefix command "delete" = true in
  let nothing := forall k, k ∈ stoppoint_subcommands -> is_prefix command k = false in
  ((handle_breakpoint_command to_integral args = Calls (Site_enable id)
      <-> abbreviates "enable")
   /\ (handle_breakpoint_command to_integral args = Calls (Site_disable id)
      <-> abbreviates "disable")
   /\ (handle_breakpoint_command to_integral args = Calls (Site_remove id) <-> delete)
   /\ (handle_breakpoint_command to_integral args = Does_nothing <-> nothing))
  /\ ((handle_watchpoint_command to_integral args = Calls (Watchpoint_enable id)
      <-> abbreviates "enable")
   /\ (handle_watchpoint_command to_integral args = Calls (Watchpoint_disable id)
      <-> abbreviates "disable")
   /\ (handle_watchpoint_command to_integral args = Calls (Watchpoint_remove id)
      <-> delete)
   /\ (handle_watchpoint_command to_integral args = Does_nothing <-> nothing)).
Proof.
  intros Hid args abbreviates delete nothing.
  assert (Hnothing : nothing <->
            is_prefix command "list" = false /\ is_prefix command "set" = false
            /\ is_prefix command "enable" = false /\ is_prefix command "disable" = false
            /\ is_prefix command "delete" = false).
  { unfold nothing, stoppoint_subcommands. split.
    - intros H. repeat split; apply H; set_solver.
    - intros (? & ? & ? & ? & ?) k Hk.
      repeat (apply elem_of_cons in Hk as [-> | Hk]); try done.
      by apply elem_of_nil in Hk. }
  rewrite Hnothing. clear Hnothing. subst args abbreviates delete nothing.
  unfold handle_breakpoint_command, handle_watchpoint_command. rewrite Hid.
  assert (Hset : forall o : outcome,
            o = match to_integral uint64_t arg2 16 with
                | Some address =>
                    match rest with
                    | [arg3] =>
                        if bool_decide (arg3 = "-h")
                        then Calls (Create_site_enable address true)
                        else Throws_error (send "Invalid breakpoint command argument")
                    | _ => Calls (Create_site_enable address false)
                    end
                | None =>
                    Prints "Breakpoint command expects addres in hexadecimal, prefixed with '0x'"
                end ->
            o <> Calls (Site_enable id) /\ o <> Calls (Site_disable id)
            /\ o <> Calls (Site_remove id) /\ o <> Does_nothing).
  { intros o ->. destruct (to_integral uint64_t arg2 16); [| done].
    destruct rest as [| arg3 [| x rest']]; [done | | done]. by case_bool_decide. }
  specialize (Hset _ eq_refl).
  assert (Hwset : forall o : outcome,
            o = handle_watchpoint_set to_integral (c0 :: command :: arg2 :: rest) ->
            o <> Calls (Watchpoint_enable id) /\ o <> Calls (Watchpoint_disable id)
            /\ o <> Calls (Watchpoint_remove id) /\ o <> Does_nothing).
  { intros o ->.
    destruct (handle_watchpoint_set_cases (c0 :: command :: arg2 :: rest))
      as [-> | (? & ? & ? & ? & ? & ? & ? & ? & _ & _ & _ & _ & ->)]; done. }
  specialize (Hwset _ eq_refl).
  destruct (subcommand_cases command) as [[-> Hl] | [Hne Hc]]; cbn zeta in *.
  - rewrite is_prefix_empty. cbn.
    repeat split; try done; try (by intros [? ?]); by intros (? & _).
  - destruct Hc as [Hc | [Hc | [Hc | [Hc | [Hc | Hc]]]]];
      destruct_and!; repeat match goal with H : is_prefix _ _ = _ |- _ => rewrite H end;
      try (destruct (is_prefix command "delete") eqn:Hr);
      repeat split; try done; try congruence; try tauto;
      try (by intros [? ?]); try (by intros (? & ? & ? & ? & ?)).
Qed.


(** ** Indices into [args] *)

Lemma print_help_in_range (args : list string) :
  args <> [] -> print_help args <> Out_of_range.
Proof.
  destruct args as [| a0 [| topic args]]; [done | done |]. intros _.
  unfold print_help. by repeat case_match.
Qed.

Lemma disassemble_options_in_range (it : list string) (address : option Z) (n : Z) :
  disassemble_options to_integral it address n <> Out_of_range.
Proof.
  destruct print_help_topics as (_ & Hh & _).
  assert (H : forall it address n,
            disassemble_options to_integral it address n <> Out_of_range
            /\ forall x, disassemble_options to_integral (x :: it) address n
                         <> Out_of_range).
  { clear it address n. induction it as [| y it IH]; intros address n.
    - split; [done|]. intros x. cbn [disassemble_options]. by rewrite Hh.
    - split; [apply IH|]. intros x. cbn [disassemble_options]. rewrite Hh.
      destruct (IH address n) as [_ IH'].
      repeat case_match; try done; apply IH. }
  apply H.
Qed.

Lemma handle_command_in_range (line : string) :
  line <> EmptyString -> handle_command to_integral line <> Out_of_range.
Proof.
  intros Hne. unfold handle_command.
  destruct (split line " ") as [| command rest] eqn:Hs.
  { by apply split_nil in Hs. }
  destruct print_help_topics as (Hb & Hd & Hm & Hr & Hw).
  repeat case_match; try done.
  - unfold handle_memory_command, handle_memory_read_command,
      handle_memory_write_command. rewrite Hm. by repeat case_match.
  - unfold handle_register_command, handle_register_read, handle_register_write.
    rewrite Hr. by repeat case_match.
  - unfold handle_breakpoint_command. rewrite Hb. by repeat case_match.
  - apply disassemble_options_in_range.
  - assert (Hws : forall a, handle_watchpoint_set to_integral a <> Out_of_range).
    { intros a. destruct (handle_watchpoint_set_cases a)
        as [-> | (? & ? & ? & ? & ? & ? & ? & ? & _ & _ & _ & _ & ->)]; done. }
    unfold handle_watchpoint_command. rewrite Hw.
    repeat case_match; try done; apply Hws.
  - by apply print_help_in_range.
Qed.

Lemma main_loop_line_history (line : string) (history : list string) :
  (main_loop_line line history).1
  = history ++ filter (fun l => l <> EmptyString) [line].
Proof.
  unfold main_loop_line. case_bool_decide as Hl.
  - subst line. rewrite filter_cons, decide_False by (by intros ?).
    rewrite filter_nil, app_nil_r. by destruct (last history).
  - by rewrite filter_cons, decide_True, filter_nil.
Qed.

Lemma main_loop_app (lines1 lines2 history : list string) :
  main_loop (lines1 ++ lines2) history
  = main_loop lines1 history
    ++ main_loop lines2 (history ++ filter (fun l => l <> EmptyString) lines1).
Proof.
  revert history. induction lines1 as [| line lines1 IH]; intros history.
  - by rewrite filter_nil, app_nil_r.
  - cbn [app main_loop].
    pose proof (main_loop_line_history line history) as Hh.
    destruct (main_loop_line line history) as [history' handled]. cbn [fst] in Hh.
    rewrite IH, <- app_assoc. do 2 f_equal. rewrite Hh, <- app_assoc. f_equal.
    by rewrite <- filter_app.
Qed.

Lemma main_loop_not_empty (lines history : list string) :
  Forall (fun l => l <> EmptyString) history ->
  Forall (fun l => l <> EmptyString) (main_loop lines history).
Proof.
  revert history. induction lines as [| line lines IH]; intros history Hh; [constructor|].
  cbn [main_loop]. unfold main_loop_line.
  case_bool_decide as Hl.
  - destruct (last history) as [entry |] eqn:El.
    + rewrite bool_decide_eq_false_2.
      * apply Forall_app. split; [| by apply IH]. repeat constructor.
        apply last_Some in El as [h' ->]. apply Forall_app in Hh as [_ Hh].
        by apply Forall_inv in Hh.
      * apply last_Some in El as [h' ->]. apply Forall_app in Hh as [_ Hh].
        by apply Forall_inv in Hh.
    + rewrite bool_decide_eq_true_2 by done. by apply IH.
  - rewrite bool_decide_eq_false_2 by done.
    apply Forall_app. split; [by repeat constructor|].
    apply IH. apply Forall_app. split; [done | by repeat constructor].
Qed.

(** X13. The lines that [main_loop] hands to [handle_command], the history
    being empty when it starts. None of them is empty, so none of them
    splits into no words, and [handle_command] and the handlers it calls
    read no element that [args] does not have. A line that is not empty is
    handed over as it is; an empty line hands over the last line that was
    not empty once more, and nothing if there was none. *)
Theorem main_loop_hands_over_commands (lines : list string) :
  Forall (fun line => line <> EmptyString /\ split line " " <> []
                      /\ handle_command to_integral line <> Out_of_range)
    (main_loop lines [])
  /\ (forall line, line <> EmptyString ->
        main_loop (lines ++ [line]) [] = main_loop lines [] ++ [line])
  /\ main_loop (lines ++ [EmptyString]) []
     = main_loop lines [] ++ option_list (last (filter (fun l => l <> EmptyString) lines)).
Proof.
  split; [| split].
  - eapply Forall_impl; [apply main_loop_not_empty; constructor|].
    intros line Hne. split; [done|]. split; [| by apply handle_command_in_range].
    intros Hs. by apply split_nil in Hs.
  - intros line Hne. rewrite main_loop_app. f_equal. cbn [main_loop app].
    unfold main_loop_line. rewrite !bool_decide_eq_false_2 by done. done.
  - rewrite main_loop_app. f_equal. cbn [main_loop app].
    unfold main_loop_line. rewrite bool_decide_eq_true_2 by done.
    set (h := filter _ lines).
    assert (Hh : Forall (fun l => l <> EmptyString) h).
    { subst h. apply Forall_forall. by intros l [? _]%list_elem_of_filter. }
    destruct (last h) as [entry |] eqn:El; [| done].
    apply last_Some in El as [h' El]. rewrite El in Hh.
    apply Forall_app in Hh as [_ Hh]. apply Forall_inv in Hh.
    by rewrite bool_decide_eq_false_2.
Qed.


(** ** Reading memory *)

Lemma memory_rows_loop_spec (address : Z) (data : list Z) (fuel i : nat) :
  (length data < fuel + i)%nat ->
  let rows := memory_rows_loop fuel address data i in
  concat rows.*2 = drop i data
  /\ (forall k row, rows !! k = Some row ->
        row = (Int.to_u64 (address + Z.of_nat (i + 16 * k)),
               take 16 (drop (i + 16 * k) data))
        /\ (i + 16 * k < length data)%nat)
  /\ (length data - i <= 16 * length rows < length data - i + 16)%nat.
Proof.
  revert i. induction fuel as [| fuel IH]; intros i Hf; cbn zeta.
  - cbn [memory_rows_loop]. rewrite drop_ge by lia.
    split; [done|]. split; [done|]. cbn. lia.
  - cbn [memory_rows_loop]. destruct (Nat.ltb_spec i (length data)) as [Hi | Hi].
    + destruct (IH (i + 16)%nat ltac:(lia)) as (Hc & Hk & Hl). cbn zeta in *.
      assert (Hrow : take ((i + 16) `min` length data - i) (drop i data)
                     = take 16 (drop i data)).
      { destruct (Nat.le_gt_cases (i + 16) (length data)) as [Hle | Hgt].
        - f_equal. lia.
        - rewrite !take_ge; [done | |]; rewrite length_drop; lia. }
      rewrite Hrow. split; [| split].
      * cbn [fmap list_fmap snd concat]. rewrite Hc.
        replace (i + 16)%nat with (i + 16)%nat by done.
        rewrite <- drop_drop. apply take_drop.
      * intros [| k] row; cbn [lookup list_lookup].
        -- intros [= <-]. rewrite Nat.mul_0_r, Nat.add_0_r. done.
        -- intros Hr. destruct (Hk k row Hr) as [-> Hlt].
           replace (i + 16 + 16 * k)%nat with (i + 16 * S k)%nat in * by lia. done.
      * cbn [length]. lia.
    + rewrite drop_ge by lia. split; [done|]. split; [done|]. cbn. lia.
Qed.

(** X14. The rows that [handle_memory_read_command] prints of the bytes
    read: they are the bytes read, in order, none left out or repeated; row
    [k] is labelled with the address of the read plus [16 * k] (as a 64-bit
    address) and holds the at most 16 bytes from index [16 * k] on; every
    row holds a byte, every row but the last holds 16, and no bytes read
    means no row. *)
Theorem memory_rows_are_the_bytes_read (address : Z) (data : list Z) :
  let rows := memory_rows address data in
  concat rows.*2 = data
  /\ (forall k row, rows !! k = Some row ->
        row.1 = Int.to_u64 (address + 16 * Z.of_nat k)
        /\ row.2 = take 16 (drop (16 * k) data)
        /\ (0 < length row.2 <= 16)%nat
        /\ ((S k < length rows)%nat -> length row.2 = 16%nat))
  /\ (length data <= 16 * length rows < length data + 16)%nat.
Proof.
  cbn zeta. unfold memory_rows.
  destruct (memory_rows_loop_spec address data (S (length data)) 0 ltac:(lia))
    as (Hc & Hk & Hl). cbn zeta in *.
  split; [by rewrite Hc|]. split; [| lia].
  intros k row Hr. destruct (Hk k row Hr) as [-> Hlt]. cbn [fst snd].
  rewrite Nat.add_0_l. split; [f_equal; lia|]. split; [done|].
  rewrite length_take, length_drop. split; [lia|]. intros Hlast. lia.
Qed.

Lemma to_int_to_u64 (b : Z) :
  0 <= b < 2 ^ 64 ->
  (Int.to_u64 (to_int b) = b <-> b < 2 ^ 31 \/ 2 ^ 64 - 2 ^ 31 <= b)
  /\ (2 ^ 31 <= b < 2 ^ 32 -> Int.to_u64 (to_int b) = b + (2 ^ 64 - 2 ^ 32))
  /\ 0 <= Int.to_u64 (to_int b) < 2 ^ 64.
Proof.
  intros Hb. unfold Int.to_u64, to_int.
  change (2 ^ 64) with 18446744073709551616 in *.
  change (2 ^ 32) with 4294967296 in *. change (2 ^ 31) with 2147483648 in *.
  pose proof (Z.div_mod (b + 2147483648) 4294967296 ltac:(done)) as Hdm.
  pose proof (Z.mod_pos_bound (b + 2147483648) 4294967296 ltac:(done)) as Hr.
  set (q := (b + 2147483648) / 4294967296) in *.
  set (r := (b + 2147483648) mod 4294967296) in *.
  destruct (Z.lt_ge_cases r 2147483648) as [Hlt | Hge].
  - assert (Hm : (r - 2147483648) mod 18446744073709551616
                 = r - 2147483648 + 18446744073709551616).
    { symmetry. apply (Z.mod_unique_pos _ _ (-1)); lia. }
    rewrite Hm. lia.
  - rewrite Z.mod_small by lia. lia.
Qed.

(** X15. The number of bytes of [memory read]. [n_bytes] is an [int]: the
    number parsed as a [std::size_t] reaches [read_memory] unchanged only
    when it is below 2^31 (or within 2^31 of 2^64); from 2^31 up to 2^32 it
    arrives with 2^64 - 2^32 added. Without a fourth word 32 bytes are read,
    and with any word after the fourth too: the number is then ignored. *)
Theorem memory_read_amount_is_an_int
    (c0 c1 arg2 arg3 : string) (address bytes_arg : Z) :
  to_integral uint64_t arg2 16 = Some address ->
  to_integral size_t arg3 10 = Some bytes_arg ->
  0 <= bytes_arg < 2 ^ 64 ->
  (exists amount,
     handle_memory_read_command to_integral [c0; c1; arg2; arg3]
     = Calls (Read_memory address amount)
     /\ (amount = bytes_arg <-> bytes_arg < 2 ^ 31 \/ 2 ^ 64 - 2 ^ 31 <= bytes_arg)
     /\ (2 ^ 31 <= bytes_arg < 2 ^ 32 -> amount = bytes_arg + (2 ^ 64 - 2 ^ 32))
     /\ 0 <= amount < 2 ^ 64)
  /\ handle_memory_read_command to_integral [c0; c1; arg2]
     = Calls (Read_memory address 32)
  /\ (forall x rest,
        handle_memory_read_command to_integral (c0 :: c1 :: arg2 :: arg3 :: x :: rest)
        = Calls (Read_memory address 32)).
Proof.
  intros Ha Hn Hb. unfold handle_memory_read_command. rewrite Ha, Hn.
  split; [| by split].
  exists (Int.to_u64 (to_int bytes_arg)). split; [done|]. by apply to_int_to_u64.
Qed.


(** ** Watchpoints and disassembly *)

Lemma disassemble_options_never_sets (it : list string) (address : option Z) (n : Z)
    (a : Z) (mode : option stoppoint_mode) (size : Z) :
  disassemble_options to_integral it address n
  <> Calls (Create_watchpoint_enable a mode size).
Proof.
  destruct print_help_topics as (_ & Hh & _).
  assert (H : forall it address n,
            disassemble_options to_integral it address n
            <> Calls (Create_watchpoint_enable a mode size)
            /\ forall x, disassemble_options to_integral (x :: it) address n
                         <> Calls (Create_watchpoint_enable a mode size)).
  { clear it address n. induction it as [| y it IH]; intros address n.
    - split; [done|]. intros x. cbn [disassemble_options]. by rewrite Hh.
    - split; [apply IH|]. intros x. cbn [disassemble_options]. rewrite Hh.
      repeat case_match; try done; apply IH. }
  apply H.
Qed.

(** X16. [handle_watchpoint_set] declares [mode] without an initialiser and
    assigns it in three branches. Whenever a line makes the shell create a
    watchpoint, [mode] has been assigned: the line has exactly five words,
    the fourth of them is [write], [rw] or [execute] in full, and the mode
    passed is the one it names, with the address and size parsed from the
    third and fifth. *)
Theorem watchpoint_mode_is_assigned
    (line : string) (address : Z) (mode : option stoppoint_mode) (size : Z) :
  handle_command to_integral line = Calls (Create_watchpoint_enable address mode size) ->
  exists c0 c1 arg2 mode_text arg4 m,
    mode = Some m
    /\ split line " " = [c0; c1; arg2; mode_text; arg4]
    /\ to_integral uint64_t arg2 16 = Some address
    /\ to_integral size_t arg4 10 = Some size
    /\ ((mode_text = "write" /\ m = write)
        \/ (mode_text = "rw" /\ m = read_write)
        \/ (mode_text = "execute" /\ m = execute)).
Proof.
  unfold handle_command.
  destruct (split line " ") as [| command rest] eqn:Hs; [done|].
  destruct print_help_topics as (Hb & Hd & Hm & Hr & Hw).
  assert (Hws : forall args,
            handle_watchpoint_set to_integral args
            = Calls (Create_watchpoint_enable address mode size) ->
            exists c0 c1 arg2 mode_text arg4 m,
              mode = Some m /\ args = [c0; c1; arg2; mode_text; arg4]
              /\ to_integral uint64_t arg2 16 = Some address
              /\ to_integral size_t arg4 10 = Some size
              /\ ((mode_text = "write" /\ m = write)
                  \/ (mode_text = "rw" /\ m = read_write)
                  \/ (mode_text = "execute" /\ m = execute))).
  { intros args.
    destruct (handle_watchpoint_set_cases args)
      as [-> | (c0 & c1 & arg2 & mode_text & arg4 & a' & m & sz'
                & -> & Ha & Hsz & Hmode & ->)]; [done|].
    intros [= <- <- <-]. by exists c0, c1, arg2, mode_text, arg4, m. }
  destruct (is_prefix command "continue"); [done|].
  destruct (is_prefix command "memory").
  { unfold handle_memory_command, handle_memory_read_command,
      handle_memory_write_command. rewrite Hm. by repeat case_match. }
  destruct (is_prefix command "register").
  { unfold handle_register_command, handle_register_read, handle_register_write.
    rewrite Hr. by repeat case_match. }
  destruct (is_prefix command "breakpoint").
  { unfold handle_breakpoint_command. rewrite Hb. by repeat case_match. }
  destruct (is_prefix command "step"); [done|].
  destruct (is_prefix command "disassemble").
  { intros H. by apply disassemble_options_never_sets in H. }
  destruct (is_prefix command "watchpoint").
  { unfold handle_watchpoint_command. rewrite Hw.
    destruct rest as [| sub rest']; [done|].
    destruct (is_prefix sub "list"); [done|].
    destruct (is_prefix sub "set"); [apply Hws|].
    by repeat case_match. }
  destruct (is_prefix command "help"); [| done].
  unfold print_help. by repeat case_match.
Qed.

(** X17. The options of [disassemble], given as pairs of [-a] or [-c] and a
    value that parses. The instructions are then disassembled from the
    address of the last [-a], or from the program counter if there is none,
    and as many of them as the last [-c] says, or the count given to start
    with (5) if there is none. One more word after the pairs, an option
    without its value included, prints the help and disassembles nothing. *)
Theorem disassemble_options_in_pairs
    (pairs : list (string * string)) (address : option Z) (n_instructions : Z) :
  Forall (fun p => (p.1 = "-a" /\ is_Some (to_integral uint64_t p.2 16))
                   \/ (p.1 = "-c" /\ is_Some (to_integral size_t p.2 10))) pairs ->
  let it := pairs ≫= (fun p => [p.1; p.2]) in
  (forall x, disassemble_options to_integral (it ++ [x]) address n_instructions
             = Prints_help Disassemble_options)
  /\ exists address' n',
       disassemble_options to_integral it address n_instructions
       = Calls (Disassemble address' n')
       /\ (Forall (fun p => p.1 <> "-a") pairs -> address' = address)
       /\ (forall before v after, pairs = before ++ ("-a", v) :: after ->
             Forall (fun p => p.1 <> "-a") after ->
             address' = to_integral uint64_t v 16)
       /\ (Forall (fun p => p.1 <> "-c") pairs -> n' = n_instructions)
       /\ (forall before v after, pairs = before ++ ("-c", v) :: after ->
             Forall (fun p => p.1 <> "-c") after ->
             to_integral size_t v 10 = Some n').
Proof.
  destruct print_help_topics as (_ & Hh & _).
  intros Hok. revert address n_instructions.
  induction Hok as [| [flag value] pairs Hp Hok IH]; intros address n; cbn zeta.
  - split; [intros x; cbn [mbind list_bind app disassemble_options]; by rewrite Hh|].
    exists address, n. split; [done|]. split; [done|].
    split; [by intros [| ? ?] ? ? ?|]. split; [done|]. by intros [| ? ?] ? ? ?.
  - cbn [mbind list_bind app fst snd].
    change (flag :: value :: (pairs ≫= (fun p => [p.1; p.2])))
      with (flag :: value :: (pairs ≫= (fun p : string * string => [p.1; p.2]))).
    destruct Hp as [[Hf [a Ha]] | [Hf [c Hc]]]; cbn [fst snd] in *; subst flag.
    + destruct (IH (Some a) n) as (Hx & address' & n' & Hd & Hna & Hla & Hnc & Hlc).
      split.
      * intros x. cbn [app disassemble_options].
        rewrite bool_decide_eq_true_2 by done. rewrite Ha. apply Hx.
      * exists address', n'. cbn [disassemble_options].
        rewrite bool_decide_eq_true_2 by done. rewrite Ha.
        split; [done|]. split; [| split; [| split]].
        -- intros Hna'. apply Forall_cons in Hna' as [Hne _]. done.
        -- intros [| b before] v after; cbn [app].
           ++ intros [= -> ->] Hafter. rewrite Ha. by apply Hna.
           ++ intros [= <- ->] Hafter. by eapply Hla.
        -- intros Hnc'. apply Forall_cons in Hnc' as [_ Hnc']. by apply Hnc.
        -- intros [| b before] v after; cbn [app].
           ++ intros Hp. by simplify_eq.
           ++ intros [= <- ->] Hafter. by eapply Hlc.
    + destruct (IH address c) as (Hx & address' & n' & Hd & Hna & Hla & Hnc & Hlc).
      split.
      * intros x. cbn [app disassemble_options].
        rewrite bool_decide_eq_false_2 by done.
        rewrite bool_decide_eq_true_2 by done. rewrite Hc. apply Hx.
      * exists address', n'. cbn [disassemble_options].
        rewrite bool_decide_eq_false_2 by done.
        rewrite bool_decide_eq_true_2 by done. rewrite Hc.
        split; [done|]. split; [| split; [| split]].
        -- intros Hna'. apply Forall_cons in Hna' as [_ Hna']. by apply Hna.
        -- intros [| b before] v after; cbn [app].
           ++ intros Hp. by simplify_eq.
           ++ intros [= <- ->] Hafter. by eapply Hla.
        -- intros Hnc'. apply Forall_cons in Hnc' as [Hne _]. done.
        -- intros [| b before] v after; cbn [app].
           ++ intros [= -> ->] Hafter. rewrite Hc. f_equal. symmetry. by apply Hnc.
           ++ intros [= <- ->] Hafter. by eapply Hlc.
Qed.


(** X18. The topics of [help]. With no topic the commands are listed. A
    topic that is not empty abbreviates at most one of the five topics and
    gets its text; the empty topic gets the text of [breakpoint], the first
    test. Of the commands that the list of commands names, [continue] and
    [step] are no topics: an abbreviation of them, or of [help], is answered
    with [No help available on that]. *)
Theorem help_topics_of_print_help (h topic : string) (rest : list string) :
  let args := h :: topic :: rest in
  print_help [h] = Prints_help Available_commands
  /\ (topic = EmptyString -> print_help args = Prints_help Breakpoint_commands)
  /\ (topic <> EmptyString ->
      (is_prefix topic "breakpoint" = true ->
         print_help args = Prints_help Breakpoint_commands)
      /\ (is_prefix topic "disassemble" = true ->
         print_help args = Prints_help Disassemble_options)
      /\ (is_prefix topic "memory" = true ->
         print_help args = Prints_help Memory_commands)
      /\ (is_prefix topic "register" = true ->
         print_help args = Prints_help Register_commands)
      /\ (is_prefix topic "watchpoint" = true ->
         print_help args = Prints_help Watchpoint_commands)
      /\ (is_prefix topic "continue" = true \/ is_prefix topic "step" = true
          \/ is_prefix topic "help" = true ->
         print_help args = Prints_help No_help_available))
  /\ ((forall k, k ∈ help_topics -> is_prefix topic k = false) ->
      print_help args = Prints_help No_help_available).
Proof.
  cbn zeta. split; [done|]. unfold print_help. split; [by intros ->|]. split.
  - destruct topic as [| c s]; [done|]. intros _.
    repeat split;
      try (intros Hk; pose proof (is_prefix_first_letter _ _ _ _ Hk) as ->;
           rewrite ?is_prefix_other_letter by done; by rewrite Hk).
    intros [Hk | [Hk | Hk]]; pose proof (is_prefix_first_letter _ _ _ _ Hk) as ->;
      by rewrite !is_prefix_other_letter by done.
  - intros Hno. unfold help_topics in Hno.
    rewrite !Hno; [done | set_solver..].
Qed.

End handlers.

(** * The statements at work on the example tracee *)

Lemma valid_list_to_map (l : list (Z * Z)) :
  Forall (fun ab => Int.is_byte ab.2) l -> valid_memory (list_to_map l).
Proof.
  induction 1 as [| [a b] l Hb Hl IH]; cbn [list_to_map foldr].
  - intros a b H. by rewrite lookup_empty in H.
  - by apply valid_memory_insert.
Qed.

Lemma example_memory_valid : valid_memory example_memory.
Proof.
  apply valid_list_to_map. repeat constructor; cbn; unfold Int.is_byte; lia.
Qed.

Lemma software_site_splices_low_byte_witness :
  enable example_site example_tracee
  = (with_is_enabled true (with_saved_data 85 example_site),
     patched 4096 204 [72; 137; 229; 72; 131; 236; 16] example_tracee, Returns tt)
  /\ disable (with_is_enabled true (with_saved_data 85 example_site)) example_tracee
     = (with_saved_data 85 example_site,
        patched 4096 85 [72; 137; 229; 72; 131; 236; 16] example_tracee, Returns tt).
Proof.
  assert (Hq : undisturbed 2 example_tracee) by (split; [reflexivity | constructor]).
  assert (Hb : Forall Int.is_byte [85; 72; 137; 229; 72; 131; 236; 16])
    by (repeat constructor; unfold Int.is_byte; lia).
  split.
  - exact (proj1 (software_site_splices_low_byte example_site example_tracee 85
                    [72; 137; 229; 72; 131; 236; 16] eq_refl Hq eq_refl Hb) eq_refl).
  - refine (proj1 (proj2 (software_site_splices_low_byte
                     (with_is_enabled true (with_saved_data 85 example_site))
                     example_tracee 85 [72; 137; 229; 72; 131; 236; 16]
                     eq_refl Hq eq_refl Hb)) eq_refl _).
    unfold Int.is_byte. cbn. lia.
Defined.

Lemma example_trapped_run :
  run [Create_breakpoint_site 4096 false false; Enable_site 0] example_session
  = Some example_trapped_session.
Proof. vm_compute. reflexivity. Qed.

Lemma example_trapped_sites :
  breakpoint_sites_ (proc example_trapped_session)
  = [with_is_enabled true (with_saved_data 85 example_site)].
Proof. vm_compute. reflexivity. Qed.

Lemma enabled_software_site_is_trapped_witness :
  memory (tracee_ (proc example_trapped_session)) !! 4096 = Some 204
  /\ example_memory !! 4096 = Some 85
  /\ (read_memory 4096 1 (tracee_ (proc example_trapped_session))).2 = Returns [204]
  /\ (read_memory_without_traps 4096 1 (proc example_trapped_session)).2 = Returns [85].
Proof.
  assert (Hin : with_is_enabled true (with_saved_data 85 example_site)
                ∈ breakpoint_sites_ (proc example_trapped_session)).
  { rewrite example_trapped_sites. apply list_elem_of_here. }
  assert (Hcs : Forall stoppoint_call
                  [Create_breakpoint_site 4096 false false; Enable_site 0])
    by (repeat constructor).
  destruct (enabled_software_site_is_trapped
              [Create_breakpoint_site 4096 false false; Enable_site 0]
              example_session
              example_memory_valid (NoDup_nil_2 : NoDup (addresses (proc example_session)))
              (fun x Hx => match elem_of_nil x with conj f _ => False_ind _ (f Hx) end)
              Hcs) as (w' & Hrun & Hall).
  rewrite example_trapped_run in Hrun. injection Hrun as <-.
  destruct (Hall _ Hin eq_refl) as (Hon & _ & _).
  destruct (Hon eq_refl) as (Hm & H0 & _ & _ & Hread).
  destruct Hread as [Hr Hr']; [reflexivity | discriminate |].
  repeat split; assumption.
Defined.

(** The counterexample to C2 as stated: a site over an int3 of the program,
    enabled and then disabled, is not enabled, yet the byte at its address is
    0xCC and [saved_data_] is the original byte there. *)
Lemma disabled_site_over_int3_looks_installed :
  let '(s', t', r) := and_then enable disable example_site_over_int3 example_tracee in
  r = Returns tt
  /\ is_enabled_ s' = false /\ is_hardware_ s' = false
  /\ memory t' !! address_ s' = Some 204
  /\ memory example_tracee !! address_ s' = Some (saved_data_ s').
Proof. vm_compute. repeat split; reflexivity. Qed.

(** The counterexample to C3 as stated: the peek runs, the poke fails, and
    [enable] throws with [saved_data_] overwritten. *)
Lemma failed_enable_overwrites_saved_data :
  saved_data_ example_site = 0
  /\ (enable example_site example_tracee_second_call_fails).1.1
     = with_saved_data 85 example_site
  /\ (enable example_site example_tracee_second_call_fails).2
     = Throws (send_errno "Enabling breakpoing site failed" 5)
  /\ (enable example_site example_tracee_second_call_fails).1.1 <> example_site.
Proof. vm_compute. repeat split; try reflexivity. discriminate. Qed.

Lemma enable_failure_leaves_site_disabled_witness :
  is_enabled_ (enable example_site example_tracee_second_call_fails).1.1 = false
  /\ memory (enable example_site example_tracee_second_call_fails).1.2 = example_memory
  /\ (exists t',
        enable example_hardware_site example_tracee_second_call_fails
        = (example_hardware_site, t', Throws (send_errno "Could not write to user area" 5))
        /\ dr7 t' = 0).
Proof.
  destruct (enable_failure_leaves_site_disabled example_site
              example_tracee_second_call_fails eq_refl) as (_ & _ & _ & _ & H).
  destruct (H (with_saved_data 85 example_site)
              (enable example_site example_tracee_second_call_fails).1.2
              (send_errno "Enabling breakpoing site failed" 5) eq_refl)
    as (He & _ & Hm & _).
  split; [exact He|]. split; [exact Hm|].
  destruct (enable_failure_leaves_site_disabled example_hardware_site
              example_tracee_second_call_fails eq_refl) as (_ & _ & _ & _ & Hh).
  destruct (Hh example_hardware_site
              (enable example_hardware_site example_tracee_second_call_fails).1.2
              (send_errno "Could not write to user area" 5) eq_refl)
    as (_ & _ & _ & Hd & _).
  eexists. split; [reflexivity | exact Hd].
Defined.

(** The counterexample to C5 as stated: the second internal site has the id
    -1 of the first, not -2. *)
Lemma internal_sites_share_id :
  id_ <$> (construct_all 0 [(4096, false, true); (4104, false, true)]).2 = [-1; -1].
Proof. reflexivity. Qed.

Lemma visible_ids_increase_witness :
  id_ <$> filter visible
            (construct_all 0 [(4096, false, false); (4100, false, true);
                              (4104, true, false); (4108, false, false)]).2
  = seqZ 1 3.
Proof.
  destruct (visible_ids_increase_internal_ids_are_minus_1 0
              [(4096, false, false); (4100, false, true);
               (4104, true, false); (4108, false, false)])
    as (_ & _ & H & _); [lia|].
  exact H.
Defined.






Lemma duplicate_address_refused_witness :
  exists e, create_breakpoint_site 4096 true false 1 (proc example_trapped_session)
            = (1, proc example_trapped_session, Throws e)
            /\ os_errno e = None.
Proof.
  refine (proj1 (duplicate_address_refused 4096 true false 1
                   (proc example_trapped_session) _)).
  unfold addresses. rewrite example_trapped_sites. apply list_elem_of_here.
Defined.

Lemma disable_failure_keeps_site_enabled_witness :
  exists t' n,
    disable (with_is_enabled true (with_saved_data 85 example_site))
      example_tracee_second_call_fails
    = (with_is_enabled true (with_saved_data 85 example_site), t',
       Throws (send_errno "Disabling breakpoint site failed" n))
    /\ n <> 0.
Proof.
  destruct (disable_failure_keeps_site_enabled
              (with_is_enabled true (with_saved_data 85 example_site))
              example_tracee_second_call_fails eq_refl eq_refl)
    as (t' & n & Hd & _ & Hn & _).
  - right. vm_compute. reflexivity.
  - exists t', n. split; [exact Hd | exact Hn].
Defined.

(** * The further statements at work *)

Lemma example_word_bytes :
  Forall Int.is_byte [85; 72; 137; 229; 72; 131; 236; 16].
Proof. repeat constructor; unfold Int.is_byte; lia. Qed.

Lemma example_tracee_undisturbed (n : nat) : undisturbed n example_tracee.
Proof. split; [reflexivity|]. cbn. rewrite take_nil. constructor. Qed.

Lemma enable_then_disable_restores_memory_witness :
  exists t',
    and_then enable disable example_site example_tracee
    = (with_saved_data 85 example_site, t', Returns tt)
    /\ memory t' = example_memory.
Proof.
  destruct (enable_then_disable_restores_memory example_site example_tracee 85
              [72; 137; 229; 72; 131; 236; 16] eq_refl eq_refl
              (example_tracee_undisturbed 4) eq_refl example_word_bytes)
    as (t' & He & Hm & _).
  exists t'. split; [exact He | exact Hm].
Defined.

Lemma software_site_kernel_calls_witness :
  software_calls 4096 204 [] (calls (enable example_site example_tracee).1.2)
    (enable example_site example_tracee).2.
Proof.
  exact (proj1 (software_site_kernel_calls example_site example_tracee eq_refl)).
Defined.

Lemma software_site_changes_one_byte_witness :
  one_byte_changed 4096 example_tracee (enable example_site example_tracee).1.2
  /\ one_byte_changed 4096 example_tracee
       (disable (with_is_enabled true example_site) example_tracee).1.2.
Proof.
  split.
  - exact (proj1 (software_site_changes_one_byte example_site example_tracee
                    example_memory_valid eq_refl)).
  - exact (proj2 (software_site_changes_one_byte (with_is_enabled true example_site)
                    example_tracee example_memory_valid eq_refl)).
Defined.

Lemma two_sites_at_one_address_witness :
  let '(s1', t1, _) := enable example_site example_tracee in
  let '(s2', t2, _) := enable example_second_site t1 in
  saved_data_ s1' = 85 /\ saved_data_ s2' = 204
  /\ (let '(s1'', t3, r3) := disable s1' t2 in
      let '(s2'', t4, r4) := disable s2' t3 in
      r3 = Returns tt /\ r4 = Returns tt
      /\ is_enabled_ s1'' = false /\ is_enabled_ s2'' = false
      /\ memory t4 = <[4096 := 204]> example_memory)
  /\ (let '(s2'', t3, r3) := disable s2' t2 in
      let '(s1'', t4, r4) := disable s1' t3 in
      r3 = Returns tt /\ r4 = Returns tt
      /\ is_enabled_ s1'' = false /\ is_enabled_ s2'' = false
      /\ memory t4 = example_memory).
Proof.
  exact (two_sites_at_one_address example_site example_second_site example_tracee 85
           [72; 137; 229; 72; 131; 236; 16] eq_refl eq_refl eq_refl eq_refl eq_refl
           (example_tracee_undisturbed 8) eq_refl example_word_bytes).
Defined.

Section command_lines.
Import Stdlib.Strings.Ascii.

Lemma abbreviated_commands_witness :
  Shell.handle_command Shell.example_to_integral "b set 0x1000"
  = Shell.handle_breakpoint_command Shell.example_to_integral ["b"; "set"; "0x1000"].
Proof.
  destruct (abbreviated_commands Shell.example_to_integral "b set 0x1000" "b"
              ["set"; "0x1000"] eq_refl) as (_ & _ & H & _).
  destruct (H ltac:(discriminate)) as (_ & _ & _ & Hb & _).
  exact (Hb eq_refl).
Defined.

Lemma abbreviated_subcommands_witness :
  Shell.handle_breakpoint_command Shell.example_to_integral ["breakpoint"; "d"; "1"]
  = Shell.Calls (Shell.Site_disable 1)
  /\ Shell.handle_watchpoint_command Shell.example_to_integral ["watchpoint"; "de"; "1"]
     = Shell.Calls (Shell.Watchpoint_remove 1).
Proof.
  destruct (abbreviated_subcommands Shell.example_to_integral "breakpoint" "d" "1" [] 1
              eq_refl) as ((_ & Hd & _) & _).
  destruct (abbreviated_subcommands Shell.example_to_integral "watchpoint" "de" "1" [] 1
              eq_refl) as (_ & (_ & _ & Hr & _)).
  split.
  - apply Hd. split; [discriminate | reflexivity].
  - apply Hr. split; reflexivity.
Defined.

Lemma memory_read_amount_is_an_int_witness :
  Shell.handle_memory_read_command Shell.example_to_integral
    ["memory"; "read"; "0x1000"; "2147483648"]
  = Shell.Calls (Shell.Read_memory 4096 18446744071562067968).
Proof.
  destruct (memory_read_amount_is_an_int Shell.example_to_integral
              "memory" "read" "0x1000" "2147483648" 4096 2147483648
              eq_refl eq_refl) as ((amount & Hc & _ & Ha & _) & _).
  - lia.
  - rewrite Hc, Ha by lia. reflexivity.
Defined.

Lemma watchpoint_mode_is_assigned_witness :
  exists c0 c1 arg2 mode_text arg4 m,
    Some read_write = Some m
    /\ Shell.split "watchpoint set 0x1000 rw 8" " "%char = [c0; c1; arg2; mode_text; arg4]
    /\ Shell.example_to_integral Shell.uint64_t arg2 16 = Some 4096
    /\ Shell.example_to_integral Shell.size_t arg4 10 = Some 8
    /\ ((mode_text = "write" /\ m = write)
        \/ (mode_text = "rw" /\ m = read_write)
        \/ (mode_text = "execute" /\ m = execute)).
Proof.
  exact (watchpoint_mode_is_assigned Shell.example_to_integral
           "watchpoint set 0x1000 rw 8" 4096 (Some read_write) 8 eq_refl).
Defined.

Lemma disassemble_options_in_pairs_witness :
  Shell.handle_disassemble_command Shell.example_to_integral
    ["disassemble"; "-c"; "3"; "-a"; "0x1000"; "-c"; "7"]
  = Shell.Calls (Shell.Disassemble (Some 4096) 7)
  /\ Shell.handle_disassemble_command Shell.example_to_integral
       ["disassemble"; "-c"; "3"; "-a"; "0x1000"; "-c"; "7"; "-a"]
     = Shell.Prints_help Shell.Disassemble_options.
Proof.
  destruct (disassemble_options_in_pairs Shell.example_to_integral
              [("-c", "3"); ("-a", "0x1000"); ("-c", "7")] None 5)
    as (Hx & address' & n' & Hd & _ & Ha & _ & Hc).
  - apply Forall_cons_2; [right; split; [reflexivity | eexists; reflexivity]|].
    apply Forall_cons_2; [left; split; [reflexivity | eexists; reflexivity]|].
    apply Forall_cons_2; [right; split; [reflexivity | eexists; reflexivity]|].
    apply Forall_nil_2.
  - split; [| exact (Hx "-a")].
    unfold Shell.handle_disassemble_command.
    change (Shell.disassemble_options Shell.example_to_integral
              ([("-c", "3"); ("-a", "0x1000"); ("-c", "7")] ≫= (fun p => [p.1; p.2]))
              None 5
            = Shell.Calls (Shell.Disassemble (Some 4096) 7)).
    rewrite Hd. f_equal. f_equal.
    + apply (Ha [("-c", "3")] "0x1000" [("-c", "7")] eq_refl).
      repeat constructor. discriminate.
    + pose proof (Hc [("-c", "3"); ("-a", "0x1000")] "7" [] eq_refl ltac:(constructor))
        as H7.
      injection H7 as <-. reflexivity.
Defined.

End command_lines.
